(** * ts-compiler-bin: the build pipeline of [src/index.ts]

    A shallow embedding of the orchestration code of ts-compiler-bin:
    argument parsing ([main]), the [compile] pipeline (entry resolution,
    bundling, asset staging, packaging, cleanup), the two directory copy
    helpers and the asset lookup helper that [compile] injects into the
    bundle.

    [src/index.ts] holds two revisions of the module.  The later one (the
    one with [copyDirectoryContents] and the injected helper) is embedded
    as [compile]; the steps of the earlier one that differ are in module
    [Earlier], with [Earlier.compile].

    Conventions of the model.
    - A resolved path ([path.resolve], [process.cwd()], [__dirname]) is
      kept as the list of its components below the root; [Path.render]
      gives back the string that the code prints.  Where the code hands
      a joined path string to [fs], a slash at its end is kept apart
      ([Path.endsWithSlash]): such a string names a directory only.
    - The file system is a finite map from resolved paths to entries, a
      regular file with its content or a directory.  Symbolic links,
      permissions and I/O failures other than the ones listed with each
      operation are outside the model.
    - JavaScript values that may be [undefined] at run time ([args[++i]]
      past the end of [process.argv]) are [option string].
    - The bundler ([esbuild.build]) and the packager ([npx pkg] run through
      [execAsync]) are opaque: the environment supplies them as functions
      of their arguments and of the file system they run on.
    - A directory copy recurses on what it reads from the file system it
      is writing to, so the copy functions take a recursion bound; a run
      that exhausts it has outcome [Diverges]. *)

From Stdlib Require Import Ascii String.
From stdpp Require Import gmap strings list fin_maps.

Open Scope string_scope.
Open Scope list_scope.

(** ** Paths (Node's [path] module, POSIX flavour) *)

Module Path.

Abbreviation path := (list string).

(** [s.split('/')]: the segments of a path string. *)
Fixpoint segments (s : string) : list string :=
  match s with
  | EmptyString => [""]
  | String c s' =>
      if Ascii.eqb c "/"%char then "" :: segments s'
      else match segments s' with
           | [] => [String c ""]
           | seg :: segs => String c seg :: segs
           end
  end.

(** One step of normalisation: empty and [.] segments are dropped, [..]
    moves to the parent (the root is its own parent). *)
Definition step (base : path) (seg : string) : path :=
  if decide (seg = "" ∨ seg = ".") then base
  else if decide (seg = "..") then removelast base
  else base ++ [seg].

Definition walk (base : path) (segs : list string) : path :=
  foldl step base segs.

Definition isAbsolute (s : string) : bool :=
  match s with
  | String c _ => Ascii.eqb c "/"%char
  | EmptyString => false
  end.

(** [path.resolve(s)] in a process whose working directory is [cwd]. *)
Definition resolve (cwd : path) (s : string) : path :=
  walk (if isAbsolute s then [] else cwd) (segments s).

(** [path.join(base, s)] for a resolved [base]: the components of the
    joined path.  Node keeps a slash that ends [s] at the end of the
    joined string; [endsWithSlash s] tells whether there is one. *)
Definition join (base : path) (s : string) : path :=
  walk base (segments s).

Fixpoint endsWithSlash (s : string) : bool :=
  match s with
  | EmptyString => false
  | String c EmptyString => Ascii.eqb c "/"%char
  | String _ s' => endsWithSlash s'
  end.

(** [path.basename(p)] of a resolved path. *)
Definition basename (p : path) : string := List.last p "".

(** [path.dirname(p)] of a resolved path. *)
Definition parent (p : path) : path := removelast p.

(** The string form of a resolved path. *)
Definition render (p : path) : string :=
  "/" +:+ String.concat "/" p.

(** [path.dirname(s)] on a raw string, after Node's [posix.dirname]:
    scan from the end down to index 1, skip trailing slashes, then skip
    the last segment, and cut at the slash before it. *)
Fixpoint skipSlashes (r : list Ascii.ascii) : list Ascii.ascii :=
  match r with
  | c :: r' => if Ascii.eqb c "/"%char then skipSlashes r' else r
  | [] => []
  end.

Fixpoint skipSegment (r : list Ascii.ascii) : list Ascii.ascii :=
  match r with
  | c :: r' => if Ascii.eqb c "/"%char then r else skipSegment r'
  | [] => []
  end.

Definition dirname (s : string) : string :=
  match list_ascii_of_string s with
  | [] => "."
  | c0 :: rest =>
      let hasRoot := Ascii.eqb c0 "/"%char in
      match skipSegment (skipSlashes (rev rest)) with
      | [] => if hasRoot then "/" else "."
      | _ :: before =>
          if hasRoot && bool_decide (before = []) then "//"
          else string_of_list_ascii (c0 :: rev before)
      end
  end.

(** [normalizeString] of Node's [path] module on the segments of a path
    string: empty and [.] segments are dropped; [..] removes the segment
    before it, unless there is none or it is itself [..], and then it is
    kept when the path is relative ([allowAboveRoot]) and dropped when it
    is absolute. *)
Definition normalizeStep (allowAboveRoot : bool) (res : list string) (seg : string)
    : list string :=
  if decide (seg = "" ∨ seg = ".") then res
  else if decide (seg = "..") then
    match last res with
    | Some l =>
        if decide (l = "..") then (if allowAboveRoot then res ++ [".."] else res)
        else removelast res
    | None => if allowAboveRoot then res ++ [".."] else res
    end
  else res ++ [seg].

Definition normalizeString (allowAboveRoot : bool) (segs : list string) : list string :=
  foldl (normalizeStep allowAboveRoot) [] segs.

(** [path.normalize(s)] on a raw string. *)
Definition normalize (s : string) : string :=
  if decide (s = "") then "."
  else
    let absolute := isAbsolute s in
    let trailingSeparator := endsWithSlash s in
    let body := String.concat "/" (normalizeString (negb absolute) (segments s)) in
    if decide (body = "") then
      if absolute then "/" else if trailingSeparator then "./" else "."
    else
      (if absolute then "/" else "") +:+ body +:+ (if trailingSeparator then "/" else "").

(** [path.join(a, b)] on raw strings: the arguments that are not empty
    are joined with a slash and the result is normalised. *)
Definition joinStrings (a b : string) : string :=
  let joined :=
    if decide (a = "") then b
    else if decide (b = "") then a
    else a +:+ "/" +:+ b in
  if decide (joined = "") then "." else normalize joined.

(** [strip p k] is [Some r] when [k = p ++ r]. *)
Fixpoint strip (p k : path) : option path :=
  match p, k with
  | [], _ => Some k
  | a :: p', b :: k' => if decide (a = b) then strip p' k' else None
  | _ :: _, [] => None
  end.

Definition under (p k : path) : bool :=
  match strip p k with Some _ => true | None => false end.

End Path.

Import Path.

(** ** Errors and console values *)

Inductive error :=
  | Error (message : string)                 (* new Error(message) *)
  | TypeError (message : string)             (* ERR_INVALID_ARG_TYPE *)
  | SystemError (code : string) (p : path).  (* a failed fs call *)

(** ** The file system (Node's [fs], synchronous calls) *)

Inductive entry :=
  | File (data : string)
  | Dir.

Abbreviation FS := (gmap path entry).

Module Fs.

Definition existsSync (fs : FS) (p : path) : bool :=
  match fs !! p with Some _ => true | None => false end.

(** [fs.existsSync] on a path string whose components are [p] and which
    ends in a slash when [slash] is set: such a string names a directory
    only, and on a regular file the call answers [false]. *)
Definition existsSyncAs (fs : FS) (p : path) (slash : bool) : bool :=
  match fs !! p with
  | Some Dir => true
  | Some (File _) => negb slash
  | None => false
  end.

(** [fs.statSync(p).isDirectory()] *)
Definition isDirectory (fs : FS) (p : path) : error + bool :=
  match fs !! p with
  | Some Dir => inr true
  | Some (File _) => inr false
  | None => inl (SystemError "ENOENT" p)
  end.

(** [fs.mkdirSync(p, { recursive: true })]: every missing directory on
    the way to [p] is created; a regular file on the way is an error. *)
Fixpoint mkdirFrom (base : path) (rest : list string) (fs : FS) : error + FS :=
  match fs !! base with
  | Some (File _) =>
      inl (SystemError (if rest is [] then "EEXIST" else "ENOTDIR") base)
  | found =>
      let fs' := if found is None then <[base := Dir]> fs else fs in
      match rest with
      | [] => inr fs'
      | n :: rest' => mkdirFrom (base ++ [n]) rest' fs'
      end
  end.

Definition mkdirSync (p : path) (fs : FS) : error + FS :=
  mkdirFrom [] p fs.

(** A directory entry as [readdirSync(p, { withFileTypes: true })]
    returns it. *)
Record Dirent := { name : string; isDir : bool }.

Definition dirent_of (p : path) (kv : path * entry) : option Dirent :=
  match strip p kv.1 with
  | Some [n] => Some {| name := n; isDir := if kv.2 is Dir then true else false |}
  | _ => None
  end.

Definition readdirSync (fs : FS) (p : path) : error + list Dirent :=
  match fs !! p with
  | Some Dir => inr (omap (dirent_of p) (map_to_list fs))
  | Some (File _) => inl (SystemError "ENOTDIR" p)
  | None => inl (SystemError "ENOENT" p)
  end.

Definition readFileSync (fs : FS) (p : path) : error + string :=
  match fs !! p with
  | Some (File data) => inr data
  | Some Dir => inl (SystemError "EISDIR" p)
  | None => inl (SystemError "ENOENT" p)
  end.

(** [fs.readFileSync] on a path string that may end in a slash. *)
Definition readFileSyncAs (fs : FS) (p : path) (slash : bool) : error + string :=
  match fs !! p with
  | Some (File data) => if slash then inl (SystemError "ENOTDIR" p) else inr data
  | Some Dir => inl (SystemError "EISDIR" p)
  | None => inl (SystemError "ENOENT" p)
  end.

(** [fs.writeFileSync(p, data)]: creates or replaces a regular file; the
    parent must be a directory and [p] itself must not be one. *)
Definition writeFileSync (p : path) (data : string) (fs : FS) : error + FS :=
  match fs !! p with
  | Some Dir => inl (SystemError "EISDIR" p)
  | _ =>
      match p with
      | [] => inl (SystemError "EISDIR" p)
      | _ =>
          match fs !! parent p with
          | Some Dir => inr (<[p := File data]> fs)
          | Some (File _) => inl (SystemError "ENOTDIR" p)
          | None => inl (SystemError "ENOENT" p)
          end
      end
  end.

Definition copyFileSync (src dst : path) (fs : FS) : error + FS :=
  match fs !! src with
  | Some (File data) => writeFileSync dst data fs
  | Some Dir => inl (SystemError "EISDIR" src)
  | None => inl (SystemError "ENOENT" src)
  end.

(** [fs.rmSync(p, { recursive: true, force: true })]: [p] and everything
    below it is removed; a missing [p] is not an error. *)
Definition rmSync (p : path) (fs : FS) : FS :=
  filter (λ kv, under p kv.1 = false) fs.

End Fs.

(** ** Outcomes and the program monad *)

(** How a run of a piece of code over a state [S] ends: it returns, it
    throws, the process exits ([process.exit]), or the recursion bound of
    a directory copy is exhausted. *)
Inductive outcome (S A : Type) :=
  | Returns (a : A) (s : S)
  | Throws (e : error) (s : S)
  | Exits (code : nat) (s : S)
  | Diverges.

Arguments Returns {S A} a s.
Arguments Throws {S A} e s.
Arguments Exits {S A} code s.
Arguments Diverges {S A}.

Definition M (S A : Type) : Type := S → outcome S A.

Definition ret {S A} (a : A) : M S A := λ s, Returns a s.

Definition bind {S A B} (m : M S A) (k : A → M S B) : M S B :=
  λ s, match m s with
       | Returns a s' => k a s'
       | Throws e s' => Throws e s'
       | Exits c s' => Exits c s'
       | Diverges => Diverges
       end.

Definition throw {S A} (e : error) : M S A := λ s, Throws e s.
Definition process_exit {S A} (code : nat) : M S A := λ s, Exits code s.
Definition diverge {S A} : M S A := λ _, Diverges.

Declare Scope prog_scope.
Delimit Scope prog_scope with prog.
Bind Scope prog_scope with M.

Notation "'let!' x ':=' m 'in' k" := (bind m (λ x, k))
  (at level 10, x name, m at level 100, k at level 200,
   format "'[v' 'let!'  x  ':='  m  'in' '/' k ']'") : prog_scope.
Notation "m '>>' k" := (bind m (λ _, k))
  (at level 100, k at level 200, right associativity,
   format "'[v' m  '>>' '/' k ']'") : prog_scope.

Open Scope prog_scope.

(** [if (c) { m }] *)
Definition when {S} (c : bool) (m : M S unit) : M S unit :=
  if c then m else ret tt.

(** [for (const x of l) { body x }] *)
Fixpoint forEach {S A} (l : list A) (body : A → M S unit) : M S unit :=
  match l with
  | [] => ret tt
  | x :: l' => body x >> forEach l' body
  end.

(** [try { body } catch (error) { handler error }] *)
Definition tryCatch {S A} (body : M S A) (handler : error → M S A) : M S A :=
  λ s, match body s with
       | Throws e s' => handler e s'
       | o => o
       end.

(** [try { body } finally { cleanup }]: the cleanup runs after a return
    and after a throw; it does not run when the process has exited. *)
Definition tryFinally {S A} (body : M S A) (cleanup : M S unit) : M S A :=
  λ s, match body s with
       | Returns a s' => (cleanup >> ret a) s'
       | Throws e s' => (cleanup >> throw e) s'
       | o => o
       end.

(** File-system calls as steps of a program over [FS]. *)
Definition fsRead {A} (f : FS → A) : M FS A := λ fs, Returns (f fs) fs.

Definition fsTry {A} (f : FS → error + A) : M FS A :=
  λ fs, match f fs with
        | inr a => Returns a fs
        | inl e => Throws e fs
        end.

Definition fsUpdate (f : FS → error + FS) : M FS unit :=
  λ fs, match f fs with
        | inr fs' => Returns tt fs'
        | inl e => Throws e fs
        end.

(** ** The directory copy helpers *)

(** The loop body shared by the two helpers: [path.join(dir, entry.name)]
    appends one component, since [readdirSync] yields single names. *)
Definition copyEntry (recurse : path → path → M FS unit)
    (source target : path) (entry : Fs.Dirent) : M FS unit :=
  let sourcePath := source ++ [Fs.name entry] in
  let targetPath := target ++ [Fs.name entry] in
  if Fs.isDir entry then recurse sourcePath targetPath
  else fsUpdate (Fs.copyFileSync sourcePath targetPath).

Definition copyBody (recurse : path → path → M FS unit)
    (source target : path) : M FS unit :=
  let! present := fsRead (λ fs, Fs.existsSync fs target) in
  when (negb present) (fsUpdate (Fs.mkdirSync target)) >>
  let! entries := fsTry (λ fs, Fs.readdirSync fs source) in
  forEach entries (copyEntry recurse source target).

Fixpoint copyDirectoryRecursive (fuel : nat) (source target : path) : M FS unit :=
  match fuel with
  | O => diverge
  | S fuel' => copyBody (copyDirectoryRecursive fuel') source target
  end.

(** Same statements as [copyDirectoryRecursive]; sub-directories go
    through [copyDirectoryRecursive]. *)
Definition copyDirectoryContents (fuel : nat) (source target : path) : M FS unit :=
  copyBody (copyDirectoryRecursive fuel) source target.

(** ** The world of a run: files and what the run did *)

Module Esbuild.
(** The options object passed to [esbuild.build]. *)
Record BuildOptions := {
  entryPoints : list path;
  bundle : bool;
  platform : string;
  target : list string;
  outfile : path;
  minify : bool;
  sourcemap : bool;
}.
End Esbuild.

(** An argument of a [console] call. *)
Inductive value :=
  | VStr (s : string)
  | VPath (p : path)
  | VUndefined
  | VList (l : list (option string))
  | VError (e : error).

Definition VOpt (o : option string) : value :=
  match o with Some s => VStr s | None => VUndefined end.

(** What a run does that is visible from outside: console lines and the
    calls of the two collaborators, each with the file system it ran on. *)
Inductive event :=
  | Log (args : list value)        (* console.log *)
  | Warn (args : list value)       (* console.warn *)
  | ErrorLog (args : list value)   (* console.error *)
  | Build (options : Esbuild.BuildOptions) (fs : FS)   (* esbuild.build *)
  | Exec (command : string) (fs : FS).                 (* execAsync *)

Record world := { files : FS; trace : list event }.

(** The process and its collaborators. *)
Record Env := {
  process_cwd : path;
  process_platform : string;
  esbuild : Esbuild.BuildOptions → FS → FS * option error;
  shell : string → FS → FS * option error;
}.

Definition onFiles {A} (m : M FS A) : M world A :=
  λ w, match m (files w) with
       | Returns a fs => Returns a {| files := fs; trace := trace w |}
       | Throws e fs => Throws e {| files := fs; trace := trace w |}
       | Exits c fs => Exits c {| files := fs; trace := trace w |}
       | Diverges => Diverges
       end.

Definition emit (ev : event) : M world unit :=
  λ w, Returns tt {| files := files w; trace := trace w ++ [ev] |}.

Definition console_log (args : list value) : M world unit := emit (Log args).
Definition console_warn (args : list value) : M world unit := emit (Warn args).
Definition console_error (args : list value) : M world unit := emit (ErrorLog args).

(** A call of a collaborator: it is recorded, it changes the files, and
    it resolves or rejects. *)
Definition call (ev : FS → event) (f : FS → FS * option error) : M world unit :=
  λ w, let w' := {| files := (f (files w)).1; trace := trace w ++ [ev (files w)] |} in
       match (f (files w)).2 with
       | None => Returns tt w'
       | Some e => Throws e w'
       end.

Definition esbuild_build (env : Env) (options : Esbuild.BuildOptions) : M world unit :=
  call (Build options) (esbuild env options).

Definition execAsync (env : Env) (command : string) : M world unit :=
  call (Exec command) (shell env command).

(** A double quote, and a value inside a template literal. *)
Definition quote : string := String (ascii_of_nat 34) "".

Definition str (o : option string) : string :=
  match o with Some s => s | None => "undefined" end.

(** [path.resolve(x)] and [path.dirname(x)] reject a value that is not a
    string. *)
Definition path_resolve {S} (cwd : path) (x : option string) : M S path :=
  match x with
  | Some s => ret (resolve cwd s)
  | None => throw (TypeError ("The " +:+ quote +:+ "paths[0]" +:+ quote
                               +:+ " argument must be of type string. Received undefined"))
  end.

Definition path_dirname {S} (x : option string) : M S string :=
  match x with
  | Some s => ret (dirname s)
  | None => throw (TypeError ("The " +:+ quote +:+ "path" +:+ quote
                               +:+ " argument must be of type string. Received undefined"))
  end.

(** ** [compile] *)

(** [assets?: string | string[]] *)
Inductive Assets :=
  | AssetString (s : string)
  | AssetList (l : list (option string)).

Record CompileOptions := {
  entryPoint : string;
  outFile : option string;
  target : option string;
  platform : option string;
  nodeVersion : option string;
  assets : option Assets;
}.

(** The text of the lookup helper that is prepended to the bundle. *)
Definition assetHelperCode : string := "
// Asset helper functions
if (!global.__assetAccessInitialized) {
  global.__assetAccessInitialized = true;
  const fs = require('fs');
  const path = require('path');
  
  global.__readAsset = function(filename) {
    try {
      // Для pkg: шлях відносно виконуваного файлу
      const pkgPath = path.join(path.dirname(process.execPath), 'assets', filename);
      if (fs.existsSync(pkgPath)) {
        return fs.readFileSync(pkgPath, 'utf-8');
      }
      
      // Для pkg: альтернативний шлях
      const pkgPath2 = path.join(process.cwd(), 'assets', filename);
      if (fs.existsSync(pkgPath2)) {
        return fs.readFileSync(pkgPath2, 'utf-8');
      }
      
      // Для pkg: шлях відносно snapshot директорії
      if (process.pkg) {
        const snapshotPath = path.join('/snapshot/assets', filename);
        if (fs.existsSync(snapshotPath)) {
          return fs.readFileSync(snapshotPath, 'utf-8');
        }
      }
      
      // Для розробки: шлях відносно поточної директорії
      const devPath = path.join(__dirname, 'assets', filename);
      if (fs.existsSync(devPath)) {
        return fs.readFileSync(devPath, 'utf-8');
      }
      
      throw new Error('Asset file not found: ' + filename);
    } catch (error) {
      console.error('Error reading asset file ' + filename + ':', error);
      throw error;
    }
  };
}
".

Definition readmeText : string :=
  "This directory contains assets for the application.".

(** The platform used when the options give none. *)
Definition defaultPlatform (env : Env) : string :=
  if decide (process_platform env = "win32") then "win"
  else if decide (process_platform env = "darwin") then "macos"
  else "linux".

Definition tempDirOf (env : Env) : path :=
  join (process_cwd env) ".ts-compiler-bin-temp".

Definition bundleFileOf (env : Env) : path :=
  join (tempDirOf env) "bundle.js".

Definition tempAssetsDirOf (env : Env) : path :=
  join (tempDirOf env) "assets".

(** [typeof assets === 'string' ? [assets] : assets] *)
Definition assetsArrayOf (assets : Assets) : list (option string) :=
  match assets with
  | AssetString s => [Some s]
  | AssetList l => l
  end.

(** The loop over [assetsArray]; [hasAssets] is the flag it sets.  The
    target of a file is [path.join(tempAssetsDir, path.basename(assetPath))],
    one component below [tempAssetsDir]. *)
Fixpoint stageLoop (env : Env) (fuel : nat) (tempAssetsDir : path)
    (assetsArray : list (option string)) (hasAssets : bool) : M world bool :=
  match assetsArray with
  | [] => ret hasAssets
  | asset :: rest =>
      let! assetPath := path_resolve (process_cwd env) asset in
      console_log [VStr ("Copying asset: " +:+ render assetPath)] >>
      let! found := onFiles (fsRead (λ fs, Fs.existsSync fs assetPath)) in
      if negb found then
        console_warn [VStr ("⚠️ Warning: Asset not found: " +:+ render assetPath)] >>
        stageLoop env fuel tempAssetsDir rest hasAssets
      else
        let! isDirectory := onFiles (fsTry (λ fs, Fs.isDirectory fs assetPath)) in
        if isDirectory then
          onFiles (copyDirectoryContents fuel assetPath tempAssetsDir) >>
          console_log [VStr ("✅ Directory contents copied: " +:+ render assetPath
                             +:+ " -> " +:+ render tempAssetsDir)] >>
          stageLoop env fuel tempAssetsDir rest true
        else
          let targetFile := tempAssetsDir ++ [basename assetPath] in
          onFiles (fsUpdate (Fs.copyFileSync assetPath targetFile)) >>
          console_log [VStr ("✅ File copied: " +:+ render assetPath
                             +:+ " -> " +:+ render targetFile)] >>
          stageLoop env fuel tempAssetsDir rest true
  end.

(** Prepending the helper to the bundle. *)
Definition injectHelper (bundleFile : path) : M world unit :=
  console_log [VStr "📝 Adding asset helper code to bundle..."] >>
  let! bundleContent := onFiles (fsTry (λ fs, Fs.readFileSync fs bundleFile)) in
  onFiles (fsUpdate (Fs.writeFileSync bundleFile (assetHelperCode +:+ bundleContent))) >>
  console_log [VStr "✅ Asset helper code added to bundle"].

(** Step 2 of [compile]: copy the assets; the result is [hasAssets]. *)
Definition stageAssets (env : Env) (fuel : nat)
    (assetsArray : list (option string)) : M world bool :=
  if bool_decide (0 < length assetsArray) then
    console_log [VStr "📂 Copying assets..."] >>
    let tempAssetsDir := join (tempDirOf env) "assets" in
    let! present := onFiles (fsRead (λ fs, Fs.existsSync fs tempAssetsDir)) in
    when (negb present) (onFiles (fsUpdate (Fs.mkdirSync tempAssetsDir))) >>
    let! hasAssets := stageLoop env fuel tempAssetsDir assetsArray false in
    when hasAssets (injectHelper (bundleFileOf env)) >>
    console_log [VStr "✅ Assets copying complete"] >>
    ret hasAssets
  else ret false.

(** The target identifiers handed to the packager. *)
Definition pkgTargets (nodeVersion platform : string) : list string :=
  if decide (platform = "all") then
    [ "node" +:+ nodeVersion +:+ "-win-x64";
      "node" +:+ nodeVersion +:+ "-macos-x64";
      "node" +:+ nodeVersion +:+ "-linux-x64" ]
  else
    [ "node" +:+ nodeVersion +:+ "-" +:+ platform +:+ "-x64" ].

Definition pkgCommand (bundleFile : path) (pkgTargetsStr pkgAssetsOption : string)
    (outFile : option string) : string :=
  "npx pkg " +:+ render bundleFile +:+ " --targets " +:+ pkgTargetsStr +:+ " "
  +:+ pkgAssetsOption +:+ " --output " +:+ str outFile.

(** The [--assets] option and the README written for it. *)
Definition assetsOption (env : Env) (hasAssets : bool) : M world string :=
  if hasAssets then
    let readmePath := join (join (tempDirOf env) "assets") "README.md" in
    onFiles (fsUpdate (Fs.writeFileSync readmePath readmeText)) >>
    ret ("--assets " +:+ quote +:+ render (tempDirOf env) +:+ "/assets/**/*" +:+ quote)
  else ret "".

(** The directory [path.join(path.dirname(outFile), 'assets')], resolved
    against the working directory as the [fs] calls do. *)
Definition exeAssetsDirOf (env : Env) (dir : string) : path :=
  join (resolve (process_cwd env) dir) "assets".

(** Copying the staged assets beside the executable.  The code keeps
    [path.join(path.dirname(outFile), 'assets')] as a string, relative
    when [outFile] is: the [fs] calls resolve it, the message prints it
    as it is. *)
Definition copyBeside (env : Env) (fuel : nat) (outFile : option string) : M world unit :=
  let! dir := path_dirname outFile in
  let exeAssetsDir := exeAssetsDirOf env dir in
  let! present := onFiles (fsRead (λ fs, Fs.existsSync fs exeAssetsDir)) in
  when (negb present) (onFiles (fsUpdate (Fs.mkdirSync exeAssetsDir))) >>
  onFiles (copyDirectoryContents fuel (join (tempDirOf env) "assets") exeAssetsDir) >>
  console_log [VStr ("✅ Assets copied to executable directory: "
                     +:+ joinStrings dir "assets")].

(** The body of the last [try]: run the packager, then copy the staged
    assets beside the executable. *)
Definition package (env : Env) (fuel : nat) (pkgTargetsStr pkgAssetsOption : string)
    (outFile : option string) (hasAssets : bool) : M world unit :=
  let pkgCommand := pkgCommand (bundleFileOf env) pkgTargetsStr pkgAssetsOption outFile in
  console_log [VStr "Executing pkg command:"; VStr pkgCommand] >>
  execAsync env pkgCommand >>
  console_log [VStr ("✅ Executable created successfully: " +:+ str outFile)] >>
  when hasAssets (copyBeside env fuel outFile).

(** The start of [compile]: the entry point is resolved and must exist. *)
Definition checkEntry (env : Env) (entryPoint : string) : M world path :=
  console_log [VStr "📦 Bundling TypeScript code..."] >>
  console_log [VStr "Current working directory:"; VPath (process_cwd env)] >>
  console_log [VStr "Entry point (raw):"; VStr entryPoint] >>
  let entryPointPath := resolve (process_cwd env) entryPoint in
  console_log [VStr "Entry point (resolved):"; VPath entryPointPath] >>
  let! found := onFiles (fsRead (λ fs, Fs.existsSync fs entryPointPath)) in
  when (negb found) (
    console_error [VStr ("❌ Error: File not found: " +:+ render entryPointPath)] >>
    throw (Error ("File not found: " +:+ render entryPointPath))) >>
  ret entryPointPath.

(** Step 1 of [compile]: bundle with esbuild into the temp directory. *)
Definition bundleStep (env : Env) (nodeVersion : string) (entryPointPath : path) : M world unit :=
  let tempDir := tempDirOf env in
  let bundleFile := bundleFileOf env in
  console_log [VStr "Temp directory:"; VPath tempDir] >>
  console_log [VStr "Bundle file:"; VPath bundleFile] >>
  let! present := onFiles (fsRead (λ fs, Fs.existsSync fs tempDir)) in
  when (negb present) (onFiles (fsUpdate (Fs.mkdirSync tempDir))) >>
  tryCatch
    (esbuild_build env {|
       Esbuild.entryPoints := [entryPointPath];
       Esbuild.bundle := true;
       Esbuild.platform := "node";
       Esbuild.target := ["node" +:+ nodeVersion];
       Esbuild.outfile := bundleFile;
       Esbuild.minify := true;
       Esbuild.sourcemap := false |})
    (λ error,
       console_error [VStr "❌ Error bundling with esbuild:"; VError error] >>
       throw error) >>
  console_log [VStr "✅ TypeScript bundling complete"].

(** Step 3 of [compile]: run pkg, and remove the temp directory whatever
    the result. *)
Definition packageStep (env : Env) (fuel : nat) (nodeVersion platform : string)
    (outFile : option string) (hasAssets : bool) : M world unit :=
  console_log [VStr "🔨 Creating executable binary..."] >>
  let pkgTargetsStr := String.concat "," (pkgTargets nodeVersion platform) in
  let! pkgAssetsOption := assetsOption env hasAssets in
  tryFinally
    (tryCatch
       (package env fuel pkgTargetsStr pkgAssetsOption outFile hasAssets)
       (λ error,
          console_error [VStr "❌ Error creating executable:"; VError error] >>
          throw error))
    (onFiles (λ fs, Returns tt (Fs.rmSync (tempDirOf env) fs))).

Definition compile (env : Env) (fuel : nat) (options : CompileOptions) : M world unit :=
  let entryPoint := entryPoint options in
  let outFile := outFile options in
  let platform := default (defaultPlatform env) (platform options) in
  let nodeVersion := default "16" (nodeVersion options) in
  let assets := default (AssetList []) (assets options) in
  let! entryPointPath := checkEntry env entryPoint in
  bundleStep env nodeVersion entryPointPath >>
  let assetsArray := assetsArrayOf assets in
  let! hasAssets := stageAssets env fuel assetsArray in
  packageStep env fuel nodeVersion platform outFile hasAssets.

(** ** The earlier revision of [compile]

    The first of the two revisions in [src/index.ts]: a listed directory
    is copied as a sub-directory of [assets/], no helper is injected, and
    the [--assets] option depends on the length of the list only. *)

Module Earlier.

Fixpoint stageLoop (env : Env) (fuel : nat) (tempAssetsDir : path)
    (assetsArray : list (option string)) : M world unit :=
  match assetsArray with
  | [] => ret tt
  | asset :: rest =>
      let! assetPath := path_resolve (process_cwd env) asset in
      console_log [VStr ("Copying asset: " +:+ render assetPath)] >>
      let! found := onFiles (fsRead (λ fs, Fs.existsSync fs assetPath)) in
      if negb found then
        console_warn [VStr ("⚠️ Warning: Asset not found: " +:+ render assetPath)] >>
        stageLoop env fuel tempAssetsDir rest
      else
        let! isDirectory := onFiles (fsTry (λ fs, Fs.isDirectory fs assetPath)) in
        if isDirectory then
          let assetDirName := basename assetPath in
          let targetDir := tempAssetsDir ++ [assetDirName] in
          onFiles (copyDirectoryRecursive fuel assetPath targetDir) >>
          console_log [VStr ("✅ Directory copied: " +:+ render assetPath
                             +:+ " -> " +:+ render targetDir)] >>
          stageLoop env fuel tempAssetsDir rest
        else
          let targetFile := tempAssetsDir ++ [basename assetPath] in
          onFiles (fsUpdate (Fs.copyFileSync assetPath targetFile)) >>
          console_log [VStr ("✅ File copied: " +:+ render assetPath
                             +:+ " -> " +:+ render targetFile)] >>
          stageLoop env fuel tempAssetsDir rest
  end.

Definition stageAssets (env : Env) (fuel : nat)
    (assetsArray : list (option string)) : M world unit :=
  when (bool_decide (0 < length assetsArray)) (
    console_log [VStr "📂 Copying assets..."] >>
    let tempAssetsDir := join (tempDirOf env) "assets" in
    let! present := onFiles (fsRead (λ fs, Fs.existsSync fs tempAssetsDir)) in
    when (negb present) (onFiles (fsUpdate (Fs.mkdirSync tempAssetsDir))) >>
    stageLoop env fuel tempAssetsDir assetsArray >>
    console_log [VStr "✅ Assets copying complete"]).

Definition pkgAssetsOption (env : Env) (assetsArray : list (option string)) : string :=
  if bool_decide (0 < length assetsArray)
  then "--assets " +:+ quote +:+ render (tempDirOf env) +:+ "/assets/**/*" +:+ quote
  else "".

Definition packageStep (env : Env) (nodeVersion platform : string)
    (outFile : option string) (assetsArray : list (option string)) : M world unit :=
  console_log [VStr "🔨 Creating executable binary..."] >>
  let pkgTargetsStr := String.concat "," (pkgTargets nodeVersion platform) in
  tryFinally
    (tryCatch
       (execAsync env (pkgCommand (bundleFileOf env) pkgTargetsStr
                         (pkgAssetsOption env assetsArray) outFile) >>
        console_log [VStr ("✅ Executable created successfully: " +:+ str outFile)])
       (λ error,
          console_error [VStr "❌ Error creating executable:"; VError error] >>
          throw error))
    (onFiles (λ fs, Returns tt (Fs.rmSync (tempDirOf env) fs))).

Definition compile (env : Env) (fuel : nat) (options : CompileOptions) : M world unit :=
  let entryPoint := entryPoint options in
  let outFile := outFile options in
  let platform := default (defaultPlatform env) (platform options) in
  let nodeVersion := default "16" (nodeVersion options) in
  let assets := default (AssetList []) (assets options) in
  let! entryPointPath := checkEntry env entryPoint in
  bundleStep env nodeVersion entryPointPath >>
  let assetsArray := assetsArrayOf assets in
  stageAssets env fuel assetsArray >>
  packageStep env nodeVersion platform outFile assetsArray.

End Earlier.

(** ** [main] and the command-line script *)

Definition usage : string :=
    "
ts-compiler-bin - A lightweight tool that compiles TypeScript into a single executable binary

Usage:
  ts-compiler-bin [options] <entry-file>

Options:
  --out, -o     Output file name (default: " +:+ quote +:+
    "output" +:+ quote +:+
    ")
  --target, -t  Node.js target version (default: " +:+ quote +:+
    "16" +:+ quote +:+
    ")
  --platform, -p Target platform: win, macos, linux, alpine, all (default: current platform)
  --assets, -a  Assets to include (can be specified multiple times)
  --help, -h    Show this help message

Example:
  ts-compiler-bin -o my-app -a assets src/index.ts
".

Record Parsed := {
  p_entryPoint : string;
  p_outFile : option string;
  p_target : option string;
  p_platform : option string;
  p_assets : list (option string);
}.

Definition isFlag (arg long short : string) : bool :=
  bool_decide (arg = long) || bool_decide (arg = short).

(** [arg.startsWith('-')] *)
Definition startsWithDash (arg : string) : bool :=
  match arg with
  | String c _ => Ascii.eqb c "-"%char
  | EmptyString => false
  end.

(** The argument loop.  A flag takes the next token as its value,
    [args[++i]], which is [undefined] when the flag is the last token. *)
Fixpoint parseArgs (args : list string) (acc : Parsed) : Parsed :=
  match args with
  | [] => acc
  | arg :: rest =>
      if isFlag arg "--out" "-o" then
        match rest with
        | v :: rest' => parseArgs rest' {| p_entryPoint := p_entryPoint acc; p_outFile := Some v;
              p_target := p_target acc; p_platform := p_platform acc; p_assets := p_assets acc |}
        | [] => {| p_entryPoint := p_entryPoint acc; p_outFile := None;
              p_target := p_target acc; p_platform := p_platform acc; p_assets := p_assets acc |}
        end
      else if isFlag arg "--target" "-t" then
        match rest with
        | v :: rest' => parseArgs rest' {| p_entryPoint := p_entryPoint acc; p_outFile := p_outFile acc;
              p_target := Some v; p_platform := p_platform acc; p_assets := p_assets acc |}
        | [] => {| p_entryPoint := p_entryPoint acc; p_outFile := p_outFile acc;
              p_target := None; p_platform := p_platform acc; p_assets := p_assets acc |}
        end
      else if isFlag arg "--platform" "-p" then
        match rest with
        | v :: rest' => parseArgs rest' {| p_entryPoint := p_entryPoint acc; p_outFile := p_outFile acc;
              p_target := p_target acc; p_platform := Some v; p_assets := p_assets acc |}
        | [] => {| p_entryPoint := p_entryPoint acc; p_outFile := p_outFile acc;
              p_target := p_target acc; p_platform := None; p_assets := p_assets acc |}
        end
      else if isFlag arg "--assets" "-a" then
        match rest with
        | v :: rest' => parseArgs rest' {| p_entryPoint := p_entryPoint acc; p_outFile := p_outFile acc;
              p_target := p_target acc; p_platform := p_platform acc;
              p_assets := p_assets acc ++ [Some v] |}
        | [] => {| p_entryPoint := p_entryPoint acc; p_outFile := p_outFile acc;
              p_target := p_target acc; p_platform := p_platform acc;
              p_assets := p_assets acc ++ [None] |}
        end
      else if negb (startsWithDash arg) then
        parseArgs rest {| p_entryPoint := arg; p_outFile := p_outFile acc;
              p_target := p_target acc; p_platform := p_platform acc; p_assets := p_assets acc |}
      else parseArgs rest acc
  end.

Definition initialParsed (env : Env) : Parsed :=
  {| p_entryPoint := ""; p_outFile := Some "output"; p_target := Some "16";
     p_platform := Some (defaultPlatform env); p_assets := [] |}.

(** [args.length === 0 || args.includes('--help') || args.includes('-h')] *)
Definition wantsHelp (args : list string) : bool :=
  bool_decide (length args = 0) || bool_decide ("--help" ∈ args) || bool_decide ("-h" ∈ args).

Definition main (env : Env) (fuel : nat) (argv : list string) : M world unit :=
  console_log [VStr "Starting main function..."] >>
  let args := drop 2 argv in
  console_log [VStr "Arguments:"; VList (Some <$> args)] >>
  if wantsHelp args then console_log [VStr usage]
  else
    let parsed := parseArgs args (initialParsed env) in
    let entryPoint := p_entryPoint parsed in
    let outFile := p_outFile parsed in
    let target := p_target parsed in
    let platform := p_platform parsed in
    let assets := p_assets parsed in
    console_log [VStr "Parsed arguments:"] >>
    console_log [VStr "- entryPoint:"; VStr entryPoint] >>
    console_log [VStr "- outFile:"; VOpt outFile] >>
    console_log [VStr "- target:"; VOpt target] >>
    console_log [VStr "- platform:"; VOpt platform] >>
    console_log [VStr "- assets:"; VList assets] >>
    when (bool_decide (entryPoint = "")) (
      console_error [VStr "❌ Error: Entry point is required"] >>
      process_exit 1) >>
    let absoluteEntryPoint := resolve (process_cwd env) entryPoint in
    console_log [VStr "Absolute entry point:"; VPath absoluteEntryPoint] >>
    tryCatch
      (compile env fuel {|
         entryPoint := render absoluteEntryPoint;
         outFile := outFile;
         target := Some ("node" +:+ str target);
         platform := platform;
         nodeVersion := target;
         assets := Some (AssetList assets) |})
      (λ error,
         console_error [VStr "❌ Compilation failed:"; VError error] >>
         process_exit 1).

(** [bin/cli.ts] *)
Definition cli (env : Env) (fuel : nat) (argv : list string) : M world unit :=
  console_log [VStr "CLI script starting..."] >>
  console_log [VStr "Starting ts-compiler-bin CLI..."] >>
  tryCatch (main env fuel argv)
    (λ error,
       console_error [VStr "Error in main function:"; VError error] >>
       process_exit 1).

(** The exit code of the process for an outcome of the script: a normal
    return ends with code 0, an uncaught exception with code 1. *)
Definition exitCode {A} (o : outcome world A) : option nat :=
  match o with
  | Returns _ _ => Some 0
  | Throws _ _ => Some 1
  | Exits code _ => Some code
  | Diverges => None
  end.

Definition run {A} (m : M world A) (fs : FS) : outcome world A :=
  m {| files := fs; trace := [] |}.

(** ** The lookup helper at run time

    [assetHelperCode] installs [global.__readAsset] in the packaged
    program.  This is that function, over the process it runs in. *)

Module Helper.

Record Process := {
  execPath : path;   (* process.execPath *)
  cwd : path;        (* process.cwd() *)
  pkg : bool;        (* whether process.pkg is set *)
  dirname : path;    (* __dirname *)
}.

(** The body of the [try] block.  Each candidate is [path.join] of a
    directory and [filename], so it ends in a slash when [filename]
    does. *)
Definition lookup (proc : Process) (filename : string) (fs : FS) : error + string :=
  let slash := endsWithSlash filename in
  let pkgPath := join (join (parent (execPath proc)) "assets") filename in
  if Fs.existsSyncAs fs pkgPath slash then Fs.readFileSyncAs fs pkgPath slash else
  let pkgPath2 := join (join (cwd proc) "assets") filename in
  if Fs.existsSyncAs fs pkgPath2 slash then Fs.readFileSyncAs fs pkgPath2 slash else
  let snapshotPath := join (resolve [] "/snapshot/assets") filename in
  if pkg proc && Fs.existsSyncAs fs snapshotPath slash
  then Fs.readFileSyncAs fs snapshotPath slash else
  let devPath := join (join (dirname proc) "assets") filename in
  if Fs.existsSyncAs fs devPath slash then Fs.readFileSyncAs fs devPath slash else
  inl (Error ("Asset file not found: " +:+ filename)).

Definition readAsset (proc : Process) (filename : string) : M world string :=
  tryCatch
    (onFiles (fsTry (lookup proc filename)))
    (λ error,
       console_error [VStr ("Error reading asset file " +:+ filename +:+ ":"); VError error] >>
       throw error).

End Helper.

(** * Vocabulary of the statements *)

(** The state in which a run ends, when it ends. *)
Definition final {S A} (o : outcome S A) : option S :=
  match o with
  | Returns _ s | Throws _ s | Exits _ s => Some s
  | Diverges => None
  end.

(** [always R m]: every run of [m] that ends relates its first state to
    its last by [R]. *)
Definition always {S A : Type} (R : S → S → Prop) (m : M S A) : Prop :=
  ∀ s s', final (m s) = Some s' → R s s'.

(** Every entry but the root lies in a directory. *)
Definition wf (fs : FS) : Prop :=
  ∀ k e, fs !! k = Some e → k ≠ [] → fs !! parent k = Some Dir.

Definition isDirEntry (e : entry) : bool := if e is Dir then true else false.

(** [touches dst fs fs']: going from [fs] to [fs'], an entry outside
    [dst] is unchanged, unless it is a missing directory on the way to
    [dst]. *)
Definition touches (dst : path) (fs fs' : FS) : Prop :=
  ∀ k, under dst k = false → is_Some (fs !! k) ∨ under k dst = false →
       fs' !! k = fs !! k.

(** [keeps fs fs']: a directory stays a directory, a file stays a file. *)
Definition keeps (fs fs' : FS) : Prop :=
  ∀ k e, fs !! k = Some e → ∃ e', fs' !! k = Some e' ∧ isDirEntry e' = isDirEntry e.

Definition preserves (dst : path) (fs fs' : FS) : Prop :=
  touches dst fs fs' ∧ keeps fs fs' ∧ (wf fs → wf fs').

Definition unrelated (p q : path) : Prop :=
  under p q = false ∧ under q p = false.

(** No entry of the source tree meets an entry of the other kind at the
    same place of the target tree. *)
Definition compatible (fs : FS) (src dst : path) : Prop :=
  ∀ r e e', fs !! (src ++ r) = Some e → fs !! (dst ++ r) = Some e' →
            isDirEntry e = isDirEntry e'.

(** The file system with the tree at [src] laid over the tree at [dst]. *)
Definition grafted (fs : FS) (src dst k : path) : option entry :=
  match strip dst k with
  | Some r => match fs !! (src ++ r) with
              | Some e => Some e
              | None => fs !! k
              end
  | None => fs !! k
  end.

(** The same for the entries of [src] whose name is in [names] only. *)
Definition graftedNames (names : list string) (fs : FS) (src dst k : path) : option entry :=
  match strip dst k with
  | Some (n :: r) => if decide (n ∈ names) then grafted fs src dst k else fs !! k
  | _ => fs !! k
  end.

(** [copies copy depth]: on a source tree of depth below [depth] that is
    apart from the target and compatible with it, [copy] returns and
    lays the source tree over the target. *)
Definition copies (copy : path → path → M FS unit) (depth : nat) : Prop :=
  ∀ (src dst : path) (fs : FS),
    wf fs → unrelated src dst → fs !! src = Some Dir →
    dst ≠ [] → fs !! parent dst = Some Dir →
    compatible fs src dst →
    (∀ r, is_Some (fs !! (src ++ r)) → length r < depth) →
    ∃ fs', copy src dst fs = Returns tt fs' ∧ wf fs' ∧
           ∀ k, fs' !! k = grafted fs src dst k.

Definition isInvocation (ev : event) : bool :=
  match ev with
  | Build _ _ | Exec _ _ => true
  | _ => false
  end.

(** How many times the bundler or the packager was called. *)
Definition invocations (t : list event) : nat :=
  length (List.filter isInvocation t).

Definition isExec (ev : event) : bool :=
  match ev with
  | Exec _ _ => true
  | _ => false
  end.

(** The calls of the packager. *)
Definition execs (t : list event) : list event := List.filter isExec t.

Definition quiet (w w' : world) : Prop := execs (trace w') = execs (trace w).

(** Everything in [compile] before step 3. *)
Definition beforePackaging (env : Env) (fuel : nat) (options : CompileOptions) : M world bool :=
  let! entryPointPath := checkEntry env (entryPoint options) in
  bundleStep env (default "16" (nodeVersion options)) entryPointPath >>
  stageAssets env fuel (assetsArrayOf (default (AssetList []) (assets options))).

(** The only command [c] that a piece of code passes to the packager. *)
Definition runsOnly (c : string) (w w' : world) : Prop :=
  ∀ ev, In ev (execs (trace w')) → In ev (execs (trace w)) ∨ ∃ fs, ev = Exec c fs.

Definition readmePathOf (env : Env) : path :=
  join (join (tempDirOf env) "assets") "README.md".

Definition assetsFlag (env : Env) : string :=
  "--assets " +:+ quote +:+ render (tempDirOf env) +:+ "/assets/**/*" +:+ quote.

(** The outcome of step 3 from a world in which the packager has not
    run: either the README could not be written and nothing ran, or the
    packager ran once, on the staged files, and the temp directory is
    gone when the step returns or throws. *)
Definition packaged (env : Env) (fuel : nat) (nodeVersion platform : string) (outFile : option string)
    (hasAssets : bool) (w : world) (o : outcome world unit) : Prop :=
  ∃ opt fs1,
    let cmd := pkgCommand (bundleFileOf env)
                 (String.concat "," (pkgTargets nodeVersion platform)) opt outFile in
    (if hasAssets
     then opt = assetsFlag env ∧ fs1 = <[readmePathOf env := File readmeText]> (files w)
     else opt = "" ∧ fs1 = files w) ∧
    match o with
    | Returns _ w' =>
        execs (trace w') = [Exec cmd fs1] ∧ (shell env cmd fs1).2 = None ∧
        (∀ k, under (tempDirOf env) k = true → files w' !! k = None) ∧
        ∃ w3 w4, files w3 = (shell env cmd fs1).1 ∧
                 (if hasAssets then copyBeside env fuel outFile w3 = Returns tt w4
                  else w4 = w3) ∧
                 files w' = Fs.rmSync (tempDirOf env) (files w4)
    | Throws e w' =>
        execs (trace w') = [Exec cmd fs1] ∧
        (∀ e', (shell env cmd fs1).2 = Some e' → e' = e) ∧
        In (ErrorLog [VStr "❌ Error creating executable:"; VError e]) (trace w') ∧
        ∀ k, under (tempDirOf env) k = true → files w' !! k = None
    | Exits _ w' => execs (trace w') = [Exec cmd fs1]
    | Diverges => True
    end.

Definition withAssets (options : CompileOptions) (a : Assets) : CompileOptions :=
  {| entryPoint := entryPoint options; outFile := outFile options;
     target := target options; platform := platform options;
     nodeVersion := nodeVersion options; assets := Some a |}.

(** The options that [main] passes to [compile]. *)
Definition mainOptions (env : Env) (args : list string) : CompileOptions :=
  let parsed := parseArgs args (initialParsed env) in
  {| entryPoint := render (resolve (process_cwd env) (p_entryPoint parsed));
     outFile := p_outFile parsed;
     target := Some ("node" +:+ str (p_target parsed));
     platform := p_platform parsed;
     nodeVersion := p_target parsed;
     assets := Some (AssetList (p_assets parsed)) |}.

(** The files of a run, related by [R]. *)
Definition onWorld (R : FS → FS → Prop) (w w' : world) : Prop :=
  R (files w) (files w').

(** The warning for a missing asset. *)
Definition notFound (env : Env) (s : string) : event :=
  Warn [VStr ("⚠️ Warning: Asset not found: " +:+ render (resolve (process_cwd env) s))].

(** An entry of [assetsArray] that names a path missing from [fs]. *)
Definition missingAsset (env : Env) (fs : FS) (a : option string) : Prop :=
  ∃ s, a = Some s ∧ Fs.existsSync fs (resolve (process_cwd env) s) = false.

(** The bundler of [env] writes the bundle file and resolves. *)
Definition bundlerWrites (env : Env) (b : string) : Prop :=
  ∀ (o : Esbuild.BuildOptions) (fs : FS),
    esbuild env o fs = (<[Esbuild.outfile o := File b]> fs, None).

(** The files after step 1 of a run on [fs] whose bundler writes [b]. *)
Definition bundled (env : Env) (fs : FS) (b : string) : FS :=
  <[bundleFileOf env := File b]> (<[tempDirOf env := Dir]> fs).

Module HelperSpec.
Import Helper.

Definition beside (dir : path) (filename : string) : path :=
  join (join dir "assets") filename.

Definition snapshotPath (filename : string) : path :=
  join (resolve [] "/snapshot/assets") filename.

(** The four locations in the order of the specification. *)
Definition listed (proc : Process) (filename : string) : list path :=
  [ beside (parent (execPath proc)) filename;
    beside (cwd proc) filename;
    snapshotPath filename;
    beside (dirname proc) filename ].

(** The locations the code tries: the snapshot only under pkg. *)
Definition tried (proc : Process) (filename : string) : list path :=
  [ beside (parent (execPath proc)) filename; beside (cwd proc) filename ]
  ++ (if pkg proc then [snapshotPath filename] else [])
  ++ [ beside (dirname proc) filename ].

(** First existing location wins; none: the error names the file. *)
Definition firstOf (candidates : list path) (filename : string) (fs : FS) : error + string :=
  match List.find (Fs.existsSync fs) candidates with
  | Some p => Fs.readFileSync fs p
  | None => inl (Error ("Asset file not found: " +:+ filename))
  end.

(** Whether the candidate [p] for [filename] exists for [fs.existsSync]:
    the candidate ends in a slash when [filename] does. *)
Definition present (fs : FS) (filename : string) (p : path) : bool :=
  Fs.existsSyncAs fs p (endsWithSlash filename).

(** The first candidate that is present is read. *)
Definition firstAs (candidates : list path) (filename : string) (fs : FS) : error + string :=
  match List.find (present fs filename) candidates with
  | Some p => Fs.readFileSyncAs fs p (endsWithSlash filename)
  | None => inl (Error ("Asset file not found: " +:+ filename))
  end.
End HelperSpec.

(** Outside pkg an asset that is only in the snapshot location is not
    found, though it is the first listed location that exists. *)
Definition devProcess : Helper.Process :=
  {| Helper.execPath := ["usr"; "bin"; "node"]; Helper.cwd := ["w"];
     Helper.pkg := false; Helper.dirname := ["w"; "dist"] |}.

Definition snapshotOnly : FS :=
  list_to_map [ ([], Dir); (["snapshot"], Dir); (["snapshot"; "assets"], Dir);
                (["snapshot"; "assets"; "a.txt"], File "data") ].

(** The files once the assets directory is there. *)
Definition withAssetsDir (env : Env) (fs : FS) : FS :=
  if fs !! tempAssetsDirOf env is None then <[tempAssetsDirOf env := Dir]> fs else fs.

(** What staging a directory [pd] and a file of base name [bn] leaves in
    the assets directory, whatever the order, the place of the file
    apart: the entries of [pd], and what was there before elsewhere. *)
Definition stagedFrom (env : Env) (fs : FS) (pd : path) (bn : string) (fs' : FS) : Prop :=
  let A := tempAssetsDirOf env in
  fs' !! A = Some Dir
  ∧ (∀ r e, r ≠ [] → r ≠ [bn] → fs !! (pd ++ r) = Some e → fs' !! (A ++ r) = Some e)
  ∧ (∀ r, r ≠ [] → r ≠ [bn] → fs !! (pd ++ r) = None → fs' !! (A ++ r) = fs !! (A ++ r)).

Definition allEntries (check : path → entry → bool) (fs : FS) : bool :=
  forallb (λ kv, check kv.1 kv.2) (map_to_list fs).

Definition wfCheck (fs : FS) : bool :=
  allEntries (λ k _, match k with
                     | [] => true
                     | _ => if fs !! parent k is Some Dir then true else false
                     end) fs.

Definition depthCheck (fs : FS) (src : path) (depth : nat) : bool :=
  allEntries (λ k _, if strip src k is Some r then bool_decide (length r < depth)
                     else true) fs.

Definition compatibleCheck (fs : FS) (src dst : path) : bool :=
  allEntries (λ k e,
    if strip src k is Some r
    then if fs !! (dst ++ r) is Some e' then bool_decide (isDirEntry e = isDirEntry e')
         else true
    else true) fs.

Definition exampleEnv : Env :=
  {| process_cwd := ["w"];
     process_platform := "linux";
     esbuild := λ o fs, (<[Esbuild.outfile o := File "B"]> fs, None);
     shell := λ _ fs, (fs, None) |}.

(** The same with a packager that fails. *)
Definition failingEnv : Env :=
  {| process_cwd := ["w"];
     process_platform := "linux";
     esbuild := λ o fs, (<[Esbuild.outfile o := File "B"]> fs, None);
     shell := λ _ fs, (fs, Some (Error "pkg failed")) |}.

Definition exampleFs : FS :=
  list_to_map
    [ ([], Dir); (["w"], Dir); (["w"; "main.ts"], File "main");
      (["w"; "config.json"], File "{}");
      (["w"; "images"], Dir); (["w"; "images"; "a.png"], File "png") ].

(** [exampleFs] once step 1 has run. *)
Definition bundledWorld : world :=
  {| files := bundled exampleEnv exampleFs "B"; trace := [] |}.

Definition exampleOptions : CompileOptions :=
  {| entryPoint := "main.ts"; outFile := Some "out"; target := None;
     platform := Some "all"; nodeVersion := Some "18";
     assets := Some (AssetList [Some "config.json"; Some "images"]) |}.

(** Observing an outcome. *)
Definition worldOf {A : Type} (o : outcome world A) : world :=
  match o with
  | Returns _ w | Throws _ w | Exits _ w => w
  | Diverges => {| files := ∅; trace := [] |}
  end.

Definition returned {A : Type} (o : outcome world A) : option A :=
  match o with Returns a _ => Some a | _ => None end.

Definition thrown {A : Type} (o : outcome world A) : option error :=
  match o with Throws e _ => Some e | _ => None end.

Definition ended {A : Type} (o : outcome world A) : bool :=
  match o with Diverges => false | _ => true end.

(** The first call of the packager in a trace. *)
Definition callOf (t : list event) : string * FS :=
  match execs t with
  | Exec command fs :: _ => (command, fs)
  | _ => ("", ∅)
  end.

Definition called (t : list event) : bool :=
  match execs t with [] => false | _ => true end.

Definition missingEntryOptions : CompileOptions :=
  {| entryPoint := "absent.ts"; outFile := Some "out"; target := None;
     platform := None; nodeVersion := None; assets := None |}.

(** [exampleOptions] without assets. *)
Definition plainOptions : CompileOptions :=
  {| entryPoint := "main.ts"; outFile := Some "out"; target := None;
     platform := Some "all"; nodeVersion := Some "18"; assets := None |}.

Definition withOutFile (options : CompileOptions) (out : string) : CompileOptions :=
  {| entryPoint := entryPoint options; outFile := Some out;
     target := target options; platform := platform options;
     nodeVersion := nodeVersion options; assets := assets options |}.

(** A file [sub] and a directory [images/] that holds a directory [sub/]. *)
Definition clashFs : FS :=
  list_to_map
    [ ([], Dir); (["w"], Dir); (["w"; "sub"], File "text");
      (["w"; "images"], Dir); (["w"; "images"; "sub"], Dir);
      (["w"; "images"; "sub"; "b.png"], File "png") ].

(** A directory [docs/] that holds a directory [README.md/]. *)
Definition readmeDirFs : FS :=
  list_to_map
    [ ([], Dir); (["w"], Dir); (["w"; "main.ts"], File "main");
      (["w"; "docs"], Dir); (["w"; "docs"; "README.md"], Dir);
      (["w"; "docs"; "README.md"; "x"], File "x") ].

(** ** Vocabulary of the further properties *)

(** The options that [compile] passes to the bundler. *)
Definition buildOptionsOf (env : Env) (nodeVersion : string) (entryPointPath : path) :
    Esbuild.BuildOptions :=
  {| Esbuild.entryPoints := [entryPointPath];
     Esbuild.bundle := true;
     Esbuild.platform := "node";
     Esbuild.target := ["node" +:+ nodeVersion];
     Esbuild.outfile := bundleFileOf env;
     Esbuild.minify := true;
     Esbuild.sourcemap := false |}.

(** The files on which the bundler runs: the temp directory is made when
    it is not there. *)
Definition withTempDir (env : Env) (fs : FS) : error + FS :=
  if Fs.existsSync fs (tempDirOf env) then inr fs else Fs.mkdirSync (tempDirOf env) fs.

(** A file name: one segment, not empty and not a dot name. *)
Definition plainName (n : string) : Prop :=
  segments n = [n] ∧ n ≠ "" ∧ n ≠ "." ∧ n ≠ "..".

(** The four options that take a value. *)
Inductive optionKind := OptOut | OptTarget | OptPlatform | OptAssets.

(** A command line cut into tokens: an option with the value that
    follows it, an entry point, or an argument that the loop skips. *)
Inductive token :=
  | TOption (o : optionKind) (short : bool) (v : string)
  | TEntry (s : string)
  | TSkipped (s : string).

Definition flagOf (o : optionKind) (short : bool) : string :=
  match o, short with
  | OptOut, false => "--out" | OptOut, true => "-o"
  | OptTarget, false => "--target" | OptTarget, true => "-t"
  | OptPlatform, false => "--platform" | OptPlatform, true => "-p"
  | OptAssets, false => "--assets" | OptAssets, true => "-a"
  end.

Definition isOptionFlag (s : string) : bool :=
  isFlag s "--out" "-o" || isFlag s "--target" "-t"
  || isFlag s "--platform" "-p" || isFlag s "--assets" "-a".

Definition tokenArgs (t : token) : list string :=
  match t with
  | TOption o short v => [flagOf o short; v]
  | TEntry s => [s]
  | TSkipped s => [s]
  end.

(** An entry point does not start with a dash; a skipped argument does
    and is none of the eight flags. *)
Definition tokenOk (t : token) : Prop :=
  match t with
  | TOption _ _ _ => True
  | TEntry s => startsWithDash s = false
  | TSkipped s => startsWithDash s = true ∧ isOptionFlag s = false
  end.

(** What the value [v] of an option does to the parsed options. *)
Definition setOption (o : optionKind) (v : option string) (acc : Parsed) : Parsed :=
  match o with
  | OptOut => {| p_entryPoint := p_entryPoint acc; p_outFile := v;
                 p_target := p_target acc; p_platform := p_platform acc;
                 p_assets := p_assets acc |}
  | OptTarget => {| p_entryPoint := p_entryPoint acc; p_outFile := p_outFile acc;
                    p_target := v; p_platform := p_platform acc;
                    p_assets := p_assets acc |}
  | OptPlatform => {| p_entryPoint := p_entryPoint acc; p_outFile := p_outFile acc;
                      p_target := p_target acc; p_platform := v;
                      p_assets := p_assets acc |}
  | OptAssets => {| p_entryPoint := p_entryPoint acc; p_outFile := p_outFile acc;
                    p_target := p_target acc; p_platform := p_platform acc;
                    p_assets := p_assets acc ++ [v] |}
  end.

Definition applyToken (acc : Parsed) (t : token) : Parsed :=
  match t with
  | TOption o _ v => setOption o (Some v) acc
  | TEntry s => {| p_entryPoint := s; p_outFile := p_outFile acc;
                   p_target := p_target acc; p_platform := p_platform acc;
                   p_assets := p_assets acc |}
  | TSkipped _ => acc
  end.

(** The values given with [--assets] or [-a], in order. *)
Definition assetValues (ts : list token) : list (option string) :=
  omap (λ t, match t with TOption OptAssets _ v => Some (Some v) | _ => None end) ts.

(** [exitsWith P m]: a run of [m] that ends in [process.exit(c)] has [P c]. *)
Definition exitsWith {S A : Type} (P : nat → Prop) (m : M S A) : Prop :=
  ∀ s c s', m s = Exits c s' → P c.

(** [m] never ends with an exception. *)
Definition neverThrows {S A : Type} (m : M S A) : Prop :=
  ∀ s e s', m s ≠ Throws e s'.

Definition isBuild (ev : event) : bool :=
  match ev with
  | Build _ _ => true
  | _ => false
  end.

(** The calls of the bundler in a trace. *)
Definition builds (t : list event) : list event := List.filter isBuild t.

(** A step that does not call the bundler. *)
Definition still (w w' : world) : Prop := builds (trace w') = builds (trace w).

(** Everything in [compile] after step 1. *)
Definition afterBundling (env : Env) (fuel : nat) (options : CompileOptions) : M world unit :=
  let! hasAssets := stageAssets env fuel (assetsArrayOf (default (AssetList []) (assets options))) in
  packageStep env fuel (default "16" (nodeVersion options))
    (default (defaultPlatform env) (platform options)) (outFile options) hasAssets.

Definition earlierAfterBundling (env : Env) (fuel : nat) (options : CompileOptions) :
    M world unit :=
  Earlier.stageAssets env fuel (assetsArrayOf (default (AssetList []) (assets options))) >>
  Earlier.packageStep env (default "16" (nodeVersion options))
    (default (defaultPlatform env) (platform options)) (outFile options)
    (assetsArrayOf (default (AssetList []) (assets options))).

(** Everything in the earlier [compile] before step 3. *)
Definition earlierBeforePackaging (env : Env) (fuel : nat) (options : CompileOptions) :
    M world unit :=
  let! entryPointPath := checkEntry env (entryPoint options) in
  bundleStep env (default "16" (nodeVersion options)) entryPointPath >>
  Earlier.stageAssets env fuel (assetsArrayOf (default (AssetList []) (assets options))).

(** Observing an outcome over any state. *)
Definition stateOf {S A : Type} (d : S) (o : outcome S A) : S :=
  match o with
  | Returns _ s | Throws _ s | Exits _ s => s
  | Diverges => d
  end.

Definition settled {S A : Type} (o : outcome S A) : bool :=
  match o with Diverges => false | _ => true end.

Definition rightOf {E A : Type} (d : A) (x : E + A) : A :=
  match x with inr a => a | inl _ => d end.

Definition isRight {E A : Type} (x : E + A) : bool :=
  match x with inr _ => true | inl _ => false end.

(** The same collaborators with a bundler that fails. *)
Definition brokenEnv : Env :=
  {| process_cwd := ["w"];
     process_platform := "linux";
     esbuild := λ _ fs, (fs, Some (Error "build failed"));
     shell := λ _ fs, (fs, None) |}.

(** Two directories that both hold [a.png]. *)
Definition iconsFs : FS :=
  list_to_map
    [ ([], Dir); (["w"], Dir);
      (["w"; "images"], Dir); (["w"; "images"; "a.png"], File "png");
      (["w"; "images"; "c.png"], File "c");
      (["w"; "icons"], Dir); (["w"; "icons"; "a.png"], File "ico");
      (["w"; "icons"; "b.png"], File "b") ].

(** Two files named [config.json]. *)
Definition configsFs : FS :=
  list_to_map
    [ ([], Dir); (["w"], Dir); (["w"; "main.ts"], File "main");
      (["w"; "a"], Dir); (["w"; "a"; "config.json"], File "first");
      (["w"; "b"], Dir); (["w"; "b"; "config.json"], File "second") ].

(** A staged file, before the copy beside the executable. *)
Definition stagedFs : FS :=
  list_to_map
    [ ([], Dir); (["w"], Dir); (["w"; ".ts-compiler-bin-temp"], Dir);
      (["w"; ".ts-compiler-bin-temp"; "bundle.js"], File "B");
      (["w"; ".ts-compiler-bin-temp"; "assets"], Dir);
      (["w"; ".ts-compiler-bin-temp"; "assets"; "config.json"], File "{}");
      (["w"; ".ts-compiler-bin-temp"; "assets"; "img"], Dir);
      (["w"; ".ts-compiler-bin-temp"; "assets"; "img"; "a.png"], File "png") ].

(** A directory where the helper looks for [a.txt] first. *)
Definition maskedFs : FS :=
  list_to_map
    [ ([], Dir); (["usr"], Dir); (["usr"; "bin"], Dir); (["usr"; "bin"; "assets"], Dir);
      (["usr"; "bin"; "assets"; "a.txt"], Dir);
      (["w"], Dir); (["w"; "assets"], Dir); (["w"; "assets"; "a.txt"], File "data") ].

(** The program built as [/w/out], run from another directory. *)
Definition shippedProcess : Helper.Process :=
  {| Helper.execPath := ["w"; "out"]; Helper.cwd := ["home"];
     Helper.pkg := true; Helper.dirname := ["snapshot"; "w"] |}.

Definition exampleTokens : list token :=
  [ TOption OptOut true "app"; TSkipped "--verbose"; TOption OptAssets true "img";
    TEntry "old.ts"; TOption OptAssets false "-x"; TEntry "main.ts";
    TOption OptTarget true "18" ].

(** ** The start of the staging loop and of a build *)

(** The world in which the staging loop starts: the first message is
    printed and the staging directory is there, created if it was not. *)
Definition loopStart (env : Env) (w : world) : world :=
  let A := tempAssetsDirOf env in
  {| files := if Fs.existsSync (files w) A then files w
              else rightOf (files w) (Fs.mkdirSync A (files w));
     trace := trace w ++ [Log [VStr "📂 Copying assets..."]] |}.

(** The staging loop over [assetsArray], started in [w0], comes to the
    listed path [s] in the world [w1]: the entries before it are done. *)
Definition examines (env : Env) (fuel : nat) (assetsArray : list (option string))
    (w0 : world) (s : string) (w1 : world) : Prop :=
  ∃ (before after : list (option string)) (h : bool),
    assetsArray = before ++ Some s :: after
    ∧ stageLoop env fuel (tempAssetsDirOf env) before false w0 = Returns h w1.

(** The entry point that a list of tokens leaves: the last entry point
    among them, and the empty string when there is none. *)
Definition entryOf (ts : list token) : string :=
  foldl (λ e t, if t is TEntry s then s else e) "" ts.

(** The world in which [main] calls [compile]: the files are untouched
    and the arguments have been printed. *)
Definition mainStart (env : Env) (argv : list string) (w : world) : world :=
  let args := drop 2 argv in
  let parsed := parseArgs args (initialParsed env) in
  {| files := files w;
     trace := trace w ++
       [ Log [VStr "Starting main function..."];
         Log [VStr "Arguments:"; VList (Some <$> args)];
         Log [VStr "Parsed arguments:"];
         Log [VStr "- entryPoint:"; VStr (p_entryPoint parsed)];
         Log [VStr "- outFile:"; VOpt (p_outFile parsed)];
         Log [VStr "- target:"; VOpt (p_target parsed)];
         Log [VStr "- platform:"; VOpt (p_platform parsed)];
         Log [VStr "- assets:"; VList (p_assets parsed)];
         Log [VStr "Absolute entry point:";
              VPath (resolve (process_cwd env) (p_entryPoint parsed))] ] |}.

(** ** Path strings *)

(** A string without a slash. *)
Fixpoint noSlash (s : string) : bool :=
  match s with
  | EmptyString => true
  | String c s' => negb (Ascii.eqb c "/"%char) && noSlash s'
  end.

(** What a segment of a normalised path is: not empty, not [.], without
    a slash, and not [..] when the path is absolute. *)
Definition normalised (allowAboveRoot : bool) (seg : string) : Prop :=
  seg ≠ "" ∧ seg ≠ "." ∧ noSlash seg = true ∧ (allowAboveRoot = false → seg ≠ "..").

(** ** Further examples *)

(** [exampleFs] with a file [a.png] beside the directory [images/] that
    holds a file of the same name. *)
Definition sameNameFs : FS := <[["w"; "a.png"] := File "top"]> exampleFs.

(** [exampleFs] with an empty directory [empty/]. *)
Definition emptyDirFs : FS := <[["w"; "empty"] := Dir]> exampleFs.

(** A file [sub] and a directory [images/] that holds an empty directory
    [sub/]. *)
Definition emptyClashFs : FS :=
  list_to_map
    [ ([], Dir); (["w"], Dir); (["w"; "sub"], File "text");
      (["w"; "images"], Dir); (["w"; "images"; "sub"], Dir) ].

(** [exampleFs] after bundling, with an assets directory left by an
    earlier run that holds a directory [config.json]. *)
Definition staleFs : FS :=
  <[tempAssetsDirOf exampleEnv ++ ["config.json"] := Dir]>
    (<[tempAssetsDirOf exampleEnv := Dir]> (bundled exampleEnv exampleFs "B")).

(** An [assets/] directory beside the output that already holds a
    directory [README.md]. *)
Definition readmeBesideFs : FS :=
  <[["w"; "assets"; "README.md"] := Dir]> (<[["w"; "assets"] := Dir]> exampleFs).

(** A project whose own [README.md] is listed as an asset. *)
Definition userReadmeFs : FS :=
  list_to_map
    [ ([], Dir); (["w"], Dir); (["w"; "main.ts"], File "main");
      (["w"; "README.md"], File "mine") ].

(** * Lemmas *)

(** ** Paths: prefixes *)

Lemma strip_Some (p k r : path) : strip p k = Some r ↔ k = p ++ r.
Proof.
  revert k. induction p as [|a p IH]; intros k; simpl.
  - split; [intros [= ->] | intros ->]; done.
  - destruct k as [|b k]; [split; [done | intros [=]] |].
    destruct (decide (a = b)) as [->|Hne].
    + rewrite IH. split; [intros -> | intros [= ->]]; done.
    + split; [done | intros [= ? ?]; done].
Qed.

Lemma strip_app (p r : path) : strip p (p ++ r) = Some r.
Proof. by apply strip_Some. Qed.

Lemma strip_refl (p : path) : strip p p = Some [].
Proof. apply strip_Some. by rewrite app_nil_r. Qed.

Lemma strip_None (p k : path) : strip p k = None ↔ ∀ r, k ≠ p ++ r.
Proof.
  split.
  - intros H r ->. by rewrite strip_app in H.
  - intros H. destruct (strip p k) as [r|] eqn:E; [|done].
    apply strip_Some in E. by destruct (H r).
Qed.

Lemma under_true (p k : path) : under p k = true ↔ ∃ r, k = p ++ r.
Proof.
  unfold under. destruct (strip p k) as [r|] eqn:E.
  - apply strip_Some in E. split; eauto.
  - split; [done |]. intros [r ->]. by rewrite strip_app in E.
Qed.

Lemma under_false (p k : path) : under p k = false ↔ ∀ r, k ≠ p ++ r.
Proof.
  rewrite <- strip_None. unfold under. destruct (strip p k); split; done.
Qed.

Lemma under_refl (p : path) : under p p = true.
Proof. apply under_true. exists []. by rewrite app_nil_r. Qed.

Lemma under_app (p r : path) : under p (p ++ r) = true.
Proof. apply under_true. eauto. Qed.

Lemma under_trans (p q k : path) : under p q = true → under q k = true → under p k = true.
Proof.
  rewrite !under_true. intros [r ->] [r' ->]. exists (r ++ r'). by rewrite app_assoc.
Qed.

(** Two prefixes of one path are comparable. *)
Lemma under_comparable (p q k : path) :
  under p k = true → under q k = true → under p q = true ∨ under q p = true.
Proof.
  rewrite !under_true. intros [r ->] [r' H].
  revert q H. induction p as [|a p IH]; intros q H.
  - left. simpl. eauto.
  - destruct q as [|b q]; [right; eauto |].
    simpl in H. injection H as -> H.
    destruct (IH q H) as [[s ->]|[s ->]]; [left | right]; exists s; done.
Qed.

Lemma under_snoc (p k : path) (n : string) :
  under (p ++ [n]) k = true ↔ ∃ r, k = p ++ n :: r.
Proof.
  rewrite under_true. split; intros [r ->]; exists r; by rewrite <- app_assoc.
Qed.

Lemma under_parent (p k : path) (n : string) :
  under (p ++ [n]) k = true → under p k = true.
Proof. intros H. eapply under_trans; [apply under_app | exact H]. Qed.

Lemma removelast_snoc (p : path) (n : string) : removelast (p ++ [n]) = p.
Proof. apply removelast_last. Qed.

Lemma last_snoc' (p : path) (n : string) : basename (p ++ [n]) = n.
Proof. unfold basename. apply last_last. Qed.

(** ** Reasoning about programs *)

Section Always.
Context {S : Type} (R : S → S → Prop).
Hypothesis R_refl : ∀ s, R s s.
Hypothesis R_trans : ∀ s1 s2 s3, R s1 s2 → R s2 s3 → R s1 s3.

Lemma always_ret {A} (a : A) : always R (ret a).
Proof using R_refl. intros s s' [= <-]. apply R_refl. Qed.

Lemma always_throw {A} (e : error) : always R (@throw S A e).
Proof using R_refl. intros s s' [= <-]. apply R_refl. Qed.

Lemma always_exit {A} (c : nat) : always R (@process_exit S A c).
Proof using R_refl. intros s s' [= <-]. apply R_refl. Qed.

Lemma always_diverge {A} : always R (@diverge S A).
Proof. intros s s' [=]. Qed.

Lemma always_bind {A B} (m : M S A) (k : A → M S B) :
  always R m → (∀ a, always R (k a)) → always R (bind m k).
Proof using R_trans.
  intros Hm Hk s s' H. unfold bind in H.
  specialize (Hm s). destruct (m s) as [a s1|e s1|c s1|]; simpl in *.
  - eapply R_trans; [by apply Hm | by eapply Hk].
  - injection H as <-. by apply Hm.
  - injection H as <-. by apply Hm.
  - done.
Qed.

Lemma always_when (c : bool) (m : M S unit) : always R m → always R (when c m).
Proof using R_refl. destruct c; [done | intros _; apply always_ret]. Qed.

Lemma always_forEach {A} (l : list A) (body : A → M S unit) :
  (∀ x, x ∈ l → always R (body x)) → always R (forEach l body).
Proof using R_refl R_trans.
  induction l as [|x l IH]; intros H; simpl.
  - apply always_ret.
  - apply always_bind; [apply H; left | intros _; apply IH].
    intros y Hy. apply H. by right.
Qed.

Lemma always_tryCatch {A} (body : M S A) (handler : error → M S A) :
  always R body → (∀ e, always R (handler e)) → always R (tryCatch body handler).
Proof using R_trans.
  intros Hb Hh s s' H. unfold tryCatch in H.
  specialize (Hb s). destruct (body s) as [a s1|e s1|c s1|]; simpl in *; try by apply Hb.
  eapply R_trans; [by apply Hb | by eapply Hh].
Qed.

Lemma always_tryFinally {A} (body : M S A) (cleanup : M S unit) :
  always R body → always R cleanup → always R (tryFinally body cleanup).
Proof using R_refl R_trans.
  intros Hb Hc s s' H. unfold tryFinally in H.
  specialize (Hb s). destruct (body s) as [a s1|e s1|c s1|]; simpl in *; try by apply Hb.
  - eapply R_trans; [by apply Hb |].
    eapply (always_bind cleanup (λ _, ret a)); [done | intros; apply always_ret | done].
  - eapply R_trans; [by apply Hb |].
    eapply (always_bind cleanup (λ _, throw e)); [done | intros; apply always_throw | done].
Qed.
End Always.

(** Steps over the files seen from the world. *)
Lemma always_onFiles {A : Type} (R : FS → FS → Prop) (m : M FS A) :
  always R m → always (λ w w', R (files w) (files w') ∧ trace w' = trace w) (onFiles m).
Proof.
  intros Hm w w' H. unfold onFiles in H. specialize (Hm (files w)).
  destruct (m (files w)) as [a s1|e s1|c s1|]; simpl in *; try done;
    injection H as <-; simpl; split; auto.
Qed.

Lemma always_fsRead {A : Type} (R : FS → FS → Prop) (f : FS → A) :
  (∀ fs, R fs fs) → always R (fsRead f).
Proof. intros HR s s' [= <-]. apply HR. Qed.

Lemma always_fsTry {A : Type} (R : FS → FS → Prop) (f : FS → error + A) :
  (∀ fs, R fs fs) → always R (fsTry f).
Proof. intros HR s s' H. unfold fsTry in H. destruct (f s); injection H as <-; apply HR. Qed.

Lemma always_fsUpdate (R : FS → FS → Prop) (f : FS → error + FS) :
  (∀ fs, R fs fs) → (∀ fs fs', f fs = inr fs' → R fs fs') → always R (fsUpdate f).
Proof.
  intros HR Hf s s' H. unfold fsUpdate in H.
  destruct (f s) eqn:E; injection H as <-; [apply HR | by apply Hf].
Qed.

(** ** The file-system calls *)

Lemma writeFileSync_inr (p : path) (data : string) (fs fs' : FS) :
  Fs.writeFileSync p data fs = inr fs' →
  fs' = <[p := File data]> fs ∧ fs !! p ≠ Some Dir ∧ fs !! parent p = Some Dir ∧ p ≠ [].
Proof.
  unfold Fs.writeFileSync. intros H.
  assert (fs !! p ≠ Some Dir) by (intros E; by rewrite E in H).
  assert (match p with
          | [] => inl (SystemError "EISDIR" p)
          | _ => match fs !! parent p with
                 | Some Dir => inr (<[p := File data]> fs)
                 | Some (File _) => inl (SystemError "ENOTDIR" p)
                 | None => inl (SystemError "ENOENT" p)
                 end
          end = inr fs') as H'.
  { destruct (fs !! p) as [[]|]; done. }
  destruct p as [|a p]; [done |].
  destruct (fs !! parent (a :: p)) as [[]|]; try done.
  by injection H' as <-.
Qed.

Lemma writeFileSync_ok (p : path) (data : string) (fs : FS) :
  fs !! p ≠ Some Dir → fs !! parent p = Some Dir → p ≠ [] →
  Fs.writeFileSync p data fs = inr (<[p := File data]> fs).
Proof.
  intros H1 H2 H3. unfold Fs.writeFileSync. rewrite H2.
  destruct p; [done |]. destruct (fs !! (s :: p)) as [[]|]; done.
Qed.

Lemma copyFileSync_inr (src dst : path) (fs fs' : FS) :
  Fs.copyFileSync src dst fs = inr fs' →
  ∃ data, fs !! src = Some (File data) ∧ fs' = <[dst := File data]> fs
          ∧ fs !! dst ≠ Some Dir ∧ fs !! parent dst = Some Dir ∧ dst ≠ [].
Proof.
  unfold Fs.copyFileSync. destruct (fs !! src) as [[data|]|]; try done.
  intros H. exists data. split; [done |]. by apply writeFileSync_inr.
Qed.

Lemma copyFileSync_ok (src dst : path) (data : string) (fs : FS) :
  fs !! src = Some (File data) →
  fs !! dst ≠ Some Dir → fs !! parent dst = Some Dir → dst ≠ [] →
  Fs.copyFileSync src dst fs = inr (<[dst := File data]> fs).
Proof. intros H. unfold Fs.copyFileSync. rewrite H. apply writeFileSync_ok. Qed.

(** [mkdirSync] adds directories at the missing prefixes of its target
    and changes nothing else. *)
Lemma mkdirFrom_inr (rest : list string) : ∀ (base : path) (fs fs' : FS),
  Fs.mkdirFrom base rest fs = inr fs' →
  ∀ k, fs' !! k = match fs !! k with
                  | Some e => Some e
                  | None => if under base k && under k (base ++ rest) then Some Dir else None
                  end.
Proof.
  induction rest as [|n rest IH]; intros base fs fs' H k; simpl in H.
  - rewrite app_nil_r.
    assert (fs' = if fs !! base is None then <[base := Dir]> fs else fs) as ->.
    { destruct (fs !! base) as [[]|]; congruence. }
    destruct (decide (k = base)) as [->|Hne].
    + rewrite under_refl. simpl. destruct (fs !! base) as [e|] eqn:E; [by rewrite E |].
      by rewrite lookup_insert_eq.
    + assert (under base k && under k base = false) as ->.
      { apply andb_false_iff. destruct (under base k) eqn:E1; [right | by left].
        destruct (under k base) eqn:E2; [|done].
        apply under_true in E1 as [r1 ->]. apply under_true in E2 as [r2 E2].
        rewrite <- app_assoc in E2. rewrite <- (app_nil_r base) in E2 at 1.
        apply app_inv_head in E2. symmetry in E2. apply app_eq_nil in E2 as [-> _].
        by rewrite app_nil_r in Hne. }
      destruct (fs !! base) as [e|] eqn:E; [by destruct (fs !! k) |].
      rewrite lookup_insert_ne by done. by destruct (fs !! k).
  - set (fs1 := if fs !! base is None then <[base := Dir]> fs else fs) in *.
    assert (Fs.mkdirFrom (base ++ [n]) rest fs1 = inr fs') as H1.
    { destruct (fs !! base) as [[]|]; done. }
    apply IH with (k := k) in H1. rewrite H1. rewrite <- app_assoc. simpl.
    destruct (decide (k = base)) as [->|Hne].
    + assert (fs1 !! base = Some (default Dir (fs !! base))) as ->.
      { subst fs1. destruct (fs !! base) as [e|] eqn:E; [by rewrite E | by rewrite lookup_insert_eq]. }
      rewrite under_refl, under_app. simpl. by destruct (fs !! base) as [[]|] eqn:E.
    + assert (fs1 !! k = fs !! k) as ->.
      { subst fs1. destruct (fs !! base); [done |]. by rewrite lookup_insert_ne. }
      destruct (fs !! k); [done |].
      destruct (under k (base ++ n :: rest)) eqn:E2; [|by rewrite !andb_false_r].
      rewrite !andb_true_r.
      destruct (under (base ++ [n]) k) eqn:E1.
      * by rewrite (under_parent _ _ _ E1).
      * destruct (under base k) eqn:E3; [|done].
        apply under_true in E3 as [r ->]. destruct r as [|m r]; [by rewrite app_nil_r in Hne |].
        apply under_true in E2 as [r' E2]. rewrite <- app_assoc in E2.
        apply app_inv_head in E2. injection E2 as -> _.
        rewrite (proj2 (under_snoc base _ m)) in E1; [done | eauto].
  Qed.

Lemma strip_snoc (p k : path) (n : string) :
  strip (p ++ [n]) k =
  match strip p k with
  | Some (m :: r) => if decide (n = m) then Some r else None
  | _ => None
  end.
Proof.
  destruct (strip p k) as [[|m r]|] eqn:E.
  - apply strip_Some in E as ->. rewrite app_nil_r.
    apply strip_None. intros r H. apply (f_equal length) in H.
    rewrite !length_app in H. simpl in H. lia.
  - apply strip_Some in E as ->. destruct (decide (n = m)) as [->|Hne].
    + apply strip_Some. by rewrite <- app_assoc.
    + apply strip_None. intros r' H. rewrite <- app_assoc in H.
      apply app_inv_head in H. by injection H as -> _.
  - apply strip_None. intros r ->. rewrite <- app_assoc in E. by rewrite strip_app in E.
Qed.

(** ** Well-formed file systems *)

Lemma parent_snoc (p : path) (n : string) : parent (p ++ [n]) = p.
Proof. apply removelast_last. Qed.

Lemma parent_ne (p : path) : p ≠ [] → parent p ≠ p.
Proof.
  intros Hp H. apply (f_equal length) in H. unfold parent in H.
  destruct (exists_last Hp) as (q & n & ->).
  rewrite removelast_last, length_app in H. simpl in H. lia.
Qed.

Lemma snoc_parent (p : path) : p ≠ [] → p = parent p ++ [basename p].
Proof. intros Hp. unfold parent, basename. by apply app_removelast_last. Qed.

(** Below an existing entry every prefix is a directory. *)
Lemma wf_prefix (fs : FS) (p r : path) (e : entry) :
  wf fs → fs !! (p ++ r) = Some e → r ≠ [] → fs !! p = Some Dir.
Proof.
  intros Hwf. revert e. induction r as [|n r IH] using rev_ind; intros e H Hr; [done |].
  rewrite app_assoc in H.
  assert (fs !! parent ((p ++ r) ++ [n]) = Some Dir) as H'.
  { eapply Hwf; [exact H | by destruct (p ++ r)]. }
  rewrite parent_snoc in H'. destruct r as [|m r'] using rev_ind.
  - by rewrite app_nil_r in H'.
  - eapply IH; [exact H' | by destruct r'].
Qed.

Lemma wf_under (fs : FS) (p k : path) (e : entry) :
  wf fs → fs !! k = Some e → under p k = true → p ≠ k → fs !! p = Some Dir.
Proof.
  intros Hwf H Hu Hne. apply under_true in Hu as [r ->].
  eapply wf_prefix; [done | exact H |]. intros ->. by rewrite app_nil_r in Hne.
Qed.

(** Nothing lies below a regular file or a missing entry. *)
Lemma wf_below (fs : FS) (p r : path) :
  wf fs → fs !! p ≠ Some Dir → r ≠ [] → fs !! (p ++ r) = None.
Proof.
  intros Hwf Hp Hr. destruct (fs !! (p ++ r)) as [e|] eqn:E; [|done].
  destruct Hp. by eapply wf_prefix.
Qed.

Lemma wf_insert (fs : FS) (p : path) (v : entry) :
  wf fs → (p ≠ [] → fs !! parent p = Some Dir) →
  v = Dir ∨ fs !! p ≠ Some Dir →
  wf (<[p := v]> fs).
Proof.
  intros Hwf Hpar Hv k e H Hk.
  destruct (decide (k = p)) as [->|Hne].
  - rewrite lookup_insert_ne by (by apply not_eq_sym, parent_ne). auto.
  - rewrite lookup_insert_ne in H by done.
    assert (fs !! parent k = Some Dir) as H' by (by eapply Hwf).
    destruct (decide (parent k = p)) as [<-|Hne'].
    + rewrite lookup_insert_eq. by destruct Hv as [->|Hv].
    + by rewrite lookup_insert_ne.
Qed.

Lemma mkdirFrom_inr_dirs (rest : list string) : ∀ (base : path) (fs fs' : FS),
  Fs.mkdirFrom base rest fs = inr fs' →
  ∀ k, under base k = true → under k (base ++ rest) = true → fs' !! k = Some Dir.
Proof.
  induction rest as [|n rest IH]; intros base fs fs' H k H1 H2; simpl in H.
  - rewrite app_nil_r in H2.
    assert (k = base) as ->.
    { apply under_true in H1 as [r1 ->]. apply under_true in H2 as [r2 E2].
      rewrite <- app_assoc in E2. rewrite <- (app_nil_r base) in E2 at 1.
      apply app_inv_head in E2. symmetry in E2. apply app_eq_nil in E2 as [-> _].
      by rewrite app_nil_r. }
    destruct (fs !! base) as [[]|] eqn:E; try done; injection H as <-; [done |].
    by rewrite lookup_insert_eq.
  - set (fs1 := if fs !! base is None then <[base := Dir]> fs else fs) in *.
    assert (Fs.mkdirFrom (base ++ [n]) rest fs1 = inr fs' ∧ fs1 !! base = Some Dir) as [H3 H4].
    { subst fs1. destruct (fs !! base) as [[]|] eqn:E; try done.
      split; [done | by rewrite lookup_insert_eq]. }
    destruct (decide (k = base)) as [->|Hne].
    + rewrite (mkdirFrom_inr _ _ _ _ H3). by rewrite H4.
    + eapply IH; [exact H3 | | by rewrite <- app_assoc].
      apply under_true in H1 as [r ->]. destruct r as [|m r]; [by rewrite app_nil_r in Hne |].
      apply under_true in H2 as [r' E2]. rewrite <- !app_assoc in E2.
      apply app_inv_head in E2. injection E2 as -> _.
      apply under_snoc. eauto.
Qed.

Lemma mkdirSync_wf (p : path) (fs fs' : FS) :
  wf fs → Fs.mkdirSync p fs = inr fs' → wf fs'.
Proof.
  intros Hwf H k e Hk Hne. unfold Fs.mkdirSync in H.
  pose proof (mkdirFrom_inr _ _ _ _ H) as Hspec.
  pose proof (mkdirFrom_inr_dirs _ _ _ _ H) as Hdirs. simpl in *.
  rewrite Hspec in Hk. destruct (fs !! k) as [e'|] eqn:E.
  - rewrite Hspec. by rewrite (Hwf _ _ E Hne).
  - destruct (under k p) eqn:Hu; [|done]. apply Hdirs; [done |].
    eapply under_trans; [|exact Hu].
    rewrite (snoc_parent k Hne) at 2. apply under_app.
Qed.

(** In a well-formed file system, below an existing directory,
    [mkdirSync] creates exactly the directory asked for. *)
Lemma mkdirSync_ok (p : path) (fs : FS) :
  wf fs → p ≠ [] → fs !! parent p = Some Dir → fs !! p = None →
  Fs.mkdirSync p fs = inr (<[p := Dir]> fs).
Proof.
  intros Hwf Hp Hpar Hnone. unfold Fs.mkdirSync.
  assert (∀ rest base, base ++ rest = p →
            Fs.mkdirFrom base rest fs = inr (<[p := Dir]> fs)) as Hgen; [|by apply Hgen].
  induction rest as [|n rest IH]; intros base Hb; simpl.
  - rewrite app_nil_r in Hb. subst base. by rewrite Hnone.
  - assert (fs !! base = Some Dir) as ->.
    { destruct (decide (parent p = base)) as [<-|Hne]; [done |].
      eapply (wf_under fs base (parent p)); [done | exact Hpar | | done].
      apply under_true. rewrite <- Hb.
      destruct (exists_last (l := n :: rest)) as (r' & m & Hr'); [done |].
      rewrite Hr', app_assoc, parent_snoc. eauto. }
    apply IH. by rewrite <- app_assoc.
Qed.

(** ** Reading a directory *)

Lemma readdirSync_inr (fs : FS) (p : path) (ents : list Fs.Dirent) :
  Fs.readdirSync fs p = inr ents →
  fs !! p = Some Dir ∧
  ∀ d, d ∈ ents ↔ ∃ e, fs !! (p ++ [Fs.name d]) = Some e ∧ Fs.isDir d = isDirEntry e.
Proof.
  unfold Fs.readdirSync. destruct (fs !! p) as [[]|] eqn:E; try done.
  intros [= <-]. split; [done |]. intros d. rewrite list_elem_of_omap. split.
  - intros [[k e] [Hin Hd]]. apply elem_of_map_to_list in Hin.
    unfold Fs.dirent_of in Hd. simpl in Hd.
    destruct (strip p k) as [[|n [|]]|] eqn:Es; try done.
    injection Hd as <-. apply strip_Some in Es as ->. simpl. eauto.
  - intros [e [He Hd]]. exists (p ++ [Fs.name d], e). split.
    + by apply elem_of_map_to_list.
    + unfold Fs.dirent_of. simpl. rewrite strip_app. destruct d. simpl in *. by subst.
Qed.

Lemma readdirSync_ok (fs : FS) (p : path) :
  fs !! p = Some Dir → ∃ ents, Fs.readdirSync fs p = inr ents.
Proof. intros H. unfold Fs.readdirSync. rewrite H. eauto. Qed.

(** ** What a directory copy leaves alone *)

Lemma touches_refl (dst : path) (fs : FS) : touches dst fs fs.
Proof. by intros k _ _. Qed.

Lemma touches_trans (dst : path) (fs1 fs2 fs3 : FS) :
  touches dst fs1 fs2 → touches dst fs2 fs3 → touches dst fs1 fs3.
Proof.
  intros H12 H23 k Hk Hor. rewrite <- (H12 k Hk Hor). apply H23; [done |].
  destruct Hor as [Hs|Hu]; [left | by right]. by rewrite (H12 k Hk (or_introl Hs)).
Qed.

Lemma touches_snoc (dst : path) (n : string) (fs fs' : FS) :
  touches (dst ++ [n]) fs fs' → touches dst fs fs'.
Proof.
  intros H k Hk Hor. apply H.
  - destruct (under (dst ++ [n]) k) eqn:E; [|done].
    by rewrite (under_parent _ _ _ E) in Hk.
  - destruct Hor as [Hs|Hu]; [by left | right].
    destruct (under k (dst ++ [n])) eqn:E; [|done].
    apply under_true in E as [r E]. destruct r as [|m r] using rev_ind.
    + rewrite app_nil_r in E. subst k. by rewrite under_app in Hk.
    + rewrite app_assoc in E. apply app_inj_tail in E as [-> _].
      by rewrite under_app in Hu.
Qed.

Lemma keeps_refl (fs : FS) : keeps fs fs.
Proof. intros k e H. eauto. Qed.

Lemma keeps_trans (fs1 fs2 fs3 : FS) : keeps fs1 fs2 → keeps fs2 fs3 → keeps fs1 fs3.
Proof.
  intros H12 H23 k e H. destruct (H12 k e H) as (e' & H' & Hk').
  destruct (H23 k e' H') as (e'' & H'' & Hk''). exists e''. split; [done | congruence].
Qed.

Lemma mkdirSync_touches (p : path) (fs fs' : FS) :
  Fs.mkdirSync p fs = inr fs' → touches p fs fs' ∧ keeps fs fs'.
Proof.
  intros H. pose proof (mkdirFrom_inr _ _ _ _ H) as Hspec. simpl in Hspec. split.
  - intros k Hk Hor. rewrite Hspec. destruct (fs !! k) as [e|] eqn:E; [done |].
    destruct Hor as [[? ?]| ->]; done.
  - intros k e Hk. rewrite Hspec, Hk. eauto.
Qed.

Lemma copyFileSync_touches (src dst : path) (fs fs' : FS) :
  Fs.copyFileSync src dst fs = inr fs' → touches dst fs fs' ∧ keeps fs fs'.
Proof.
  intros H. apply copyFileSync_inr in H as (data & Hsrc & -> & Hdst & _). split.
  - intros k Hk _. rewrite lookup_insert_ne; [done |]. intros <-. by rewrite under_refl in Hk.
  - intros k e Hk. destruct (decide (k = dst)) as [->|Hne].
    + rewrite lookup_insert_eq. exists (File data). split; [done |].
      destruct e; [done | by rewrite Hk in Hdst].
    + rewrite lookup_insert_ne by done. eauto.
Qed.

Lemma preserves_refl (dst : path) (fs : FS) : preserves dst fs fs.
Proof. split; [apply touches_refl | split; [apply keeps_refl | done]]. Qed.

Lemma preserves_trans (dst : path) (fs1 fs2 fs3 : FS) :
  preserves dst fs1 fs2 → preserves dst fs2 fs3 → preserves dst fs1 fs3.
Proof.
  intros (T1 & K1 & W1) (T2 & K2 & W2).
  split; [by eapply touches_trans | split; [by eapply keeps_trans | auto]].
Qed.

Lemma preserves_snoc (dst : path) (n : string) (fs fs' : FS) :
  preserves (dst ++ [n]) fs fs' → preserves dst fs fs'.
Proof. intros (T & K & W). split; [by eapply touches_snoc | done]. Qed.

Lemma mkdirSync_preserves (p : path) (fs fs' : FS) :
  Fs.mkdirSync p fs = inr fs' → preserves p fs fs'.
Proof.
  intros H. destruct (mkdirSync_touches _ _ _ H) as [T K].
  split; [done | split; [done |]]. intros Hwf. by eapply mkdirSync_wf.
Qed.

Lemma copyFileSync_preserves (src dst : path) (fs fs' : FS) :
  Fs.copyFileSync src dst fs = inr fs' → preserves dst fs fs'.
Proof.
  intros H. destruct (copyFileSync_touches _ _ _ _ H) as [T K].
  split; [done | split; [done |]]. intros Hwf.
  apply copyFileSync_inr in H as (data & Hsrc & -> & Hdst & Hpar & Hne).
  apply wf_insert; auto.
Qed.

Lemma copyBody_preserves (recurse : path → path → M FS unit) :
  (∀ s t, always (preserves t) (recurse s t)) →
  ∀ source target, always (preserves target) (copyBody recurse source target).
Proof.
  intros Hrec source target. unfold copyBody.
  pose proof (preserves_refl target) as Hr. pose proof (preserves_trans target) as Ht.
  apply always_bind; [done | by apply always_fsRead |]. intros present.
  apply always_bind; [done | |].
  { apply always_when; [done |]. apply always_fsUpdate; [done |].
    intros fs fs'. apply mkdirSync_preserves. }
  intros _. apply always_bind; [done | by apply always_fsTry |]. intros ents.
  apply always_forEach; [done | done |]. intros d _. unfold copyEntry.
  destruct (Fs.isDir d).
  - intros fs fs' H. eapply preserves_snoc. by eapply Hrec.
  - apply always_fsUpdate; [done |]. intros fs fs' H.
    eapply preserves_snoc. by eapply copyFileSync_preserves.
Qed.

Lemma copyDirectoryRecursive_preserves (fuel : nat) :
  ∀ source target, always (preserves target) (copyDirectoryRecursive fuel source target).
Proof.
  induction fuel as [|fuel IH]; intros source target; simpl.
  - apply always_diverge.
  - by apply copyBody_preserves.
Qed.

Lemma copyDirectoryContents_preserves (fuel : nat) (source target : path) :
  always (preserves target) (copyDirectoryContents fuel source target).
Proof. apply copyBody_preserves. apply copyDirectoryRecursive_preserves. Qed.

(** ** What a directory copy produces *)

Lemma unrelated_snoc (src dst : path) (n : string) :
  unrelated src dst → unrelated (src ++ [n]) (dst ++ [n]).
Proof.
  intros [H1 H2]. split.
  - destruct (under (src ++ [n]) (dst ++ [n])) eqn:E; [|done].
    apply under_true in E as [r E]. destruct r as [|m r] using rev_ind.
    + rewrite app_nil_r in E. apply app_inj_tail in E as [-> _]. by rewrite under_refl in H1.
    + rewrite !app_assoc in E. apply app_inj_tail in E as [-> _].
      rewrite <- app_assoc in H1. by rewrite under_app in H1.
  - destruct (under (dst ++ [n]) (src ++ [n])) eqn:E; [|done].
    apply under_true in E as [r E]. destruct r as [|m r] using rev_ind.
    + rewrite app_nil_r in E. apply app_inj_tail in E as [-> _]. by rewrite under_refl in H1.
    + rewrite !app_assoc in E. apply app_inj_tail in E as [-> _].
      rewrite <- app_assoc in H2. by rewrite under_app in H2.
Qed.

(** The source tree is outside the target tree. *)
Lemma unrelated_source (src dst r : path) :
  unrelated src dst → strip dst (src ++ r) = None.
Proof.
  intros [H1 H2]. destruct (strip dst (src ++ r)) as [r'|] eqn:E; [|done].
  destruct (under_comparable src dst (src ++ r)) as [H|H].
  - apply under_app.
  - unfold under. by rewrite E.
  - by rewrite H in H1.
  - by rewrite H in H2.
Qed.

Lemma grafted_source (fs : FS) (src dst r : path) :
  unrelated src dst → grafted fs src dst (src ++ r) = fs !! (src ++ r).
Proof. intros H. unfold grafted. by rewrite unrelated_source. Qed.

Lemma grafted_target (fs : FS) (src dst r : path) :
  grafted fs src dst (dst ++ r) =
  match fs !! (src ++ r) with Some e => Some e | None => fs !! (dst ++ r) end.
Proof. unfold grafted. by rewrite strip_app. Qed.

(** One entry of the loop: afterwards the sub-tree of that entry is laid
    over the target. *)
Lemma copyEntry_ok (recurse : path → path → M FS unit) (depth : nat)
    (src dst : path) (d : Fs.Dirent) (fs : FS) (e : entry) :
  copies recurse depth →
  wf fs → unrelated src dst → fs !! dst = Some Dir →
  compatible fs src dst →
  (∀ r, is_Some (fs !! (src ++ r)) → length r < S depth) →
  fs !! (src ++ [Fs.name d]) = Some e → Fs.isDir d = isDirEntry e →
  ∃ fs', copyEntry recurse src dst d fs = Returns tt fs' ∧ wf fs' ∧
         ∀ k, fs' !! k = grafted fs (src ++ [Fs.name d]) (dst ++ [Fs.name d]) k.
Proof.
  intros Hrec Hwf Hun Hdst Hcompat Hdepth He Hd.
  unfold copyEntry. rewrite Hd. set (n := Fs.name d) in *.
  assert (dst ++ [n] ≠ []) as Hne by (by destruct dst).
  destruct e as [data|]; simpl.
  - (* a regular file *)
    assert (fs !! (dst ++ [n]) ≠ Some Dir) as Hnd.
    { intros Ht. by specialize (Hcompat [n] _ _ He Ht). }
    unfold fsUpdate. rewrite (copyFileSync_ok _ _ data) by (by rewrite ?parent_snoc).
    eexists. split; [done |]. split.
    { apply wf_insert; [done | by rewrite parent_snoc | by right]. }
    intros k. unfold grafted. destruct (strip (dst ++ [n]) k) as [r|] eqn:E.
    + apply strip_Some in E as ->. destruct r as [|m r].
      * rewrite !app_nil_r, He. by rewrite lookup_insert_eq.
      * rewrite (wf_below fs (src ++ [n]) (m :: r)) by (done || by rewrite He).
        apply lookup_insert_ne. intros H. apply (f_equal length) in H.
        rewrite !length_app in H. simpl in H. lia.
    + apply lookup_insert_ne. intros <-. by rewrite strip_refl in E.
  - (* a directory *)
    apply Hrec; [done | by apply unrelated_snoc | done | done | by rewrite parent_snoc | | ].
    + intros r e1 e2 H1 H2. rewrite <- app_assoc in H1, H2. eapply Hcompat; eauto.
    + intros r Hr. rewrite <- app_assoc in Hr. apply Hdepth in Hr. simpl in Hr. lia.
Qed.

(** After one entry the hypotheses of the loop still hold. *)
Lemma grafted_entry_source (fs fs' : FS) (src dst r : path) (n : string) :
  unrelated src dst →
  (∀ k, fs' !! k = grafted fs (src ++ [n]) (dst ++ [n]) k) →
  fs' !! (src ++ r) = fs !! (src ++ r).
Proof.
  intros Hun H. rewrite H. unfold grafted.
  rewrite strip_snoc, unrelated_source; done.
Qed.

Lemma copyLoop_ok (recurse : path → path → M FS unit) (depth : nat) (src dst : path) :
  copies recurse depth → unrelated src dst →
  ∀ (ents : list Fs.Dirent) (fs : FS),
    wf fs → fs !! dst = Some Dir →
    compatible fs src dst →
    (∀ r, is_Some (fs !! (src ++ r)) → length r < S depth) →
    (∀ d, d ∈ ents → ∃ e, fs !! (src ++ [Fs.name d]) = Some e ∧ Fs.isDir d = isDirEntry e) →
    ∃ fs', forEach ents (copyEntry recurse src dst) fs = Returns tt fs' ∧ wf fs' ∧
           ∀ k, fs' !! k = graftedNames (Fs.name <$> ents) fs src dst k.
Proof.
  intros Hrec Hun. induction ents as [|d ents IH]; intros fs Hwf Hdst Hcompat Hdepth Hents.
  - exists fs. split; [done |]. split; [done |]. intros k. unfold graftedNames.
    by destruct (strip dst k) as [[|n r]|].
  - destruct (Hents d) as (e & He & Hd); [by left |].
    destruct (copyEntry_ok recurse depth src dst d fs e) as (fs1 & Hrun & Hwf1 & Hfs1); try done.
    set (n := Fs.name d) in *.
    assert (∀ r, fs1 !! (src ++ r) = fs !! (src ++ r)) as Hsrc.
    { intros r. by eapply grafted_entry_source. }
    destruct (IH fs1) as (fs2 & Hrun2 & Hwf2 & Hfs2); try done.
    + rewrite Hfs1. unfold grafted. by rewrite strip_snoc, strip_refl.
    + intros r e1 e2. rewrite Hsrc, Hfs1. unfold grafted.
      rewrite strip_snoc, strip_app. intros H1.
      destruct r as [|m r]; [by apply Hcompat |].
      destruct (decide (n = m)) as [<-|Hne]; [|by apply Hcompat].
      rewrite <- app_assoc. simpl. rewrite H1. by intros [= <-].
    + intros r. rewrite Hsrc. apply Hdepth.
    + intros d' Hd'. rewrite Hsrc. apply Hents. by right.
    + exists fs2. split; [simpl; unfold bind; by rewrite Hrun |]. split; [done |].
      intros k. rewrite Hfs2. unfold graftedNames. simpl.
      destruct (strip dst k) as [[|m r]|] eqn:E.
      * rewrite Hfs1. unfold grafted. by rewrite strip_snoc, E.
      * apply strip_Some in E as Hk. subst k.
        assert (fs1 !! (dst ++ m :: r) =
                if decide (n = m) then grafted fs src dst (dst ++ m :: r)
                else fs !! (dst ++ m :: r)) as Hone.
        { rewrite Hfs1. unfold grafted. rewrite strip_snoc, !strip_app.
          destruct (decide (n = m)) as [<-|]; [|done]. by rewrite <- app_assoc. }
        assert (grafted fs1 src dst (dst ++ m :: r) =
                match fs !! (src ++ m :: r) with
                | Some e => Some e
                | None => fs1 !! (dst ++ m :: r)
                end) as Hall.
        { by rewrite grafted_target, Hsrc. }
        destruct (decide (m ∈ Fs.name <$> ents)) as [Hin|Hnin].
        -- rewrite decide_True by (by right). rewrite Hall, Hone, !grafted_target.
           destruct (fs !! (src ++ m :: r)); [done |]. by destruct (decide (n = m)).
        -- rewrite Hone. destruct (decide (n = m)) as [<-|Hne].
           ++ by rewrite decide_True by (by left).
           ++ rewrite decide_False; [done |]. intros [->|?]%elem_of_cons; done.
      * rewrite Hfs1. unfold grafted. by rewrite strip_snoc, E.
Qed.

Lemma copyBody_ok (recurse : path → path → M FS unit) (depth : nat) :
  copies recurse depth → copies (copyBody recurse) (S depth).
Proof.
  intros Hrec src dst fs Hwf Hun Hsrc Hne Hpar Hcompat Hdepth.
  unfold copyBody, bind, fsRead, when, Fs.existsSync.
  (* the state after the directory is made sure to exist *)
  set (fs1 := if fs !! dst is None then <[dst := Dir]> fs else fs).
  assert (fs !! dst = None ∨ fs !! dst = Some Dir) as Hdst.
  { destruct (fs !! dst) as [e|] eqn:E; [right | by left].
    specialize (Hcompat [] Dir e). rewrite !app_nil_r in Hcompat.
    specialize (Hcompat Hsrc E). by destruct e. }
  assert (wf fs1 ∧ fs1 !! dst = Some Dir ∧ ∀ k, k ≠ dst → fs1 !! k = fs !! k) as (Hwf1 & Hdst1 & Hfs1).
  { subst fs1. destruct Hdst as [E|E]; rewrite E; [|done].
    split; [apply wf_insert; auto |]. split; [by rewrite lookup_insert_eq |].
    intros k Hk. by rewrite lookup_insert_ne. }
  assert (∀ r, fs1 !! (src ++ r) = fs !! (src ++ r)) as Hsrc1.
  { intros r. apply Hfs1. intros E. destruct Hun as [Hu _].
    by rewrite <- E, under_app in Hu. }
  assert (match fs !! dst with
          | Some _ => ret tt fs
          | None => fsUpdate (Fs.mkdirSync dst) fs
          end = Returns tt fs1) as Hmk.
  { subst fs1. destruct Hdst as [E|E]; rewrite E; [|done].
    unfold fsUpdate. by rewrite mkdirSync_ok. }
  assert ((if negb match fs !! dst with Some _ => true | None => false end
           then fsUpdate (Fs.mkdirSync dst) else ret tt) fs = Returns tt fs1) as ->.
  { rewrite <- Hmk. by destruct (fs !! dst). }
  destruct (readdirSync_ok fs1 src) as [ents Hents]; [by rewrite <- (app_nil_r src), Hsrc1, app_nil_r |].
  unfold fsTry. rewrite Hents. apply readdirSync_inr in Hents as [_ Hents].
  destruct (copyLoop_ok recurse depth src dst Hrec Hun ents fs1) as (fs2 & Hrun & Hwf2 & Hfs2);
    try done.
  - intros r e e'. rewrite Hsrc1. intros H1 H2.
    destruct (decide (dst ++ r = dst)) as [E|E].
    + rewrite E, Hdst1 in H2. injection H2 as <-.
      rewrite <- (app_nil_r dst) in E at 2. apply app_inv_head in E as ->.
      rewrite app_nil_r, Hsrc in H1. by injection H1 as <-.
    + rewrite Hfs1 in H2 by done. eauto.
  - intros r. rewrite Hsrc1. apply Hdepth.
  - intros d Hd. by apply Hents.
  - exists fs2. split; [done |]. split; [done |]. intros k. rewrite Hfs2.
    unfold graftedNames, grafted. destruct (strip dst k) as [[|n r]|] eqn:E.
    + apply strip_Some in E as ->. rewrite !app_nil_r, Hdst1. by rewrite Hsrc.
    + apply strip_Some in E as Hk. subst k. rewrite !Hsrc1.
      assert (fs1 !! (dst ++ n :: r) = fs !! (dst ++ n :: r)) as Hk1.
      { apply Hfs1. intros H. apply (f_equal length) in H. rewrite length_app in H. simpl in H. lia. }
      destruct (decide (n ∈ Fs.name <$> ents)) as [Hin|Hnin]; [by rewrite Hk1 |].
      rewrite Hk1. destruct (fs !! (src ++ n :: r)) as [e|] eqn:Er; [|done].
      destruct Hnin. apply list_elem_of_fmap.
      assert (is_Some (fs1 !! (src ++ [n]))) as [e1 He1].
      { rewrite Hsrc1. destruct r as [|m r]; [by eexists |].
        exists Dir. eapply (wf_prefix fs (src ++ [n]) (m :: r)); [done | | done].
        by rewrite <- app_assoc. }
      exists {| Fs.name := n; Fs.isDir := isDirEntry e1 |}. split; [done |].
      apply Hents. simpl. eauto.
    + apply Hfs1. intros ->. by rewrite strip_refl in E.
Qed.

Lemma copyDirectoryRecursive_ok (fuel : nat) : copies (copyDirectoryRecursive fuel) fuel.
Proof.
  induction fuel as [|fuel IH].
  - intros src dst fs _ _ Hsrc _ _ _ Hdepth.
    specialize (Hdepth []). rewrite app_nil_r in Hdepth.
    assert (length ([] : path) < 0) by (apply Hdepth; by rewrite Hsrc). simpl in *. lia.
  - simpl. by apply copyBody_ok.
Qed.

Lemma copyDirectoryContents_ok (fuel : nat) : copies (copyDirectoryContents fuel) (S fuel).
Proof. apply copyBody_ok, copyDirectoryRecursive_ok. Qed.

(** ** Calls of the collaborators in a trace *)

(** C1: when the resolved entry point does not exist, [compile] throws
    the error "File not found: <resolved path>", leaves the file system
    as it was, and has called neither the bundler nor the packager.  The
    same holds of the earlier revision. *)
Theorem compile_entry_not_found (env : Env) (fuel : nat) (options : CompileOptions) (fs : FS) :
  let entryPointPath := resolve (process_cwd env) (entryPoint options) in
  Fs.existsSync fs entryPointPath = false →
  ∀ revision, revision = compile ∨ revision = Earlier.compile →
  ∃ w, run (revision env fuel options) fs
         = Throws (Error ("File not found: " +:+ render entryPointPath)) w
       ∧ files w = fs
       ∧ invocations (trace w) = 0.
Proof.
  intros entryPointPath H revision [->| ->];
    unfold run, compile, Earlier.compile, checkEntry, bind; simpl;
    fold entryPointPath; unfold onFiles, fsRead; simpl; rewrite H; simpl;
    (eexists; split; [reflexivity |]; split; reflexivity).
Qed.

(** ** Steps that do not call the packager *)

Lemma quiet_refl (w : world) : quiet w w.
Proof. done. Qed.

Lemma quiet_trans (w1 w2 w3 : world) : quiet w1 w2 → quiet w2 w3 → quiet w1 w3.
Proof. unfold quiet. congruence. Qed.

Lemma execs_snoc (t : list event) (ev : event) :
  execs (t ++ [ev]) = execs t ++ (if isExec ev then [ev] else []).
Proof. unfold execs. by rewrite List.filter_app. Qed.

Lemma quiet_emit (ev : event) : isExec ev = false → always quiet (emit ev).
Proof.
  intros H w w' [= <-]. unfold quiet. simpl. by rewrite execs_snoc, H, app_nil_r.
Qed.

Lemma quiet_onFiles {A : Type} (m : M FS A) : always quiet (onFiles m).
Proof.
  intros w w' H. unfold onFiles in H.
  destruct (m (files w)); simpl in H; try done; by injection H as <-.
Qed.

Lemma quiet_path_resolve (cwd : path) (x : option string) :
  always quiet (path_resolve cwd x).
Proof. destruct x; intros w w' [= <-]; done. Qed.

Lemma quiet_path_dirname (x : option string) : always quiet (path_dirname x).
Proof. destruct x; intros w w' [= <-]; done. Qed.

Lemma quiet_esbuild_build (env : Env) (options : Esbuild.BuildOptions) :
  always quiet (esbuild_build env options).
Proof.
  intros w w' H. unfold esbuild_build, call in H. unfold quiet.
  destruct (esbuild env _ (files w)).2; injection H as <-; simpl;
    by rewrite execs_snoc, app_nil_r.
Qed.

Ltac quiet_step :=
  first
    [ apply (always_bind quiet quiet_trans); [|intros ?]
    | apply (always_when quiet quiet_refl)
    | apply (always_ret quiet quiet_refl)
    | apply (always_throw quiet quiet_refl)
    | apply quiet_onFiles
    | apply quiet_path_resolve
    | apply quiet_path_dirname
    | apply quiet_esbuild_build
    | apply quiet_emit; reflexivity
    | apply (always_tryCatch quiet quiet_trans); [|intros ?] ].

Ltac quiet_solve := unfold console_log, console_warn, console_error; repeat quiet_step.

Lemma quiet_stageLoop (env : Env) (fuel : nat) (tempAssetsDir : path) :
  ∀ assetsArray hasAssets, always quiet (stageLoop env fuel tempAssetsDir assetsArray hasAssets).
Proof.
  induction assetsArray as [|asset rest IH]; intros hasAssets; simpl.
  - quiet_solve.
  - quiet_solve. destruct a1; simpl.
    + quiet_solve. destruct a1; quiet_solve; apply IH.
    + quiet_solve. apply IH.
Qed.

Lemma quiet_stageAssets (env : Env) (fuel : nat) (assetsArray : list (option string)) :
  always quiet (stageAssets env fuel assetsArray).
Proof.
  unfold stageAssets. destruct (bool_decide _); [|quiet_solve].
  quiet_solve. apply quiet_stageLoop.
Qed.

Lemma quiet_checkEntry (env : Env) (entryPoint : string) :
  always quiet (checkEntry env entryPoint).
Proof. unfold checkEntry. quiet_solve. Qed.

Lemma quiet_bundleStep (env : Env) (nodeVersion : string) (entryPointPath : path) :
  always quiet (bundleStep env nodeVersion entryPointPath).
Proof.
  unfold bundleStep. quiet_solve.
Qed.

Lemma quiet_assetsOption (env : Env) (hasAssets : bool) :
  always quiet (assetsOption env hasAssets).
Proof. unfold assetsOption. destruct hasAssets; quiet_solve. Qed.

Lemma quiet_copyBeside (env : Env) (fuel : nat) (outFile : option string) :
  always quiet (copyBeside env fuel outFile).
Proof. unfold copyBeside. quiet_solve. Qed.

Lemma compile_phases (env : Env) (fuel : nat) (options : CompileOptions) (w : world) :
  compile env fuel options w =
  (let! hasAssets := beforePackaging env fuel options in
   packageStep env fuel (default "16" (nodeVersion options))
     (default (defaultPlatform env) (platform options)) (outFile options) hasAssets) w.
Proof.
  unfold compile, beforePackaging, bind.
  destruct (checkEntry env (entryPoint options) w); try done.
  destruct (bundleStep _ _ _ _); done.
Qed.

Lemma quiet_beforePackaging (env : Env) (fuel : nat) (options : CompileOptions) :
  always quiet (beforePackaging env fuel options).
Proof.
  unfold beforePackaging.
  apply (always_bind quiet quiet_trans); [apply quiet_checkEntry | intros p].
  apply (always_bind quiet quiet_trans); [apply quiet_bundleStep | intros _].
  apply quiet_stageAssets.
Qed.

Lemma runsOnly_refl (c : string) (w : world) : runsOnly c w w.
Proof. intros ev H. by left. Qed.

Lemma runsOnly_trans (c : string) (w1 w2 w3 : world) :
  runsOnly c w1 w2 → runsOnly c w2 w3 → runsOnly c w1 w3.
Proof.
  intros H12 H23 ev H. destruct (H23 ev H) as [H'|H']; [by apply H12 | by right].
Qed.

Lemma runsOnly_quiet (c : string) {A : Type} (m : M world A) :
  always quiet m → always (runsOnly c) m.
Proof. intros Hq w w' H ev Hev. left. by rewrite <- (Hq w w' H). Qed.

Lemma runsOnly_execAsync (env : Env) (c : string) : always (runsOnly c) (execAsync env c).
Proof.
  intros w w' H ev Hev. unfold execAsync, call in H.
  destruct (shell env c (files w)).2; injection H as <-; simpl in Hev;
    rewrite execs_snoc in Hev; apply in_app_or in Hev as [?|[<-|[]]]; eauto.
Qed.

Lemma earlier_quiet_stageLoop (env : Env) (fuel : nat) (tempAssetsDir : path) :
  ∀ assetsArray, always quiet (Earlier.stageLoop env fuel tempAssetsDir assetsArray).
Proof.
  induction assetsArray as [|asset rest IH]; simpl.
  - quiet_solve.
  - quiet_solve. destruct a1; simpl.
    + quiet_solve. destruct a1; quiet_solve; apply IH.
    + quiet_solve. apply IH.
Qed.

Lemma earlier_compile_runsOnly (env : Env) (fuel : nat) (options : CompileOptions) :
  always
    (runsOnly (pkgCommand (bundleFileOf env)
       (String.concat "," (pkgTargets (default "16" (nodeVersion options))
                             (default (defaultPlatform env) (platform options))))
       (Earlier.pkgAssetsOption env (assetsArrayOf (default (AssetList []) (assets options))))
       (outFile options)))
    (Earlier.compile env fuel options).
Proof.
  set (c := pkgCommand _ _ _ _).
  pose proof (runsOnly_refl c) as Hr. pose proof (runsOnly_trans c) as Ht.
  unfold Earlier.compile.
  apply always_bind; [done | apply runsOnly_quiet, quiet_checkEntry | intros p].
  apply always_bind; [done | apply runsOnly_quiet, quiet_bundleStep | intros _].
  apply always_bind; [done | | intros _].
  { apply runsOnly_quiet. unfold Earlier.stageAssets. quiet_solve.
    apply earlier_quiet_stageLoop. }
  unfold Earlier.packageStep. fold c.
  apply always_bind; [done | apply runsOnly_quiet; quiet_solve | intros _].
  apply always_tryFinally; [done | done | | apply runsOnly_quiet, quiet_onFiles].
  apply always_tryCatch; [done | | intros e; apply runsOnly_quiet; quiet_solve].
  apply always_bind; [done | apply runsOnly_execAsync | intros _].
  apply runsOnly_quiet. quiet_solve.
Qed.

(** ** Step 3 *)

Lemma rmSync_lookup (p k : path) (fs : FS) :
  Fs.rmSync p fs !! k = if under p k then None else fs !! k.
Proof.
  unfold Fs.rmSync. destruct (under p k) eqn:E.
  - apply map_lookup_filter_None. right. intros e _. simpl. by rewrite E.
  - destruct (fs !! k) as [e|] eqn:Ek.
    + by apply map_lookup_filter_Some.
    + apply map_lookup_filter_None. by left.
Qed.

Lemma rmSync_under (p k : path) (fs : FS) :
  under p k = true → Fs.rmSync p fs !! k = None.
Proof. intros H. by rewrite rmSync_lookup, H. Qed.

Lemma assetsOption_cases (env : Env) (hasAssets : bool) (w : world) :
  match assetsOption env hasAssets w with
  | Returns opt w' =>
      trace w' = trace w ∧
      if hasAssets
      then opt = assetsFlag env ∧ files w' = <[readmePathOf env := File readmeText]> (files w)
      else opt = "" ∧ files w' = files w
  | Throws e w' => w' = w ∧ hasAssets = true
  | Exits _ _ => False
  | Diverges => False
  end.
Proof.
  unfold assetsOption. destruct hasAssets; [|done].
  unfold bind, onFiles, fsUpdate. fold (readmePathOf env).
  destruct (Fs.writeFileSync (readmePathOf env) readmeText (files w)) as [e|fs'] eqn:E; simpl.
  - by destruct w.
  - apply writeFileSync_inr in E as (-> & _). done.
Qed.

Lemma packageStep_outcome (env : Env) (fuel : nat) (nodeVersion platform : string)
    (outFile : option string) (hasAssets : bool) (w : world) :
  execs (trace w) = [] →
  let o := packageStep env fuel nodeVersion platform outFile hasAssets w in
  (∃ e w', o = Throws e w' ∧ execs (trace w') = [] ∧ hasAssets = true)
  ∨ packaged env fuel nodeVersion platform outFile hasAssets w o.
Proof.
  intros Hq o. subst o. unfold packageStep, bind, console_log. simpl.
  set (w0 := {| files := files w; trace := trace w ++ _ |}).
  assert (execs (trace w0) = []) as Hq0 by (subst w0; simpl; by rewrite execs_snoc, Hq).
  pose proof (assetsOption_cases env hasAssets w0) as Hopt.
  destruct (assetsOption env hasAssets w0) as [opt w1|e w1| |]; try done.
  2:{ left. destruct Hopt as [-> ->]. eauto. }
  right. destruct Hopt as [Ht Hopt]. exists opt, (files w1).
  split. { destruct hasAssets; destruct Hopt as [-> ->]; done. }
  set (cmd := pkgCommand _ _ _ _).
  unfold tryFinally, tryCatch, package, bind, console_log, console_error, emit,
    execAsync, call, throw, onFiles. simpl. fold cmd.
  assert (execs (trace w1) = []) as Hq1 by (by rewrite Ht).
  destruct (shell env cmd (files w1)) as [fs2 [e|]] eqn:Hs; simpl.
  - (* the packager fails *)
    rewrite !execs_snoc, Hq1. simpl. split; [done |]. split; [by intros e' [= ->] |].
    split; [apply in_or_app; right; by left | intros k Hk; by apply rmSync_under].
  - (* the packager succeeds *)
    destruct hasAssets; simpl.
    + pose proof (quiet_copyBeside env fuel outFile) as Hcb.
      match goal with |- context [copyBeside env fuel outFile ?w3] =>
        specialize (Hcb w3); destruct (copyBeside env fuel outFile w3) as [[] w4|e w4|c w4|]
          eqn:Hrun; simpl in *
      end.
      * specialize (Hcb _ eq_refl). unfold quiet in Hcb. simpl in Hcb.
        rewrite Hcb, !execs_snoc, Hq1. simpl.
        split; [done |]. split; [done |]. split; [intros k Hk; by apply rmSync_under |].
        eexists _, w4. split; [|split; [exact Hrun | reflexivity]]. reflexivity.
      * specialize (Hcb _ eq_refl). unfold quiet in Hcb. simpl in Hcb.
        rewrite !execs_snoc, Hcb, !execs_snoc, Hq1. simpl. split; [done |].
        split; [done |]. split; [apply in_or_app; right; by left |].
        intros k Hk; by apply rmSync_under.
      * specialize (Hcb _ eq_refl). unfold quiet in Hcb. simpl in Hcb.
        by rewrite Hcb, !execs_snoc, Hq1.
      * done.
    + rewrite !execs_snoc, Hq1. simpl.
      split; [done |]. split; [done |]. split; [intros k Hk; by apply rmSync_under |].
      exists {| files := fs2; trace := [] |}, {| files := fs2; trace := [] |}. done.
Qed.

(** The outcome of a whole run of [compile]: it stops before step 3
    without having run the packager, or step 3 runs as above. *)
Lemma compile_outcome (env : Env) (fuel : nat) (options : CompileOptions) (fs : FS) :
  let o := run (compile env fuel options) fs in
  (∀ w', final o = Some w' → execs (trace w') = [])
  ∨ ∃ hasAssets w,
      run (beforePackaging env fuel options) fs = Returns hasAssets w ∧
      packaged env fuel (default "16" (nodeVersion options))
        (default (defaultPlatform env) (platform options)) (outFile options) hasAssets w o.
Proof.
  intros o. subst o. unfold run. rewrite compile_phases. unfold bind.
  pose proof (quiet_beforePackaging env fuel options {| files := fs; trace := [] |}) as Hq.
  destruct (beforePackaging env fuel options _) as [hasAssets w|e w|c w|]; simpl in *.
  - specialize (Hq _ eq_refl). unfold quiet in Hq. simpl in Hq.
    destruct (packageStep_outcome env fuel (default "16" (nodeVersion options))
                (default (defaultPlatform env) (platform options)) (outFile options)
                hasAssets w Hq) as [(e & w' & -> & Hq' & _)|Hp].
    + left. by intros w'' [= <-].
    + right. eauto.
  - left. intros w' [= <-]. by apply Hq.
  - left. intros w' [= <-]. by apply Hq.
  - by left.
Qed.

Lemma In_execs (ev : event) (t : list event) :
  In ev t → isExec ev = true → In ev (execs t).
Proof. intros H1 H2. unfold execs. apply List.filter_In. done. Qed.

(** C2: whatever command a run passes to the packager is
    [npx pkg <bundle> --targets <targets> <assets option> --output <outFile>]
    where, for node version [v], <targets> joins the three identifiers
    node<v>-win-x64, node<v>-macos-x64, node<v>-linux-x64 in that order
    when the platform is "all", and is the single identifier
    node<v>-<p>-x64 for any other platform [p], taken as it is.  The same
    holds of the earlier revision. *)
Theorem packager_targets (env : Env) (fuel : nat) (options : CompileOptions) (fs : FS)
    (v p : string) (w : world) (cmd : string) (fs1 : FS) :
  nodeVersion options = Some v →
  platform options = Some p →
  ∀ revision, revision = compile ∨ revision = Earlier.compile →
  final (run (revision env fuel options) fs) = Some w →
  In (Exec cmd fs1) (trace w) →
  ∃ targets opt,
    cmd = "npx pkg " +:+ render (bundleFileOf env) +:+ " --targets "
          +:+ String.concat "," targets +:+ " " +:+ opt
          +:+ " --output " +:+ str (outFile options)
    ∧ targets = pkgTargets v p
    ∧ (p = "all" →
       targets = [ "node" +:+ v +:+ "-win-x64"; "node" +:+ v +:+ "-macos-x64";
                   "node" +:+ v +:+ "-linux-x64" ])
    ∧ (p ≠ "all" → targets = [ "node" +:+ v +:+ "-" +:+ p +:+ "-x64" ]).
Proof.
  intros Hv Hp revision Hrev Hfin Hin.
  assert (∃ opt, cmd = pkgCommand (bundleFileOf env)
                         (String.concat "," (pkgTargets v p)) opt (outFile options))
    as [opt ->].
  { destruct Hrev as [->| ->].
    - destruct (compile_outcome env fuel options fs) as [Hnone|(hasAssets & w0 & _ & Hpk)].
      + apply Hnone in Hfin. apply In_execs in Hin; [|done]. by rewrite Hfin in Hin.
      + rewrite Hv, Hp in Hpk. simpl in Hpk. destruct Hpk as (opt & fs0 & _ & Hpk).
        assert (execs (trace w) = [Exec (pkgCommand (bundleFileOf env)
                  (String.concat "," (pkgTargets v p)) opt (outFile options)) fs0]) as Hex.
        { destruct (run (compile env fuel options) fs) as [[] w'|e w'|c w'|];
            simpl in Hfin; try done; injection Hfin as ->; by destruct Hpk. }
        apply In_execs in Hin; [|done]. rewrite Hex in Hin.
        destruct Hin as [[= <- <-]|[]]. by exists opt.
    - pose proof (earlier_compile_runsOnly env fuel options _ _ Hfin) as Hruns.
      rewrite Hv, Hp in Hruns. simpl in Hruns.
      apply In_execs in Hin; [|done].
      destruct (Hruns _ Hin) as [[]|[fs' [= -> _]]]. eauto. }
  exists (pkgTargets v p), opt. split; [done |]. split; [done |].
  unfold pkgTargets. split; intros H; [by rewrite decide_True | by rewrite decide_False].
Qed.

(** C4: when [compile] settles, by returning or by throwing, after it
    has called the packager, the temp directory and everything under it
    are gone; and when the packager failed with [e], the run has logged
    [e] and throws [e]. *)
Theorem staging_removed (env : Env) (fuel : nat) (options : CompileOptions) (fs : FS)
    (w : world) :
  (run (compile env fuel options) fs = Returns tt w
   ∨ ∃ e, run (compile env fuel options) fs = Throws e w) →
  execs (trace w) ≠ [] →
  Fs.existsSync (files w) (tempDirOf env) = false
  ∧ (∀ k, under (tempDirOf env) k = true → files w !! k = None)
  ∧ (∀ cmd fs1 e,
       In (Exec cmd fs1) (trace w) → (shell env cmd fs1).2 = Some e →
       run (compile env fuel options) fs = Throws e w
       ∧ In (ErrorLog [VStr "❌ Error creating executable:"; VError e]) (trace w)).
Proof.
  intros Hrun Hex.
  destruct (compile_outcome env fuel options fs) as [Hnone|(hasAssets & w0 & _ & Hpk)].
  - destruct Hex. apply Hnone. by destruct Hrun as [->|[e ->]].
  - destruct Hpk as (opt & fs0 & _ & Hpk).
    assert (∀ k, under (tempDirOf env) k = true → files w !! k = None) as Hgone.
    { destruct Hrun as [Hrun|[e Hrun]]; rewrite Hrun in Hpk.
      - by destruct Hpk as (_ & _ & Hg & _).
      - by destruct Hpk as (_ & _ & _ & Hg). }
    split; [|split; [done |]].
    + unfold Fs.existsSync. by rewrite Hgone by apply under_refl.
    + intros cmd fs1 e Hin Hfail. apply In_execs in Hin; [|done].
      destruct Hrun as [Hrun|[e' Hrun]]; rewrite Hrun in Hpk |- *.
      * destruct Hpk as (Hx & Hok & _). rewrite Hx in Hin.
        destruct Hin as [[= <- <-]|[]]. by rewrite Hfail in Hok.
      * destruct Hpk as (Hx & Hsame & Hlog & _). rewrite Hx in Hin.
        destruct Hin as [[= <- <-]|[]]. by rewrite (Hsame e Hfail).
Qed.

(** C10: [assets] given as the string [s] is turned into the list [[s]]
    before anything else is done with it, so [compile] with the string
    is the same program as [compile] with the one-element list: the same
    outcome, file system and trace from every start.  The same holds of
    the earlier revision. *)
Theorem assets_string_as_singleton (env : Env) (fuel : nat) (options : CompileOptions)
    (s : string) :
  assetsArrayOf (AssetString s) = assetsArrayOf (AssetList [Some s])
  ∧ compile env fuel (withAssets options (AssetString s))
    = compile env fuel (withAssets options (AssetList [Some s]))
  ∧ Earlier.compile env fuel (withAssets options (AssetString s))
    = Earlier.compile env fuel (withAssets options (AssetList [Some s])).
Proof. repeat split; reflexivity. Qed.

(** ** The command line *)

Lemma wantsHelp_true (args : list string) :
  wantsHelp args = true ↔ args = [] ∨ In "--help" args ∨ In "-h" args.
Proof.
  unfold wantsHelp. rewrite !orb_true_iff, !bool_decide_eq_true, <- !list_elem_of_In.
  rewrite length_zero_iff_nil. tauto.
Qed.

(** When every token starts with a dash, none is taken as entry point. *)
Lemma parseArgs_dashed (n : nat) : ∀ (args : list string) (acc : Parsed),
  (length args ≤ n)%nat →
  (∀ a, In a args → startsWithDash a = true) →
  p_entryPoint (parseArgs args acc) = p_entryPoint acc.
Proof.
  induction n as [|n IH]; intros args acc Hlen Hall.
  - destruct args; [done | simpl in Hlen; lia].
  - destruct args as [|arg rest]; [done |]. simpl in Hlen.
    assert (∀ a, In a rest → startsWithDash a = true) as Hrest by (intros; apply Hall; by right).
    simpl. repeat (destruct (isFlag arg _ _);
      [destruct rest as [|v rest']; [done |];
       rewrite IH; [done | simpl in *; lia | intros; apply Hrest; by right] |]).
    rewrite (Hall arg) by (by left). simpl. apply IH; [lia | done].
Qed.

Ltac in_trace := simpl; repeat (first [left; reflexivity | right]).

Lemma invocations_app (t t' : list event) :
  invocations (t ++ t') = invocations t + invocations t'.
Proof. unfold invocations. by rewrite List.filter_app, length_app. Qed.

(** ** Step 2: staging *)

Lemma onWorld_onFiles {A : Type} (R : FS → FS → Prop) (m : M FS A) :
  always R m → always (onWorld R) (onFiles m).
Proof. intros H w w' Hf. by apply (always_onFiles R m H) in Hf as [? _]. Qed.

Lemma onWorld_emit (R : FS → FS → Prop) (ev : event) :
  (∀ fs, R fs fs) → always (onWorld R) (emit ev).
Proof. intros HR w w' [= <-]. apply HR. Qed.

Lemma onWorld_path_resolve (R : FS → FS → Prop) (cwd : path) (x : option string) :
  (∀ fs, R fs fs) → always (onWorld R) (path_resolve cwd x).
Proof. intros HR. destruct x; intros w w' [= <-]; apply HR. Qed.

Section Staging.
Context (env : Env) (fuel : nat).

Abbreviation A := (tempAssetsDirOf env).
Abbreviation P := (onWorld (preserves (tempAssetsDirOf env))).

Lemma P_refl (w : world) : P w w.
Proof. apply preserves_refl. Qed.

Lemma P_trans (w1 w2 w3 : world) : P w1 w2 → P w2 w3 → P w1 w3.
Proof. apply preserves_trans. Qed.

Lemma stageLoop_preserves : ∀ (assetsArray : list (option string)) (hasAssets : bool),
  always P (stageLoop env fuel A assetsArray hasAssets).
Proof.
  pose proof (preserves_refl A) as Hr.
  induction assetsArray as [|asset rest IH]; intros hasAssets; simpl.
  - apply always_ret, P_refl.
  - apply (always_bind P P_trans); [by apply onWorld_path_resolve | intros assetPath].
    apply (always_bind P P_trans); [by apply onWorld_emit | intros _].
    apply (always_bind P P_trans);
      [apply onWorld_onFiles; by apply always_fsRead | intros found].
    destruct found; simpl.
    + apply (always_bind P P_trans);
        [apply onWorld_onFiles; by apply always_fsTry | intros isDirectory].
      destruct isDirectory.
      * apply (always_bind P P_trans);
          [apply onWorld_onFiles, copyDirectoryContents_preserves | intros _].
        apply (always_bind P P_trans); [by apply onWorld_emit | intros _]. apply IH.
      * apply (always_bind P P_trans); [|intros _].
        { apply onWorld_onFiles, always_fsUpdate; [done |].
          intros fs fs' H. eapply preserves_snoc. by eapply copyFileSync_preserves. }
        apply (always_bind P P_trans); [by apply onWorld_emit | intros _]. apply IH.
    + apply (always_bind P P_trans); [by apply onWorld_emit | intros _]. apply IH.
Qed.

(** A missing entry: a warning, and the loop goes on with the rest on
    the same files and with the same flag. *)
Lemma stageLoop_missing (s : string) (rest : list (option string)) (hasAssets : bool)
    (w : world) :
  Fs.existsSync (files w) (resolve (process_cwd env) s) = false →
  stageLoop env fuel A (Some s :: rest) hasAssets w
  = stageLoop env fuel A rest hasAssets
      {| files := files w;
         trace := trace w ++
           [ Log [VStr ("Copying asset: " +:+ render (resolve (process_cwd env) s))];
             Warn [VStr ("⚠️ Warning: Asset not found: "
                         +:+ render (resolve (process_cwd env) s))] ] |}.
Proof.
  intros H. simpl. unfold bind, ret, console_log, console_warn, emit, onFiles, fsRead.
  simpl. rewrite H. simpl. by rewrite <- app_assoc.
Qed.

Lemma existsSync_keeps (fs fs' : FS) (p : path) :
  keeps fs fs' → Fs.existsSync fs p = true → Fs.existsSync fs' p = true.
Proof.
  intros Hk. unfold Fs.existsSync. destruct (fs !! p) as [e|] eqn:E; [|done].
  intros _. by destruct (Hk p e E) as (e' & -> & _).
Qed.

(** The flag after the loop. *)
Lemma stageLoop_flag : ∀ (assetsArray : list (option string)) (hasAssets : bool)
    (w w' : world) (h' : bool),
  stageLoop env fuel A assetsArray hasAssets w = Returns h' w' →
  (h' = true →
   hasAssets = true
   ∨ ∃ s, In (Some s) assetsArray
          ∧ Fs.existsSync (files w') (resolve (process_cwd env) s) = true)
  ∧ (hasAssets = true
     ∨ (∃ s, In (Some s) assetsArray
             ∧ Fs.existsSync (files w) (resolve (process_cwd env) s) = true) →
     h' = true).
Proof.
  induction assetsArray as [|asset rest IH]; intros hasAssets w w' h' Hrun.
  - injection Hrun as <- <-. split; [by left |].
    intros [?|(s & [] & _)]. done.
  - destruct asset as [s|]; [|done].
    simpl in Hrun. unfold bind, ret, console_log, emit in Hrun. simpl in Hrun.
    unfold onFiles at 1, fsRead in Hrun. simpl in Hrun.
    set (p := resolve (process_cwd env) s) in *.
    destruct (Fs.existsSync (files w) p) eqn:Hp; simpl in Hrun.
    + (* present: the flag is set *)
      assert (∃ w1, stageLoop env fuel A rest true w1 = Returns h' w'
                    ∧ keeps (files w) (files w1)) as (w1 & Hrest & Hk1).
      { unfold fsTry in Hrun.
        destruct (Fs.isDirectory (files w) p) as [e|[|]]; simpl in Hrun; [done | |].
        - pose proof (copyDirectoryContents_preserves fuel p A (files w)) as Hc.
          unfold onFiles in Hrun. simpl in Hrun.
          destruct (copyDirectoryContents fuel p A (files w)) as [[] fs1|e fs1|c fs1|];
            simpl in Hrun; try done.
          eexists. split; [exact Hrun |]. simpl. by apply (Hc fs1 eq_refl).
        - unfold onFiles, fsUpdate in Hrun. simpl in Hrun.
          destruct (Fs.copyFileSync p (A ++ [basename p]) (files w)) as [e|fs1] eqn:Hc;
            simpl in Hrun; [done |].
          eexists. split; [exact Hrun |]. simpl.
          by apply copyFileSync_preserves in Hc as (_ & ? & _). }
      destruct (IH _ _ _ _ Hrest) as [_ Hset].
      assert (h' = true) as -> by (apply Hset; by left).
      split; [|done]. intros _. right. exists s. split; [by left |].
      pose proof (stageLoop_preserves rest true w1 w') as Hpres.
      rewrite Hrest in Hpres. destruct (Hpres eq_refl) as (_ & Hk2 & _).
      eapply existsSync_keeps; [exact Hk2 |]. by eapply existsSync_keeps.
    + (* missing: skipped *)
      destruct (IH _ _ _ _ Hrun) as [Hto Hfrom]. simpl in *. split.
      * intros Hh. destruct (Hto Hh) as [?|(s' & Hin & He)]; [by left |].
        right. exists s'. split; [by right | done].
      * intros [?|(s' & [[= ->]|Hin] & He)]; [apply Hfrom; by left | |].
        -- subst p. by rewrite He in Hp.
        -- apply Hfrom. right. eauto.
Qed.
End Staging.

(** The paths of the staging area. *)
Lemma tempDirOf_eq (env : Env) : tempDirOf env = process_cwd env ++ [".ts-compiler-bin-temp"].
Proof. reflexivity. Qed.

Lemma bundleFileOf_eq (env : Env) : bundleFileOf env = tempDirOf env ++ ["bundle.js"].
Proof. reflexivity. Qed.

Lemma tempAssetsDirOf_eq (env : Env) : tempAssetsDirOf env = tempDirOf env ++ ["assets"].
Proof. reflexivity. Qed.

Lemma readmePathOf_eq (env : Env) : readmePathOf env = tempAssetsDirOf env ++ ["README.md"].
Proof. reflexivity. Qed.

Lemma bundle_outside_assets (env : Env) :
  under (tempAssetsDirOf env) (bundleFileOf env) = false.
Proof.
  rewrite tempAssetsDirOf_eq, bundleFileOf_eq. apply under_false. intros r H.
  rewrite <- app_assoc in H. apply app_inv_head in H. done.
Qed.

Lemma tempDir_outside_assets (env : Env) :
  under (tempAssetsDirOf env) (tempDirOf env) = false.
Proof.
  rewrite tempAssetsDirOf_eq. apply under_false. intros r H.
  apply (f_equal length) in H. rewrite !length_app in H. simpl in H. lia.
Qed.

Section StagingWarnings.
Context (env : Env) (fuel : nat).

(** When every entry is missing the loop returns, with the flag and the
    files as they were, and a warning for each entry. *)
Lemma stageLoop_all_missing : ∀ (assetsArray : list (option string)) (hasAssets : bool)
    (w : world),
  (∀ a, In a assetsArray → missingAsset env (files w) a) →
  ∃ t, stageLoop env fuel (tempAssetsDirOf env) assetsArray hasAssets w
       = Returns hasAssets {| files := files w; trace := trace w ++ t |}
     ∧ invocations t = 0 ∧ execs t = []
     ∧ ∀ s, In (Some s) assetsArray → In (notFound env s) t.
Proof.
  induction assetsArray as [|a rest IH]; intros hasAssets w Hall.
  - exists []. rewrite app_nil_r. by destruct w.
  - destruct (Hall a) as (s & -> & Hs); [by left |].
    rewrite stageLoop_missing by done.
    edestruct (IH hasAssets) as (t & -> & Hinv & Hex & Hwarn).
    { simpl. intros a Ha. apply Hall. by right. }
    simpl. eexists (_ :: _ :: t). rewrite <- app_assoc. split; [reflexivity |].
    split; [done |]. split; [done |]. intros s' [[= ->]|Hin]; [right; by left | right; right; auto].
Qed.

Lemma mkdirSync_missing (p k : path) (fs fs' : FS) :
  Fs.mkdirSync p fs = inr fs' → fs !! k = None → under k p = false → fs' !! k = None.
Proof.
  intros H Hk Hu. rewrite (mkdirFrom_inr _ _ _ _ H), Hk. simpl. by rewrite Hu.
Qed.
End StagingWarnings.

(** What a run of step 2 that returns went through. *)
Lemma stageAssets_inv (env : Env) (fuel : nat) (assetsArray : list (option string))
    (w w' : world) (hasAssets : bool) :
  stageAssets env fuel assetsArray w = Returns hasAssets w' →
  assetsArray ≠ [] →
  ∃ w1 w2,
    (Fs.existsSync (files w) (tempAssetsDirOf env) = true ∧ files w1 = files w
     ∨ Fs.existsSync (files w) (tempAssetsDirOf env) = false
       ∧ Fs.mkdirSync (tempAssetsDirOf env) (files w) = inr (files w1))
    ∧ stageLoop env fuel (tempAssetsDirOf env) assetsArray false w1 = Returns hasAssets w2
    ∧ if hasAssets
      then ∃ b, files w2 !! bundleFileOf env = Some (File b)
                ∧ files w' = <[bundleFileOf env := File (assetHelperCode +:+ b)]> (files w2)
      else files w' = files w2.
Proof.
  intros Hrun Hne. unfold stageAssets in Hrun.
  rewrite bool_decide_eq_true_2 in Hrun by (destruct assetsArray; [done | simpl; lia]).
  fold (tempAssetsDirOf env) in Hrun. set (A := tempAssetsDirOf env) in *.
  unfold bind, console_log, emit in Hrun. simpl in Hrun.
  assert (∃ w1, match stageLoop env fuel A assetsArray false w1 with
                | Returns a0 s'0 =>
                    match when a0 (injectHelper (bundleFileOf env)) s'0 with
                    | Returns _ s'1 =>
                        ret a0 {| files := files s'1;
                                  trace := trace s'1 ++ [Log [VStr "✅ Assets copying complete"]] |}
                    | Throws e s'1 => Throws e s'1
                    | Exits c s'1 => Exits c s'1
                    | Diverges => Diverges
                    end
                | Throws e s'0 => Throws e s'0
                | Exits c s'0 => Exits c s'0
                | Diverges => Diverges
                end = Returns hasAssets w'
                ∧ (Fs.existsSync (files w) A = true ∧ files w1 = files w
                   ∨ Fs.existsSync (files w) A = false
                     ∧ Fs.mkdirSync A (files w) = inr (files w1))) as (w1 & Hrun1 & Hw1).
  { destruct (Fs.existsSync (files w) A) eqn:HexA; simpl in Hrun.
    - eexists. split; [exact Hrun | by left].
    - unfold onFiles, fsUpdate in Hrun. simpl in Hrun.
      destruct (Fs.mkdirSync A (files w)) as [e|fs1] eqn:Hm; simpl in Hrun;
        [discriminate Hrun |].
      eexists. split; [exact Hrun |]. right. split; [done | reflexivity]. }
  clear Hrun. rename Hrun1 into Hrun.
  destruct (stageLoop env fuel A assetsArray false w1) as [h w2|e w2|c w2|] eqn:Hloop;
    try done.
  exists w1, w2. split; [done |].
  destruct h; simpl in Hrun.
  - unfold injectHelper, bind, console_log, emit, onFiles, fsTry, fsUpdate in Hrun.
    simpl in Hrun.
    destruct (Fs.readFileSync (files w2) (bundleFileOf env)) as [e|b] eqn:Hread;
      simpl in Hrun; [done |].
    destruct (Fs.writeFileSync (bundleFileOf env) (assetHelperCode +:+ b) (files w2))
      as [e|fs3] eqn:Hwrite; simpl in Hrun; [done |].
    injection Hrun as <- <-. split; [done |]. exists b. simpl.
    apply writeFileSync_inr in Hwrite as (-> & _). split; [|done].
    unfold Fs.readFileSync in Hread.
    destruct (files w2 !! bundleFileOf env) as [[]|]; by simplify_eq.
  - injection Hrun as <- <-. done.
Qed.

(** ** A run whose listed assets are all missing *)

Section AllMissing.
Context (env : Env) (fuel : nat) (fs : FS) (b : string).
Hypothesis Hwf : wf fs.
Hypothesis Hcwd : fs !! process_cwd env = Some Dir.
Hypothesis Hfresh : fs !! tempDirOf env = None.
Hypothesis Hbundler : bundlerWrites env b.

Lemma bundled_wf : wf (bundled env fs b).
Proof using Hwf Hcwd Hfresh.
  unfold bundled. apply wf_insert.
  - apply wf_insert; [done | | by left]. by rewrite tempDirOf_eq, parent_snoc.
  - intros _. by rewrite bundleFileOf_eq, parent_snoc, lookup_insert_eq.
  - right. rewrite lookup_insert_ne.
    + rewrite bundleFileOf_eq, (wf_below fs (tempDirOf env) ["bundle.js"]); try done.
      by rewrite Hfresh.
    + rewrite bundleFileOf_eq. intros H. apply (f_equal length) in H.
      rewrite length_app in H. simpl in H. lia.
Qed.

Lemma bundled_outside (k : path) :
  under (tempDirOf env) k = false → (bundled env fs b) !! k = fs !! k.
Proof.
  intros H. unfold bundled. rewrite !lookup_insert_ne; [done | |].
  - intros <-. by rewrite under_refl in H.
  - intros <-. by rewrite bundleFileOf_eq, under_app in H.
Qed.

Lemma bundleStep_fresh (nodeVersion : string) (entryPointPath : path) (w : world) :
  files w = fs →
  ∃ t, bundleStep env nodeVersion entryPointPath w
       = Returns tt {| files := (bundled env fs b); trace := trace w ++ t |}
     ∧ execs t = [].
Proof using Hwf Hcwd Hfresh Hbundler.
  intros Hw. unfold bundleStep, bind, console_log, emit, onFiles, fsRead, when,
    tryCatch, esbuild_build, call, fsUpdate. simpl.
  unfold Fs.existsSync. rewrite Hw, Hfresh. simpl.
  rewrite mkdirSync_ok; [|done | by rewrite tempDirOf_eq; destruct (process_cwd env)
                         | by rewrite tempDirOf_eq, parent_snoc | done].
  simpl. rewrite Hbundler. simpl. eexists [_; _; _; _].
  rewrite <- !app_assoc. simpl. split; reflexivity.
Qed.

(** Step 2 on these files when every listed asset is missing. *)
Lemma stageAssets_all_missing (assetsArray : list (option string)) (w : world) :
  files w = (bundled env fs b) →
  (∀ a, In a assetsArray →
        ∃ s, a = Some s ∧ Fs.existsSync fs (resolve (process_cwd env) s) = false
             ∧ under (tempDirOf env) (resolve (process_cwd env) s) = false) →
  ∃ t, stageAssets env fuel assetsArray w
       = Returns false
           {| files := if assetsArray is [] then (bundled env fs b)
                       else <[tempAssetsDirOf env := Dir]> (bundled env fs b);
              trace := trace w ++ t |}
     ∧ execs t = []
     ∧ ∀ s, In (Some s) assetsArray → In (notFound env s) t.
Proof using Hwf Hcwd Hfresh.
  intros Hw Hall. unfold stageAssets.
  destruct assetsArray as [|a rest].
  { exists []. simpl. rewrite app_nil_r, <- Hw. by destruct w. }
  assert (tempAssetsDirOf env ≠ []) as HAne.
  { rewrite tempAssetsDirOf_eq. by destruct (tempDirOf env). }
  change (if a :: rest is [] then (bundled env fs b) else <[tempAssetsDirOf env := Dir]> (bundled env fs b))
    with (<[tempAssetsDirOf env := Dir]> (bundled env fs b)).
  remember (a :: rest) as l eqn:Hl.
  rewrite bool_decide_eq_true_2 by (subst l; simpl; lia).
  fold (tempAssetsDirOf env).
  unfold bind, console_log, emit, onFiles, fsRead, when, fsUpdate. simpl.
  assert ((bundled env fs b) !! tempAssetsDirOf env = None) as HA.
  { unfold bundled. rewrite !lookup_insert_ne.
    - rewrite tempAssetsDirOf_eq. apply wf_below; [done | by rewrite Hfresh | done].
    - rewrite tempAssetsDirOf_eq. intros H. apply (f_equal length) in H.
      rewrite length_app in H. simpl in H. lia.
    - rewrite tempAssetsDirOf_eq, bundleFileOf_eq. by intros ?%app_inv_head. }
  unfold Fs.existsSync. rewrite Hw, HA. simpl.
  rewrite mkdirSync_ok; [|apply bundled_wf | done | | done].
  2:{ rewrite tempAssetsDirOf_eq, parent_snoc. unfold bundled.
      rewrite lookup_insert_ne, lookup_insert_eq; [done |].
      rewrite bundleFileOf_eq. intros H. apply (f_equal length) in H.
      rewrite length_app in H. simpl in H. lia. }
  simpl.
  edestruct (stageLoop_all_missing env fuel l false) as (t & -> & Hinv & Hex & Hwarn).
  { simpl. intros a' Ha'. destruct (Hall a' Ha') as (s & -> & Hs & Hu).
    exists s. split; [done |]. unfold Fs.existsSync in *.
    rewrite lookup_insert_ne.
    - by rewrite (bundled_outside (resolve (process_cwd env) s)).
    - intros E. by rewrite <- E, tempAssetsDirOf_eq, under_app in Hu. }
  simpl. eexists (_ :: t ++ [_]). rewrite <- !app_assoc. simpl.
  split; [reflexivity |]. split.
  - unfold execs. rewrite List.filter_app. simpl.
    unfold execs in Hex. by rewrite Hex.
  - intros s Hs. right. apply in_or_app. left. by apply Hwarn.
Qed.
End AllMissing.

(** C7: a listed path that does not exist gets a warning and the loop
    goes on with the remaining entries from the same file system; a list
    of missing paths is staged without an error, with nothing written and
    one warning each; and the run of [compile] then calls the packager on
    a file system that holds the bundle and an empty assets directory. *)
Theorem missing_assets_skipped (env : Env) (fuel : nat) :
  let missing (fs : FS) (s : string) :=
    Fs.existsSync fs (resolve (process_cwd env) s) = false in
  (* one missing entry: a warning, and the loop goes on *)
  (∀ (s : string) (rest : list (option string)) (hasAssets : bool) (w : world),
     missing (files w) s →
     stageLoop env fuel (tempAssetsDirOf env) (Some s :: rest) hasAssets w
     = stageLoop env fuel (tempAssetsDirOf env) rest hasAssets
         {| files := files w;
            trace := trace w ++
              [ Log [VStr ("Copying asset: " +:+ render (resolve (process_cwd env) s))];
                notFound env s ] |})
  (* every entry missing: the loop returns and nothing is staged *)
  ∧ (∀ (assetsArray : list (option string)) (hasAssets : bool) (w : world),
       (∀ a, In a assetsArray → ∃ s, a = Some s ∧ missing (files w) s) →
       ∃ t, stageLoop env fuel (tempAssetsDirOf env) assetsArray hasAssets w
            = Returns hasAssets {| files := files w; trace := trace w ++ t |}
          ∧ invocations t = 0
          ∧ ∀ s, In (Some s) assetsArray → In (notFound env s) t)
  (* and the run goes on to the packager *)
  ∧ (∀ (options : CompileOptions) (fs : FS) (b : string) (assetsArray : list (option string)),
       wf fs →
       fs !! process_cwd env = Some Dir →
       fs !! tempDirOf env = None →
       Fs.existsSync fs (resolve (process_cwd env) (entryPoint options)) = true →
       bundlerWrites env b →
       assets options = Some (AssetList assetsArray) →
       (∀ a, In a assetsArray →
             ∃ s, a = Some s ∧ missing fs s
                  ∧ under (tempDirOf env) (resolve (process_cwd env) s) = false) →
       ∃ w cmd,
         (run (compile env fuel options) fs = Returns tt w
          ∨ ∃ e, run (compile env fuel options) fs = Throws e w)
         ∧ execs (trace w)
           = [Exec cmd (if assetsArray is [] then bundled env fs b
                        else <[tempAssetsDirOf env := Dir]> (bundled env fs b))]
         ∧ ∀ s, In (Some s) assetsArray → In (notFound env s) (trace w)).
Proof.
  intros missing. split; [|split].
  - intros s rest hasAssets w Hs. by apply stageLoop_missing.
  - intros assetsArray hasAssets w Hall.
    destruct (stageLoop_all_missing env fuel assetsArray hasAssets w Hall)
      as (t & Hrun & Hinv & _ & Hwarn). eauto.
  - intros options fs b assetsArray Hwf Hcwd Hfresh Hentry Hbundler Hassets Hall.
    remember (run (compile env fuel options) fs) as o eqn:Ho.
    unfold run in Ho. rewrite compile_phases in Ho. unfold bind at 1, beforePackaging in Ho.
    (* the entry point *)
    unfold bind at 1, checkEntry at 1, bind, console_log, emit, onFiles, fsRead in Ho.
    simpl in Ho. rewrite Hentry in Ho. simpl in Ho.
    (* step 1 *)
    match type of Ho with
    | context [bundleStep env ?v ?p ?w0] =>
        destruct (bundleStep_fresh env fs b Hwf Hcwd Hfresh Hbundler v p w0 eq_refl)
          as (t1 & Hb1 & Hx1)
    end.
    rewrite Hb1 in Ho. simpl in Ho.
    (* step 2 *)
    rewrite Hassets in Ho. simpl in Ho.
    match type of Ho with
    | context [stageAssets env fuel assetsArray ?w0] =>
        destruct (stageAssets_all_missing env fuel fs b Hwf Hcwd Hfresh assetsArray w0
                    eq_refl Hall) as (t2 & Hb2 & Hx2 & Hwarn)
    end.
    rewrite Hb2 in Ho. simpl in Ho.
    (* step 3 *)
    set (fs3 := if assetsArray is [] then _ else _) in *.
    unfold packageStep, assetsOption, package, tryFinally, tryCatch, bind, console_log,
      console_error, emit, execAsync, call, throw, onFiles, when in Ho. simpl in Ho.
    set (cmd := pkgCommand _ _ _ _) in *.
    destruct (shell env cmd fs3) as [fs4 [e|]] eqn:Hs; simpl in Ho.
    + eexists _, cmd. split; [right; eexists; exact Ho |]. simpl.
      rewrite <- !app_assoc. split.
      * unfold execs in *. rewrite !List.filter_app, Hx1, Hx2. reflexivity.
      * intros s Hs'. do 4 right.
        apply in_or_app. right. apply in_or_app. left. by apply Hwarn.
    + eexists _, cmd. split; [left; exact Ho |]. simpl.
      rewrite <- !app_assoc. split.
      * unfold execs in *. rewrite !List.filter_app, Hx1, Hx2. reflexivity.
      * intros s Hs'. do 4 right.
        apply in_or_app. right. apply in_or_app. left. by apply Hwarn.
Qed.

(** ** A file at the top of the source of a copy *)

Lemma not_under_snoc (p q : path) (n : string) :
  under p q = false → under (p ++ [n]) q = false.
Proof.
  intros H. destruct (under (p ++ [n]) q) eqn:E; [|done].
  by rewrite (under_parent _ _ _ E) in H.
Qed.

Lemma not_under_sibling (p : path) (n m : string) :
  n ≠ m → under (p ++ [m]) (p ++ [n]) = false.
Proof.
  intros Hne. apply under_false. intros r H. rewrite <- app_assoc in H.
  apply app_inv_head in H. simpl in H. by injection H as -> _.
Qed.

Lemma copyEntry_preserves (recurse : path → path → M FS unit) (src dst : path)
    (d : Fs.Dirent) :
  (∀ s t, always (preserves t) (recurse s t)) →
  always (preserves (dst ++ [Fs.name d])) (copyEntry recurse src dst d).
Proof.
  intros Hrec. unfold copyEntry. destruct (Fs.isDir d); [apply Hrec |].
  apply always_fsUpdate; [apply preserves_refl |].
  intros fs fs'. apply copyFileSync_preserves.
Qed.

Lemma copyLoop_file (recurse : path → path → M FS unit) (src dst : path)
    (n : string) (c : string) :
  (∀ s t, always (preserves t) (recurse s t)) →
  unrelated src dst →
  ∀ (ents : list Fs.Dirent) (fs fs' : FS),
    forEach ents (copyEntry recurse src dst) fs = Returns tt fs' →
    fs !! (src ++ [n]) = Some (File c) →
    (∀ d, d ∈ ents → Fs.name d = n → Fs.isDir d = false) →
    (∃ d, d ∈ ents ∧ Fs.name d = n) ∨ fs !! (dst ++ [n]) = Some (File c) →
    fs' !! (dst ++ [n]) = Some (File c).
Proof.
  intros Hrec Hun. induction ents as [|d ents IH]; intros fs fs' Hrun Hsrc Hfile Hor.
  - injection Hrun as <-. destruct Hor as [(d & Hd & _)|H]; [by apply elem_of_nil in Hd | done].
  - simpl in Hrun. unfold bind in Hrun.
    pose proof (copyEntry_preserves recurse src dst d Hrec fs) as Hpres.
    destruct (copyEntry recurse src dst d fs) as [[] fs1|e fs1|c' fs1|] eqn:Hd; try done.
    destruct (Hpres fs1 eq_refl) as (Ht & _).
    assert (fs1 !! (src ++ [n]) = Some (File c)) as Hsrc1.
    { rewrite Ht; [done | | left; by rewrite Hsrc].
      apply not_under_snoc. destruct (under dst (src ++ [n])) eqn:E; [|done].
      unfold under in E. by rewrite unrelated_source in E. }
    apply (IH fs1 fs' Hrun Hsrc1).
    + intros d' Hd'. apply Hfile. by right.
    + destruct (decide (Fs.name d = n)) as [Hn|Hn].
      * right. unfold copyEntry in Hd. rewrite (Hfile d) in Hd by (done || by left).
        rewrite Hn in Hd. unfold fsUpdate in Hd.
        destruct (Fs.copyFileSync (src ++ [n]) (dst ++ [n]) fs) as [e|fs2] eqn:Hc; [done |].
        injection Hd as <-.
        apply copyFileSync_inr in Hc as (data & Hdata & -> & _).
        rewrite lookup_insert_eq. congruence.
      * destruct Hor as [(d' & Hd' & Hn')|H].
        -- left. exists d'. split; [|done].
           apply elem_of_cons in Hd' as [->|?]; done.
        -- right. rewrite Ht; [done | by apply not_under_sibling | left; by rewrite H].
Qed.

Lemma copyDirectoryContents_file (fuel : nat) (src dst : path) (n c : string) (fs fs' : FS) :
  copyDirectoryContents fuel src dst fs = Returns tt fs' →
  unrelated src dst →
  fs !! (src ++ [n]) = Some (File c) →
  fs' !! (dst ++ [n]) = Some (File c).
Proof.
  intros Hrun Hun Hsrc. unfold copyDirectoryContents, copyBody, bind, fsRead in Hrun.
  assert (always (preserves dst)
            (when (negb (Fs.existsSync fs dst)) (fsUpdate (Fs.mkdirSync dst)))) as Hmk.
  { apply always_when; [apply preserves_refl |].
    apply always_fsUpdate; [apply preserves_refl |]. intros ? ?. apply mkdirSync_preserves. }
  specialize (Hmk fs).
  destruct (when _ _ fs) as [[] fs1|e fs1|c' fs1|]; try done.
  destruct (Hmk fs1 eq_refl) as (Ht & _).
  assert (fs1 !! (src ++ [n]) = Some (File c)) as Hsrc1.
  { rewrite Ht; [done | | left; by rewrite Hsrc].
    destruct (under dst (src ++ [n])) eqn:E; [|done].
    unfold under in E. by rewrite unrelated_source in E. }
  unfold fsTry in Hrun.
  destruct (Fs.readdirSync fs1 src) as [e|ents] eqn:Hread; [done |].
  apply readdirSync_inr in Hread as [_ Hents].
  eapply (copyLoop_file (copyDirectoryRecursive fuel) src dst n c);
    [apply copyDirectoryRecursive_preserves | done | exact Hrun | done | |].
  - intros d Hd Hn. apply Hents in Hd as (e & He & ->). rewrite Hn, Hsrc1 in He.
    by injection He as <-.
  - left. exists {| Fs.name := n; Fs.isDir := false |}. split; [|done].
    apply Hents. simpl. eauto.
Qed.

(** The same through [copyBeside]. *)
Lemma copyBeside_file (env : Env) (fuel : nat) (out n c : string) (w w' : world) :
  copyBeside env fuel (Some out) w = Returns tt w' →
  unrelated (tempAssetsDirOf env) (exeAssetsDirOf env (dirname out)) →
  files w !! (tempAssetsDirOf env ++ [n]) = Some (File c) →
  files w' !! (exeAssetsDirOf env (dirname out) ++ [n]) = Some (File c).
Proof.
  intros Hrun Hun Hsrc. unfold copyBeside, path_dirname in Hrun.
  fold (tempAssetsDirOf env) in Hrun.
  unfold bind, ret, console_log, emit, onFiles, fsRead in Hrun. simpl in Hrun.
  remember (exeAssetsDirOf env (dirname out)) as E eqn:HE.
  remember (tempAssetsDirOf env) as A eqn:HA.
  assert (always (preserves E)
            (when (negb (Fs.existsSync (files w) E)) (fsUpdate (Fs.mkdirSync E)))) as Hmk.
  { apply always_when; [apply preserves_refl |].
    apply always_fsUpdate; [apply preserves_refl |]. intros ? ?. apply mkdirSync_preserves. }
  specialize (Hmk (files w)).
  destruct (Fs.existsSync (files w) E); simpl in *.
  - destruct (copyDirectoryContents fuel A E (files w)) as [[] fs2|e fs2|c' fs2|] eqn:Hc;
      simpl in Hrun; try done.
    injection Hrun as <-. simpl. by eapply copyDirectoryContents_file.
  - unfold fsUpdate in *.
    destruct (Fs.mkdirSync E (files w)) as [e|fs1]; simpl in *; [done |].
    destruct (Hmk fs1 eq_refl) as (Ht & _).
    destruct (copyDirectoryContents fuel A E fs1) as [[] fs2|e fs2|c' fs2|] eqn:Hc;
      simpl in Hrun; try done.
    injection Hrun as <-. simpl. eapply copyDirectoryContents_file; [exact Hc | done |].
    rewrite Ht; [done | | left; by rewrite Hsrc].
    destruct (under E (A ++ [n])) eqn:Eu; [|done].
    unfold under in Eu. by rewrite unrelated_source in Eu.
Qed.

Lemma under_snoc_inv (p q : path) (n : string) :
  under p (q ++ [n]) = true → under p q = true ∨ p = q ++ [n].
Proof.
  intros H. apply under_true in H as [r H].
  destruct r as [|m r] using rev_ind.
  - right. by rewrite app_nil_r in H.
  - left. rewrite app_assoc in H. apply app_inj_tail in H as [-> _]. apply under_app.
Qed.

(** ** Staging a file and a directory *)

Section StageSteps.
Context (env : Env) (fuel : nat).
Abbreviation A := (tempAssetsDirOf env).

(** A regular file is copied under its base name. *)
Lemma stageLoop_file (s : string) (rest : list (option string)) (hasAssets : bool)
    (w : world) (data : string) (fs' : FS) :
  let p := resolve (process_cwd env) s in
  files w !! p = Some (File data) →
  Fs.copyFileSync p (A ++ [basename p]) (files w) = inr fs' →
  stageLoop env fuel A (Some s :: rest) hasAssets w
  = stageLoop env fuel A rest true
      {| files := fs';
         trace := trace w ++
           [ Log [VStr ("Copying asset: " +:+ render p)];
             Log [VStr ("✅ File copied: " +:+ render p +:+ " -> "
                        +:+ render (A ++ [basename p]))] ] |}.
Proof.
  intros p Hp Hc. subst p. simpl.
  unfold bind, ret, console_log, emit, onFiles, fsRead, fsTry, fsUpdate,
    Fs.existsSync, Fs.isDirectory.
  simpl in *. rewrite Hp. simpl. rewrite Hp. simpl. rewrite Hc. simpl.
  by rewrite <- app_assoc.
Qed.

(** The contents of a directory are copied into the assets directory. *)
Lemma stageLoop_dir (s : string) (rest : list (option string)) (hasAssets : bool)
    (w : world) (fs' : FS) :
  let p := resolve (process_cwd env) s in
  files w !! p = Some Dir →
  copyDirectoryContents fuel p A (files w) = Returns tt fs' →
  stageLoop env fuel A (Some s :: rest) hasAssets w
  = stageLoop env fuel A rest true
      {| files := fs';
         trace := trace w ++
           [ Log [VStr ("Copying asset: " +:+ render p)];
             Log [VStr ("✅ Directory contents copied: " +:+ render p +:+ " -> "
                        +:+ render A)] ] |}.
Proof.
  intros p Hp Hc. subst p. simpl.
  unfold bind, ret, console_log, emit, onFiles, fsRead, fsTry, fsUpdate,
    Fs.existsSync, Fs.isDirectory.
  simpl in *. rewrite Hp. simpl. rewrite Hp. simpl. rewrite Hc. simpl.
  by rewrite <- app_assoc.
Qed.
End StageSteps.

Section Staged.
Context (env : Env) (fuel : nat) (f d : string) (w : world) (b c : string).

Abbreviation fs := (files w).
Abbreviation A := (tempAssetsDirOf env).
Abbreviation pf := (resolve (process_cwd env) f).
Abbreviation pd := (resolve (process_cwd env) d).
Abbreviation bn := (basename (resolve (process_cwd env) f)).

Hypothesis Hwf : wf fs.
Hypothesis Htemp : fs !! tempDirOf env = Some Dir.
Hypothesis Hbundle : fs !! bundleFileOf env = Some (File b).
Hypothesis Hpf : fs !! pf = Some (File c).
Hypothesis Hpd : fs !! pd = Some Dir.
Hypothesis Hun : unrelated pd A.
Hypothesis Hdepth : ∀ r, is_Some (fs !! (pd ++ r)) → length r < S fuel.
Hypothesis Hcompat : compatible fs pd A.
Hypothesis HAbn : fs !! (A ++ [bn]) ≠ Some Dir.
Hypothesis Hdbn : fs !! (pd ++ [bn]) ≠ Some Dir.

Lemma A_eq : A = tempDirOf env ++ ["assets"].
Proof. reflexivity. Qed.

Lemma A_not_nil : A ≠ [].
Proof. rewrite A_eq. by destruct (tempDirOf env). Qed.

Lemma A_not_bundle (r : path) : A ++ r ≠ bundleFileOf env.
Proof.
  intros H. pose proof (bundle_outside_assets env) as Hu. fold A in Hu.
  by rewrite <- H, under_app in Hu.
Qed.

Lemma A_not_temp (r : path) : A ++ r ≠ tempDirOf env.
Proof.
  intros H. pose proof (tempDir_outside_assets env) as Hu. fold A in Hu.
  by rewrite <- H, under_app in Hu.
Qed.

Lemma source_not_staged (r r' : path) : pd ++ r ≠ A ++ r'.
Proof using Hun.
  intros H. pose proof (unrelated_source pd A r Hun) as Hs.
  by rewrite H, strip_app in Hs.
Qed.

Lemma A_parent : fs !! parent A = Some Dir.
Proof using Htemp.
  replace (parent A) with (tempDirOf env); [done |]. by rewrite A_eq, parent_snoc.
Qed.

Lemma A_dir_or_missing : fs !! A = None ∨ fs !! A = Some Dir.
Proof using Hcompat Hpd.
  destruct (fs !! A) as [e|] eqn:E; [right | by left].
  pose proof (Hcompat [] Dir e) as H. rewrite !app_nil_r in H.
  specialize (H Hpd E). by destruct e.
Qed.

Lemma withAssetsDir_spec :
  wf (withAssetsDir env fs) ∧ (withAssetsDir env fs) !! A = Some Dir
  ∧ ∀ k, k ≠ A → (withAssetsDir env fs) !! k = fs !! k.
Proof using Hwf Htemp Hcompat Hpd.
  unfold withAssetsDir. destruct A_dir_or_missing as [E|E]; rewrite E; [|done].
  split; [apply wf_insert; [done | intros _; apply A_parent | by left] |].
  split; [by rewrite lookup_insert_eq |]. intros k Hk. by rewrite lookup_insert_ne.
Qed.

Lemma stageAssets_start (l : list (option string)) :
  l ≠ [] →
  stageAssets env fuel l w
  = (let! hasAssets := stageLoop env fuel A l false in
     when hasAssets (injectHelper (bundleFileOf env)) >>
     console_log [VStr "✅ Assets copying complete"] >>
     ret hasAssets)
      {| files := (withAssetsDir env fs);
         trace := trace w ++ [Log [VStr "📂 Copying assets..."]] |}.
Proof using Hwf Htemp Hcompat Hpd.
  intros Hl. unfold stageAssets.
  rewrite bool_decide_eq_true_2 by (destruct l; [done | simpl; lia]).
  fold (tempAssetsDirOf env). fold A.
  unfold bind at 1, console_log at 1, emit at 1. unfold bind at 1, onFiles at 1, fsRead.
  simpl files. simpl trace. fold fs.
  set (w0 := {| files := fs; trace := trace w ++ [Log [VStr "📂 Copying assets..."]] |}).
  assert (when (negb (Fs.existsSync fs A)) (onFiles (fsUpdate (Fs.mkdirSync A))) w0
          = Returns tt {| files := (withAssetsDir env fs); trace := trace w0 |}) as Hmk.
  { unfold Fs.existsSync, withAssetsDir.
    destruct A_dir_or_missing as [E|E]; rewrite E; simpl; [|done].
    unfold onFiles, fsUpdate. simpl.
    rewrite mkdirSync_ok; [done | done | apply A_not_nil | apply A_parent | done]. }
  unfold bind at 1. by rewrite Hmk.
Qed.

(** Injecting the helper once the loop is over. *)
Lemma stageAssets_finish (fs3 : FS) (t : list event) :
  (∀ k, under A k = false → fs3 !! k = fs !! k) →
  (when true (injectHelper (bundleFileOf env)) >>
   console_log [VStr "✅ Assets copying complete"] >>
   ret true) {| files := fs3; trace := t |}
  = Returns true
      {| files := <[bundleFileOf env := File (assetHelperCode +:+ b)]> fs3;
         trace := t ++ [ Log [VStr "📝 Adding asset helper code to bundle..."];
                         Log [VStr "✅ Asset helper code added to bundle"];
                         Log [VStr "✅ Assets copying complete"] ] |}.
Proof using Hbundle Htemp.
  intros Hout.
  assert (fs3 !! bundleFileOf env = Some (File b)) as Hb3.
  { rewrite Hout; [done | apply bundle_outside_assets]. }
  simpl when.
  unfold bind at 1, injectHelper, bind, console_log, emit, onFiles, fsTry, fsUpdate,
    Fs.readFileSync. simpl. rewrite Hb3. simpl.
  rewrite writeFileSync_ok;
    [| by rewrite Hb3 | | rewrite bundleFileOf_eq; by destruct (tempDirOf env)].
  2:{ rewrite bundleFileOf_eq, parent_snoc, Hout; [done | apply tempDir_outside_assets]. }
  simpl. unfold ret. rewrite <- !app_assoc. reflexivity.
Qed.

(** The file first: an entry of the directory with the name of the
    file replaces it. *)
Lemma file_then_directory :
  ∃ w', stageAssets env fuel [Some f; Some d] w = Returns true w'
    ∧ stagedFrom env fs pd bn (files w')
    ∧ files w' !! (A ++ [bn])
      = Some (default (File c) (fs !! (pd ++ [bn]))).
Proof using All.
  destruct withAssetsDir_spec as (Hwf1 & HA1 & Hfs1).
  set (fs1 := (withAssetsDir env fs)) in *.
  set (fs2 := <[A ++ [bn] := File c]> fs1).
  assert (pf ≠ A) as HpfA.
  { intros E. rewrite E in Hpf. destruct A_dir_or_missing as [E'|E']; by rewrite E' in Hpf. }
  assert (A ++ [bn] ≠ A) as HbnA.
  { intros H. apply (f_equal length) in H. rewrite length_app in H. simpl in H. lia. }
  assert (Fs.copyFileSync pf (A ++ [bn]) fs1 = inr fs2) as Hcopy1.
  { apply copyFileSync_ok; [by rewrite Hfs1 | by rewrite Hfs1 | by rewrite parent_snoc
                            | by destruct A]. }
  assert (wf fs2) as Hwf2.
  { apply wf_insert; [done | by rewrite parent_snoc | right; by rewrite Hfs1]. }
  assert (∀ r, fs2 !! (pd ++ r) = fs !! (pd ++ r)) as Hsrc2.
  { intros r. unfold fs2. rewrite lookup_insert_ne by (apply not_eq_sym, source_not_staged).
    apply Hfs1. rewrite <- (app_nil_r A). apply source_not_staged. }
  destruct (copyDirectoryContents_ok fuel pd A fs2) as (fs3 & Hcopy2 & Hwf3 & Hfs3);
    try done.
  { rewrite <- (app_nil_r pd), Hsrc2, app_nil_r. done. }
  { apply A_not_nil. }
  { unfold fs2. rewrite lookup_insert_ne.
    - rewrite Hfs1; [apply A_parent |]. apply parent_ne, A_not_nil.
    - replace (parent A) with (tempDirOf env) by (by rewrite A_eq, parent_snoc).
      apply A_not_temp. }
  { intros r e e'. rewrite Hsrc2. intros H1. unfold fs2.
    destruct (decide (r = [bn])) as [->|Hr].
    - rewrite lookup_insert_eq. intros [= <-]. destruct e; [done | by rewrite H1 in Hdbn].
    - rewrite lookup_insert_ne by (by intros ?%app_inv_head).
      destruct (decide (r = [])) as [->|Hr'].
      + rewrite !app_nil_r in *. rewrite HA1. intros [= <-].
        rewrite Hpd in H1. by injection H1 as <-.
      + rewrite Hfs1; [by apply Hcompat |]. intros E. rewrite <- (app_nil_r A) in E at 2.
        by apply app_inv_head in E. }
  { intros r. rewrite Hsrc2. apply Hdepth. }
  assert (∀ k, under A k = false → fs3 !! k = fs !! k) as Hout.
  { intros k Hk. rewrite Hfs3. unfold grafted, under in *.
    destruct (strip A k) eqn:Es; [done |]. unfold fs2. rewrite lookup_insert_ne.
    - apply Hfs1. intros ->. by rewrite strip_refl in Es.
    - intros <-. by rewrite strip_app in Es. }
  eexists. split.
  { rewrite stageAssets_start by done. unfold bind at 1.
    rewrite (stageLoop_file env fuel f [Some d] false _ c fs2); [|by rewrite Hfs1 | done].
    rewrite (stageLoop_dir env fuel d [] true _ fs3); [| |done].
    2:{ simpl. rewrite <- (app_nil_r (resolve _ d)). fold pd. rewrite Hsrc2, app_nil_r. done. }
    simpl stageLoop. unfold ret at 1. by apply stageAssets_finish. }
  simpl. split; [split; [|split] |].
  - rewrite lookup_insert_ne.
    + rewrite <- (app_nil_r A) at 1. rewrite Hfs3, grafted_target, Hsrc2, !app_nil_r.
      by rewrite Hpd.
    + intros E. apply (A_not_bundle []). by rewrite app_nil_r.
  - intros r e Hr _ He. rewrite lookup_insert_ne by (apply not_eq_sym, A_not_bundle).
    by rewrite Hfs3, grafted_target, Hsrc2, He.
  - intros r Hr Hrbn Hnone. rewrite lookup_insert_ne by (apply not_eq_sym, A_not_bundle).
    rewrite Hfs3, grafted_target, Hsrc2, Hnone. unfold fs2.
    rewrite lookup_insert_ne by (by intros ?%app_inv_head).
    apply Hfs1. intros E. rewrite <- (app_nil_r A) in E at 2. by apply app_inv_head in E.
  - rewrite lookup_insert_ne by (apply not_eq_sym, A_not_bundle).
    rewrite Hfs3, grafted_target, Hsrc2. destruct (fs !! (pd ++ [bn])); [done |].
    unfold fs2. by rewrite lookup_insert_eq.
Qed.

(** The directory first: the file replaces an entry of the directory
    with its name. *)
Lemma directory_then_file :
  under A pf = false →
  ∃ w', stageAssets env fuel [Some d; Some f] w = Returns true w'
    ∧ stagedFrom env fs pd bn (files w')
    ∧ files w' !! (A ++ [bn]) = Some (File c).
Proof using All.
  intros HpfA.
  destruct withAssetsDir_spec as (Hwf1 & HA1 & Hfs1).
  set (fs1 := (withAssetsDir env fs)) in *.
  assert (∀ r, fs1 !! (pd ++ r) = fs !! (pd ++ r)) as Hsrc1.
  { intros r. apply Hfs1. rewrite <- (app_nil_r A). apply source_not_staged. }
  destruct (copyDirectoryContents_ok fuel pd A fs1) as (fs2 & Hcopy1 & Hwf2 & Hfs2);
    try done.
  { rewrite <- (app_nil_r pd), Hsrc1, app_nil_r. done. }
  { apply A_not_nil. }
  { rewrite Hfs1; [apply A_parent |]. apply parent_ne, A_not_nil. }
  { intros r e e'. rewrite Hsrc1. intros H1.
    destruct (decide (r = [])) as [->|Hr'].
    - rewrite !app_nil_r in *. rewrite HA1. intros [= <-].
      rewrite Hpd in H1. by injection H1 as <-.
    - rewrite Hfs1; [by apply Hcompat |]. intros E. rewrite <- (app_nil_r A) in E at 2.
      by apply app_inv_head in E. }
  { intros r. rewrite Hsrc1. apply Hdepth. }
  set (fs3 := <[A ++ [bn] := File c]> fs2).
  assert (fs2 !! pf = Some (File c)) as Hpf2.
  { rewrite Hfs2. unfold grafted, under in *. destruct (strip A pf) eqn:Es; [done |].
    rewrite Hfs1; [done |]. intros E. by rewrite E, strip_refl in Es. }
  assert (fs2 !! A = Some Dir) as HA2.
  { rewrite <- (app_nil_r A) at 1. rewrite Hfs2, grafted_target, Hsrc1, !app_nil_r.
    by rewrite Hpd. }
  assert (A ++ [bn] ≠ A) as HbnA.
  { intros H. apply (f_equal length) in H. rewrite length_app in H. simpl in H. lia. }
  assert (Fs.copyFileSync pf (A ++ [bn]) fs2 = inr fs3) as Hcopy2.
  { apply copyFileSync_ok; [done | | by rewrite parent_snoc | by destruct A].
    rewrite Hfs2, grafted_target, Hsrc1.
    destruct (fs !! (pd ++ [bn])) as [e|] eqn:E; [congruence |].
    by rewrite Hfs1. }
  assert (∀ k, under A k = false → fs3 !! k = fs !! k) as Hout.
  { intros k Hk. unfold fs3. rewrite lookup_insert_ne.
    - rewrite Hfs2. unfold grafted, under in *. destruct (strip A k) eqn:Es; [done |].
      apply Hfs1. intros ->. by rewrite strip_refl in Es.
    - intros <-. by rewrite under_app in Hk. }
  eexists. split.
  { rewrite stageAssets_start by done. unfold bind at 1.
    rewrite (stageLoop_dir env fuel d [Some f] false _ fs2); [| |done].
    2:{ simpl. rewrite <- (app_nil_r (resolve _ d)). fold pd. rewrite Hsrc1, app_nil_r. done. }
    rewrite (stageLoop_file env fuel f [] true _ c fs3); [|done | done].
    simpl stageLoop. unfold ret at 1. by apply stageAssets_finish. }
  simpl. split; [split; [|split] |].
  - rewrite lookup_insert_ne.
    + unfold fs3. by rewrite lookup_insert_ne.
    + intros E. apply (A_not_bundle []). by rewrite app_nil_r.
  - intros r e Hr Hrbn He. rewrite lookup_insert_ne by (apply not_eq_sym, A_not_bundle).
    unfold fs3. rewrite lookup_insert_ne by (by intros ?%app_inv_head).
    by rewrite Hfs2, grafted_target, Hsrc1, He.
  - intros r Hr Hrbn Hnone. rewrite lookup_insert_ne by (apply not_eq_sym, A_not_bundle).
    unfold fs3. rewrite lookup_insert_ne by (by intros ?%app_inv_head).
    rewrite Hfs2, grafted_target, Hsrc1, Hnone.
    apply Hfs1. intros E. rewrite <- (app_nil_r A) in E at 2. by apply app_inv_head in E.
  - rewrite lookup_insert_ne by (apply not_eq_sym, A_not_bundle).
    unfold fs3. by rewrite lookup_insert_eq.
Qed.
End Staged.

(** C3, amended: for a file [f] and a directory [d] in the state after
    bundling, with [d] apart from the assets directory, where no name is
    a file on one side and a directory on the other, neither between [f]
    and the entries of [d] nor between either of them and what the
    assets directory already holds, staging returns in both orders, and
    the assets directory holds the entries of [d] directly, at the paths
    they have below [d], and [f] under its base name; when [d] has a file
    of that name too, the one staged last is there. *)
Theorem file_and_directory_staged (env : Env) (fuel : nat) (f d : string) (w : world)
    (b c : string) :
  let fs := files w in
  let A := tempAssetsDirOf env in
  let pf := resolve (process_cwd env) f in
  let pd := resolve (process_cwd env) d in
  let bn := basename pf in
  (* the state after bundling *)
  wf fs →
  fs !! tempDirOf env = Some Dir →
  fs !! bundleFileOf env = Some (File b) →
  (* the two assets *)
  fs !! pf = Some (File c) →
  fs !! pd = Some Dir →
  unrelated pd A →
  (∀ r, is_Some (fs !! (pd ++ r)) → length r < S fuel) →
  (* no file meets a directory of the same name *)
  compatible fs pd A →
  fs !! (A ++ [bn]) ≠ Some Dir →
  fs !! (pd ++ [bn]) ≠ Some Dir →
  (* the file first: an entry of the directory with its name wins *)
  (∃ w', stageAssets env fuel [Some f; Some d] w = Returns true w'
         ∧ stagedFrom env fs pd bn (files w')
         ∧ files w' !! (A ++ [bn]) = Some (default (File c) (fs !! (pd ++ [bn]))))
  (* the directory first: the file wins *)
  ∧ (under A pf = false →
     ∃ w', stageAssets env fuel [Some d; Some f] w = Returns true w'
           ∧ stagedFrom env fs pd bn (files w')
           ∧ files w' !! (A ++ [bn]) = Some (File c)).
Proof.
  intros fs A pf pd bn Hwf Htemp Hbundle Hpf Hpd Hun Hdepth Hcompat HAbn Hdbn. split.
  - by apply (file_then_directory env fuel f d w b c).
  - by apply (directory_then_file env fuel f d w b c).
Qed.

(** ** Checking the hypotheses on a given file system *)

Lemma allEntries_lookup (check : path → entry → bool) (fs : FS) (k : path) (e : entry) :
  allEntries check fs = true → fs !! k = Some e → check k e = true.
Proof.
  intros H Hk. unfold allEntries in H. rewrite forallb_forall in H.
  apply (H (k, e)). apply list_elem_of_In. by apply elem_of_map_to_list.
Qed.

Lemma wfCheck_wf (fs : FS) : wfCheck fs = true → wf fs.
Proof.
  intros H k e Hk Hne. apply (allEntries_lookup _ _ _ _ H) in Hk.
  destruct k; [done |]. by destruct (fs !! parent (s :: k)) as [[]|].
Qed.

Lemma depthCheck_depth (fs : FS) (src : path) (depth : nat) :
  depthCheck fs src depth = true →
  ∀ r, is_Some (fs !! (src ++ r)) → length r < depth.
Proof.
  intros H r [e He]. apply (allEntries_lookup _ _ _ _ H) in He.
  rewrite strip_app in He. by apply bool_decide_eq_true in He.
Qed.

Lemma compatibleCheck_compatible (fs : FS) (src dst : path) :
  compatibleCheck fs src dst = true → compatible fs src dst.
Proof.
  intros H r e e' He He'. apply (allEntries_lookup _ _ _ _ H) in He.
  rewrite strip_app, He' in He. by apply bool_decide_eq_true in He.
Qed.

(** ** Examples *)

Lemma returned_worldOf {A : Type} (o : outcome world A) (a : A) :
  returned o = Some a → o = Returns a (worldOf o).
Proof. destruct o; simpl; congruence. Qed.

Lemma thrown_worldOf {A : Type} (o : outcome world A) (e : error) :
  thrown o = Some e → o = Throws e (worldOf o).
Proof. destruct o; simpl; congruence. Qed.

Lemma ended_worldOf {A : Type} (o : outcome world A) :
  ended o = true → final o = Some (worldOf o).
Proof. by destruct o. Qed.

Lemma called_execs (t : list event) : called t = true → execs t ≠ [].
Proof. unfold called. by destruct (execs t). Qed.

Lemma called_In (t : list event) :
  called t = true → In (Exec (callOf t).1 (callOf t).2) t.
Proof.
  unfold called, callOf. destruct (execs t) as [|ev l] eqn:E; [done |]. intros _.
  assert (In ev (execs t)) as Hin by (rewrite E; by left).
  unfold execs in Hin. apply List.filter_In in Hin as [Hin Hex].
  by destruct ev.
Qed.

Lemma bundlerWrites_example : bundlerWrites exampleEnv "B".
Proof. intros o fs. reflexivity. Qed.

(** ** The theorems on examples *)

Lemma compile_entry_not_found_witness :
  let entryPointPath := resolve (process_cwd exampleEnv) (entryPoint missingEntryOptions) in
  ∃ w, run (Earlier.compile exampleEnv 0 missingEntryOptions) exampleFs
         = Throws (Error ("File not found: " +:+ render entryPointPath)) w
       ∧ files w = exampleFs
       ∧ invocations (trace w) = 0.
Proof.
  apply (compile_entry_not_found exampleEnv 0 missingEntryOptions exampleFs).
  - vm_compute. reflexivity.
  - right. reflexivity.
Defined.

Lemma packager_targets_witness :
  let w := worldOf (run (compile exampleEnv 0 plainOptions) exampleFs) in
  ∃ targets opt,
    (callOf (trace w)).1
    = "npx pkg " +:+ render (bundleFileOf exampleEnv) +:+ " --targets "
      +:+ String.concat "," targets +:+ " " +:+ opt
      +:+ " --output " +:+ str (outFile plainOptions)
    ∧ targets = pkgTargets "18" "all"
    ∧ ("all" = "all" →
       targets = [ "node" +:+ "18" +:+ "-win-x64"; "node" +:+ "18" +:+ "-macos-x64";
                   "node" +:+ "18" +:+ "-linux-x64" ])
    ∧ ("all" ≠ "all" → targets = [ "node" +:+ "18" +:+ "-" +:+ "all" +:+ "-x64" ]).
Proof.
  intros w.
  apply (packager_targets exampleEnv 0 plainOptions exampleFs "18" "all" w
           (callOf (trace w)).1 (callOf (trace w)).2 eq_refl eq_refl compile).
  - left. reflexivity.
  - apply (ended_worldOf (run (compile exampleEnv 0 plainOptions) exampleFs)).
    vm_compute. reflexivity.
  - apply (called_In (trace w)). vm_compute. reflexivity.
Defined.

(** A run whose packager fails: the error comes back and the temp
    directory is gone. *)
Lemma staging_removed_witness :
  let w := worldOf (run (compile failingEnv 0 plainOptions) exampleFs) in
  Fs.existsSync (files w) (tempDirOf failingEnv) = false
  ∧ (∀ k, under (tempDirOf failingEnv) k = true → files w !! k = None)
  ∧ (∀ cmd fs1 e,
       In (Exec cmd fs1) (trace w) → (shell failingEnv cmd fs1).2 = Some e →
       run (compile failingEnv 0 plainOptions) exampleFs = Throws e w
       ∧ In (ErrorLog [VStr "❌ Error creating executable:"; VError e]) (trace w)).
Proof.
  intros w. apply (staging_removed failingEnv 0 plainOptions exampleFs w).
  - right. exists (Error "pkg failed").
    apply (thrown_worldOf (run (compile failingEnv 0 plainOptions) exampleFs)).
    vm_compute. reflexivity.
  - apply (called_execs (trace w)). vm_compute. reflexivity.
Defined.

(** A run with one listed asset, which is missing: the packager runs. *)
Lemma missing_assets_skipped_witness :
  let options := withAssets plainOptions (AssetList [Some "nope"]) in
  ∃ w cmd,
    (run (compile exampleEnv 0 options) exampleFs = Returns tt w
     ∨ ∃ e, run (compile exampleEnv 0 options) exampleFs = Throws e w)
    ∧ execs (trace w)
      = [Exec cmd (if [Some "nope"] is [] then bundled exampleEnv exampleFs "B"
                   else <[tempAssetsDirOf exampleEnv := Dir]>
                          (bundled exampleEnv exampleFs "B"))]
    ∧ ∀ s, In (Some s) [Some "nope"] → In (notFound exampleEnv s) (trace w).
Proof.
  intros options.
  apply (proj2 (proj2 (missing_assets_skipped exampleEnv 0))
           options exampleFs "B" [Some "nope"]).
  - apply wfCheck_wf. vm_compute. reflexivity.
  - vm_compute. reflexivity.
  - vm_compute. reflexivity.
  - vm_compute. reflexivity.
  - apply bundlerWrites_example.
  - reflexivity.
  - intros a [<-|[]]. exists "nope". split; [reflexivity |]. split; vm_compute; reflexivity.
Defined.

(** The example of the specification, [config.json] and [images/] with
    [a.png] in it; and a file [a.png] with that directory, where the one
    staged last is there. *)
Lemma file_and_directory_staged_witness :
  let A := tempAssetsDirOf exampleEnv in
  let pd := resolve (process_cwd exampleEnv) "images" in
  (let fs := files bundledWorld in
   let pf := resolve (process_cwd exampleEnv) "config.json" in
   let bn := basename pf in
   (∃ w', stageAssets exampleEnv 1 [Some "config.json"; Some "images"] bundledWorld
          = Returns true w'
          ∧ stagedFrom exampleEnv fs pd bn (files w')
          ∧ files w' !! (A ++ [bn]) = Some (default (File "{}") (fs !! (pd ++ [bn]))))
   ∧ (under A pf = false →
      ∃ w', stageAssets exampleEnv 1 [Some "images"; Some "config.json"] bundledWorld
            = Returns true w'
            ∧ stagedFrom exampleEnv fs pd bn (files w')
            ∧ files w' !! (A ++ [bn]) = Some (File "{}")))
  ∧ (let w := {| files := bundled exampleEnv sameNameFs "B"; trace := [] |} in
     let fs := files w in
     let pf := resolve (process_cwd exampleEnv) "a.png" in
     let bn := basename pf in
     (∃ w', stageAssets exampleEnv 1 [Some "a.png"; Some "images"] w = Returns true w'
            ∧ stagedFrom exampleEnv fs pd bn (files w')
            ∧ files w' !! (A ++ [bn]) = Some (default (File "top") (fs !! (pd ++ [bn]))))
     ∧ (under A pf = false →
        ∃ w', stageAssets exampleEnv 1 [Some "images"; Some "a.png"] w = Returns true w'
              ∧ stagedFrom exampleEnv fs pd bn (files w')
              ∧ files w' !! (A ++ [bn]) = Some (File "top"))).
Proof.
  intros A pd. split.
  - apply (file_and_directory_staged exampleEnv 1 "config.json" "images" bundledWorld
             "B" "{}").
    + apply wfCheck_wf. vm_compute. reflexivity.
    + vm_compute. reflexivity.
    + vm_compute. reflexivity.
    + vm_compute. reflexivity.
    + vm_compute. reflexivity.
    + split; vm_compute; reflexivity.
    + apply depthCheck_depth. vm_compute. reflexivity.
    + apply compatibleCheck_compatible. vm_compute. reflexivity.
    + vm_compute. discriminate.
    + vm_compute. discriminate.
  - apply (file_and_directory_staged exampleEnv 1 "a.png" "images"
             {| files := bundled exampleEnv sameNameFs "B"; trace := [] |} "B" "top").
    + apply wfCheck_wf. vm_compute. reflexivity.
    + vm_compute. reflexivity.
    + vm_compute. reflexivity.
    + vm_compute. reflexivity.
    + vm_compute. reflexivity.
    + split; vm_compute; reflexivity.
    + apply depthCheck_depth. vm_compute. reflexivity.
    + apply compatibleCheck_compatible. vm_compute. reflexivity.
    + vm_compute. discriminate.
    + vm_compute. discriminate.
Defined.

(** On these examples: the assets directory holds [config.json] and
    [a.png], and no [images]; and of the two [a.png] the one staged last. *)
Example staged_example :
  let A := tempAssetsDirOf exampleEnv in
  (let fs' := files (worldOf (stageAssets exampleEnv 1 [Some "config.json"; Some "images"]
                                bundledWorld)) in
   fs' !! (A ++ ["config.json"]) = Some (File "{}")
   ∧ fs' !! (A ++ ["a.png"]) = Some (File "png")
   ∧ fs' !! (A ++ ["images"]) = None)
  ∧ (let w := {| files := bundled exampleEnv sameNameFs "B"; trace := [] |} in
     files (worldOf (stageAssets exampleEnv 1 [Some "a.png"; Some "images"] w))
       !! (A ++ ["a.png"]) = Some (File "png")
     ∧ files (worldOf (stageAssets exampleEnv 1 [Some "images"; Some "a.png"] w))
         !! (A ++ ["a.png"]) = Some (File "top")).
Proof.
  repeat split; vm_compute; reflexivity.
Qed.

(** * Further properties of the code *)

(** ** The directory copies as operations on trees *)

Lemma copies_weaken (copy : path → path → M FS unit) (depth depth' : nat) :
  (depth' ≤ depth)%nat → copies copy depth → copies copy depth'.
Proof.
  intros Hle H src dst fs Hwf Hun Hsrc Hdst Hpar Hcompat Hdepth.
  apply H; try done. intros r Hr. specialize (Hdepth r Hr). lia.
Qed.

(** X1: on a well-formed file system, for a source directory apart from
    the target whose parent exists, with no file meeting a directory of
    the same name and within the recursion bound, [copyDirectoryRecursive]
    and [copyDirectoryContents] return; afterwards every entry below the
    source is at the same relative path below the target, what else was
    below the target is still there, and nothing outside the target has
    changed. *)
Theorem directory_copy_result (fuel : nat) (src dst : path) (fs : FS) :
  wf fs →
  unrelated src dst →
  fs !! src = Some Dir →
  dst ≠ [] → fs !! parent dst = Some Dir →
  compatible fs src dst →
  (∀ r, is_Some (fs !! (src ++ r)) → length r < fuel) →
  ∀ copy, copy = copyDirectoryRecursive fuel ∨ copy = copyDirectoryContents fuel →
  ∃ fs', copy src dst fs = Returns tt fs'
    ∧ wf fs'
    ∧ (∀ r e, fs !! (src ++ r) = Some e → fs' !! (dst ++ r) = Some e)
    ∧ (∀ r, fs !! (src ++ r) = None → fs' !! (dst ++ r) = fs !! (dst ++ r))
    ∧ (∀ k, under dst k = false → fs' !! k = fs !! k).
Proof.
  intros Hwf Hun Hsrc Hdst Hpar Hcompat Hdepth copy Hcopy.
  assert (copies copy fuel) as Hc.
  { destruct Hcopy as [->| ->]; [apply copyDirectoryRecursive_ok |].
    apply (copies_weaken _ (S fuel)); [lia | apply copyDirectoryContents_ok]. }
  destruct (Hc src dst fs) as (fs' & Hrun & Hwf' & Hfs'); try done.
  exists fs'. split; [done |]. split; [done |]. repeat split.
  - intros r e He. by rewrite Hfs', grafted_target, He.
  - intros r He. by rewrite Hfs', grafted_target, He.
  - intros k Hk. rewrite Hfs'. unfold grafted, under in *.
    by destruct (strip dst k).
Qed.

(** X2: however a directory copy ends, by returning or by throwing half
    way, no entry outside the target has changed or gone, no entry
    anywhere has gone or changed from file to directory or back, and a
    well-formed file system stays well-formed. *)
Theorem directory_copy_frame (fuel : nat) (src dst : path) (fs fs' : FS) :
  ∀ copy, copy = copyDirectoryRecursive fuel ∨ copy = copyDirectoryContents fuel →
  final (copy src dst fs) = Some fs' →
  (∀ k, under dst k = false → is_Some (fs !! k) → fs' !! k = fs !! k)
  ∧ (∀ k e, fs !! k = Some e → ∃ e', fs' !! k = Some e' ∧ isDirEntry e' = isDirEntry e)
  ∧ (wf fs → wf fs').
Proof.
  intros copy Hcopy Hfin.
  assert (preserves dst fs fs') as (Ht & Hk & Hw).
  { destruct Hcopy as [->| ->].
    - by apply (copyDirectoryRecursive_preserves fuel src dst).
    - by apply (copyDirectoryContents_preserves fuel src dst). }
  split; [|done]. intros k Hu Hs. apply Ht; [done | by left].
Qed.

(** X3: a directory copy from a source that does not exist throws ENOENT
    for the source; when the target did not exist either, it has been
    created by then and stays behind. *)
Theorem directory_copy_missing_source (fuel : nat) (src dst : path) (fs : FS) :
  fs !! src = None →
  under src dst = false →
  ∀ copy, copy = copyDirectoryRecursive (S fuel) ∨ copy = copyDirectoryContents fuel →
  (is_Some (fs !! dst) →
   copy src dst fs = Throws (SystemError "ENOENT" src) fs)
  ∧ (wf fs → fs !! dst = None → dst ≠ [] → fs !! parent dst = Some Dir →
     copy src dst fs = Throws (SystemError "ENOENT" src) (<[dst := Dir]> fs)).
Proof.
  intros Hsrc Hu copy Hcopy.
  assert (copy src dst = copyBody (copyDirectoryRecursive fuel) src dst) as ->.
  { by destruct Hcopy as [->| ->]. }
  unfold copyBody, bind, fsRead, fsTry, when, Fs.existsSync. split.
  - intros [e He]. rewrite He. simpl. unfold ret, Fs.readdirSync. by rewrite Hsrc.
  - intros Hwf Hdst Hne Hpar. rewrite Hdst. simpl. unfold fsUpdate.
    rewrite mkdirSync_ok by done. unfold Fs.readdirSync.
    rewrite lookup_insert_ne; [by rewrite Hsrc |].
    intros ->. by rewrite under_refl in Hu.
Qed.

(** ** Failures before step 3 *)

Lemma bundleStep_fails (env : Env) (nodeVersion : string) (entryPointPath : path)
    (w : world) (fs1 : FS) (e : error) :
  withTempDir env (files w) = inr fs1 →
  (esbuild env (buildOptionsOf env nodeVersion entryPointPath) fs1).2 = Some e →
  bundleStep env nodeVersion entryPointPath w
  = Throws e
      {| files := (esbuild env (buildOptionsOf env nodeVersion entryPointPath) fs1).1;
         trace := trace w ++
           [ Log [VStr "Temp directory:"; VPath (tempDirOf env)];
             Log [VStr "Bundle file:"; VPath (bundleFileOf env)];
             Build (buildOptionsOf env nodeVersion entryPointPath) fs1;
             ErrorLog [VStr "❌ Error bundling with esbuild:"; VError e] ] |}.
Proof.
  intros Htemp Hfail. unfold withTempDir in Htemp.
  unfold bundleStep, bind, console_log, console_error, emit, onFiles, fsRead, when,
    tryCatch, esbuild_build, call, throw. simpl.
  fold (buildOptionsOf env nodeVersion entryPointPath).
  destruct (Fs.existsSync (files w) (tempDirOf env)); simpl.
  - injection Htemp as <-. rewrite Hfail. simpl. by rewrite <- !app_assoc.
  - unfold fsUpdate. rewrite Htemp. simpl. rewrite Hfail. simpl. by rewrite <- !app_assoc.
Qed.

Lemma checkEntry_found (env : Env) (entryPoint : string) (w : world) :
  Fs.existsSync (files w) (resolve (process_cwd env) entryPoint) = true →
  checkEntry env entryPoint w
  = Returns (resolve (process_cwd env) entryPoint)
      {| files := files w;
         trace := trace w ++
           [ Log [VStr "📦 Bundling TypeScript code..."];
             Log [VStr "Current working directory:"; VPath (process_cwd env)];
             Log [VStr "Entry point (raw):"; VStr entryPoint];
             Log [VStr "Entry point (resolved):";
                  VPath (resolve (process_cwd env) entryPoint)] ] |}.
Proof.
  intros H. unfold checkEntry, bind, console_log, emit, onFiles, fsRead, when. simpl.
  rewrite H. simpl. by rewrite <- !app_assoc.
Qed.

(** X6: when the bundler fails with [e], [compile] logs [e] and throws
    [e] without calling the packager and without any cleanup: the files
    are as the bundler left them, so a temp directory that the bundler
    left in place is still there.  The same holds of the earlier
    revision. *)
Theorem bundler_failure_leaves_temp (env : Env) (fuel : nat) (options : CompileOptions)
    (fs fs1 : FS) (e : error) :
  let entryPointPath := resolve (process_cwd env) (entryPoint options) in
  let buildOptions :=
    buildOptionsOf env (default "16" (nodeVersion options)) entryPointPath in
  Fs.existsSync fs entryPointPath = true →
  withTempDir env fs = inr fs1 →
  (esbuild env buildOptions fs1).2 = Some e →
  ∀ revision, revision = compile ∨ revision = Earlier.compile →
  ∃ w, run (revision env fuel options) fs = Throws e w
    ∧ files w = (esbuild env buildOptions fs1).1
    ∧ In (ErrorLog [VStr "❌ Error bundling with esbuild:"; VError e]) (trace w)
    ∧ execs (trace w) = []
    ∧ (Fs.existsSync (esbuild env buildOptions fs1).1 (tempDirOf env) = true →
       Fs.existsSync (files w) (tempDirOf env) = true).
Proof.
  intros entryPointPath buildOptions Hentry Htemp Hfail revision Hrev.
  eexists. split.
  - destruct Hrev as [->| ->]; unfold run, compile, Earlier.compile, bind;
      rewrite checkEntry_found by done;
      erewrite bundleStep_fails by (simpl; eauto); reflexivity.
  - simpl. split; [done |]. split.
    + in_trace.
    + split; [done |]. done.
Qed.

Lemma assetsOption_dir (env : Env) (w : world) :
  files w !! readmePathOf env = Some Dir →
  assetsOption env true w = Throws (SystemError "EISDIR" (readmePathOf env)) w.
Proof.
  intros H. unfold assetsOption, bind, onFiles, fsUpdate.
  change (join (join (tempDirOf env) "assets") "README.md") with (readmePathOf env).
  unfold Fs.writeFileSync. rewrite H. by destruct w.
Qed.

(** X10: when a directory was staged under the name README.md, [compile]
    throws EISDIR for that path before the packager is called, and the
    files stay as staging left them: the temp directory is not removed. *)
Theorem readme_failure_skips_cleanup (env : Env) (fuel : nat) (options : CompileOptions)
    (fs : FS) (w0 : world) :
  run (beforePackaging env fuel options) fs = Returns true w0 →
  files w0 !! readmePathOf env = Some Dir →
  ∃ w, run (compile env fuel options) fs
       = Throws (SystemError "EISDIR" (readmePathOf env)) w
    ∧ files w = files w0
    ∧ execs (trace w) = [].
Proof.
  intros Hbefore Hdir. unfold run in *. rewrite compile_phases. unfold bind at 1.
  rewrite Hbefore.
  unfold packageStep, bind, console_log, emit.
  rewrite assetsOption_dir by done.
  eexists. split; [reflexivity |]. simpl. split; [done |].
  rewrite execs_snoc, app_nil_r.
  pose proof (quiet_beforePackaging env fuel options _ _
                (f_equal final Hbefore)) as Hq.
  exact Hq.
Qed.


(** ** Staging writes below the temp directory only *)

Lemma always_mono {S A : Type} (R R' : S → S → Prop) (m : M S A) :
  (∀ s s', R s s' → R' s s') → always R m → always R' m.
Proof. intros HR H s s' Hf. by apply HR, H. Qed.

Lemma writeFileSync_preserves (p : path) (data : string) (fs fs' : FS) :
  Fs.writeFileSync p data fs = inr fs' → preserves p fs fs'.
Proof.
  intros H. apply writeFileSync_inr in H as (-> & Hdir & Hpar & Hne).
  split; [|split].
  - intros k Hk _. rewrite lookup_insert_ne; [done |]. intros <-. by rewrite under_refl in Hk.
  - intros k e Hk. destruct (decide (k = p)) as [->|Hkp].
    + rewrite lookup_insert_eq. exists (File data). split; [done |].
      destruct e; [done | by rewrite Hk in Hdir].
    + rewrite lookup_insert_ne by done. eauto.
  - intros Hwf. apply wf_insert; auto.
Qed.

Lemma stageAssets_preserves (env : Env) (fuel : nat) (assetsArray : list (option string)) :
  always (onWorld (preserves (tempDirOf env))) (stageAssets env fuel assetsArray).
Proof.
  set (T := onWorld (preserves (tempDirOf env))).
  assert (∀ w, T w w) as Tr by (intros w; apply preserves_refl).
  assert (∀ w1 w2 w3, T w1 w2 → T w2 w3 → T w1 w3) as Tt
    by (intros w1 w2 w3; apply preserves_trans).
  pose proof (preserves_refl (tempDirOf env)) as Hr.
  unfold stageAssets. destruct (bool_decide _); [|by apply always_ret].
  fold (tempAssetsDirOf env).
  apply (always_bind T Tt); [by apply onWorld_emit | intros _].
  apply (always_bind T Tt); [apply onWorld_onFiles; by apply always_fsRead | intros present].
  apply (always_bind T Tt); [|intros _].
  { apply always_when; [done |]. apply onWorld_onFiles, always_fsUpdate; [done |].
    intros fs fs' H. apply (preserves_snoc _ "assets"). by apply mkdirSync_preserves. }
  apply (always_bind T Tt); [|intros hasAssets].
  { eapply always_mono; [|apply stageLoop_preserves].
    intros w w'. apply (preserves_snoc _ "assets"). }
  apply (always_bind T Tt); [|intros _].
  { apply always_when; [done |]. unfold injectHelper.
    apply (always_bind T Tt); [by apply onWorld_emit | intros _].
    apply (always_bind T Tt); [apply onWorld_onFiles; by apply always_fsTry | intros b].
    apply (always_bind T Tt); [|intros _; by apply onWorld_emit].
    apply onWorld_onFiles, always_fsUpdate; [done |].
    intros fs fs' H. apply (preserves_snoc _ "bundle.js"). by eapply writeFileSync_preserves. }
  apply (always_bind T Tt); [by apply onWorld_emit | intros _].
  by apply always_ret.
Qed.

(** X11: however step 2 ends, every entry outside the temp directory
    that existed before is unchanged, and no entry at all has gone or
    changed from file to directory or back: staging reads the listed
    assets and writes below the temp directory only. *)
Theorem staging_keeps_user_files (env : Env) (fuel : nat)
    (assetsArray : list (option string)) (w w' : world) :
  final (stageAssets env fuel assetsArray w) = Some w' →
  (∀ k, under (tempDirOf env) k = false → is_Some (files w !! k) →
        files w' !! k = files w !! k)
  ∧ (∀ k e, files w !! k = Some e →
            ∃ e', files w' !! k = Some e' ∧ isDirEntry e' = isDirEntry e).
Proof.
  intros Hfin. destruct (stageAssets_preserves env fuel assetsArray w w' Hfin) as (Ht & Hk & _).
  split; [|done]. intros k Hu Hs. apply Ht; [done | by left].
Qed.

(** ** The copy beside the executable *)

Lemma exeAssetsDirOf_eq (env : Env) (dir : string) :
  exeAssetsDirOf env dir = resolve (process_cwd env) dir ++ ["assets"].
Proof. reflexivity. Qed.

Lemma unrelated_ne (p q : path) (r : path) : unrelated p q → p ++ r ≠ q.
Proof. intros [H _] <-. by rewrite under_app in H. Qed.

Lemma copyBeside_ok (env : Env) (fuel : nat) (out : string) (w : world) :
  let A := tempAssetsDirOf env in
  let E := exeAssetsDirOf env (dirname out) in
  wf (files w) →
  files w !! A = Some Dir →
  files w !! resolve (process_cwd env) (dirname out) = Some Dir →
  unrelated A E →
  compatible (files w) A E →
  (∀ r, is_Some (files w !! (A ++ r)) → length r < S fuel) →
  ∃ fs', copyBeside env fuel (Some out) w
         = Returns tt
             {| files := fs';
                trace := trace w ++
                  [Log [VStr ("✅ Assets copied to executable directory: "
                              +:+ joinStrings (dirname out) "assets")]] |}
    ∧ wf fs'
    ∧ (∀ r e, files w !! (A ++ r) = Some e → fs' !! (E ++ r) = Some e)
    ∧ (∀ k, under E k = false → fs' !! k = files w !! k).
Proof.
  intros A E Hwf HA Hout Hun Hcompat Hdepth.
  assert (E ≠ []) as HE by (unfold E; rewrite exeAssetsDirOf_eq; by destruct (resolve _ _)).
  assert (parent E = resolve (process_cwd env) (dirname out)) as Hpar
    by (unfold E; rewrite exeAssetsDirOf_eq; apply parent_snoc).
  set (fs := files w) in *.
  set (fs1 := if Fs.existsSync fs E then fs else <[E := Dir]> fs).
  assert (fs1 !! E = Some Dir ∧ ∀ k, k ≠ E → fs1 !! k = fs !! k) as [HE1 Hsame].
  { unfold fs1, Fs.existsSync. destruct (fs !! E) as [e|] eqn:HfE.
    - split; [|done]. specialize (Hcompat [] Dir e). rewrite !app_nil_r in Hcompat.
      specialize (Hcompat HA HfE). destruct e; [done | done].
    - split; [apply lookup_insert_eq |]. intros k Hk. by apply lookup_insert_ne. }
  assert (wf fs1) as Hwf1.
  { unfold fs1. destruct (Fs.existsSync fs E); [done |].
    apply wf_insert; [done | by rewrite Hpar | by left]. }
  assert (∀ r, fs1 !! (A ++ r) = fs !! (A ++ r)) as HsameA
    by (intros r; apply Hsame; by apply unrelated_ne).
  destruct (copyDirectoryContents_ok fuel A E fs1) as (fs2 & Hrun & Hwf2 & Hfs2); try done.
  - specialize (HsameA []). rewrite !app_nil_r in HsameA. by rewrite HsameA.
  - rewrite Hsame; [by rewrite Hpar | by apply parent_ne].
  - intros r e e' He He'. rewrite HsameA in He. destruct r as [|n r].
    + rewrite app_nil_r in He, He'. rewrite HE1 in He'. rewrite HA in He. congruence.
    + rewrite Hsame in He'; [by eapply Hcompat |].
      intros Heq. apply (f_equal length) in Heq. rewrite length_app in Heq. simpl in Heq. lia.
  - intros r Hr. rewrite HsameA in Hr. auto.
  - exists fs2. split; [|split; [done | split]].
    + unfold copyBeside, path_dirname, bind, ret, console_log, emit, onFiles, fsRead.
      simpl. fold A E fs.
      change (join (tempDirOf env) "assets") with A.
      remember (copyDirectoryContents fuel A E) as cp eqn:Hcp.
      unfold fs1 in Hrun. unfold when, fsUpdate.
      destruct (Fs.existsSync fs E) eqn:Hex; simpl.
      * by rewrite Hrun.
      * rewrite mkdirSync_ok; [| done | done | by rewrite Hpar |].
        { simpl. by rewrite Hrun. }
        unfold Fs.existsSync in Hex. by destruct (fs !! E).
    + intros r e He. rewrite Hfs2, grafted_target, HsameA, He. done.
    + intros k Hk. rewrite Hfs2. unfold grafted. unfold under in Hk.
      destruct (strip E k) eqn:Es; [done |]. apply Hsame. intros ->.
      by rewrite strip_refl in Es.
Qed.

(** ** From the build to the program that runs *)

Lemma join_plain (base : path) (n : string) : plainName n → join base n = base ++ [n].
Proof.
  intros (Hseg & H1 & H2 & H3). unfold join. rewrite Hseg. simpl. unfold step.
  rewrite decide_False by (intros [?|?]; done). by rewrite decide_False.
Qed.

Lemma lookup_tried (proc : Helper.Process) (filename : string) (fs : FS) :
  Helper.lookup proc filename fs
  = HelperSpec.firstAs (HelperSpec.tried proc filename) filename fs.
Proof.
  unfold Helper.lookup, HelperSpec.firstAs, HelperSpec.tried, HelperSpec.present. simpl.
  fold (HelperSpec.beside (parent (Helper.execPath proc)) filename).
  fold (HelperSpec.beside (Helper.cwd proc) filename).
  fold (HelperSpec.beside (Helper.dirname proc) filename).
  fold (HelperSpec.snapshotPath filename).
  destruct (Fs.existsSyncAs _ (HelperSpec.beside (parent _) _) _); [done |].
  destruct (Fs.existsSyncAs _ (HelperSpec.beside (Helper.cwd proc) _) _); [done |].
  destruct (Helper.pkg proc); simpl.
  - destruct (Fs.existsSyncAs _ (HelperSpec.snapshotPath _) _); [done |].
    by destruct (Fs.existsSyncAs _ _ _).
  - by destruct (Fs.existsSyncAs _ _ _).
Qed.

Lemma find_first {A : Type} (f g : A → bool) (l : list A) (p : A) :
  List.find f l = Some p →
  (∀ x, g x = true → f x = true) →
  g p = true →
  List.find g l = Some p.
Proof.
  intros Hfind Hgf Hp. induction l as [|x l IH]; [done |]. simpl in *.
  destruct (f x) eqn:Hf.
  - injection Hfind as ->. by rewrite Hp.
  - destruct (g x) eqn:Hg; [|by apply IH]. apply Hgf in Hg. congruence.
Qed.

Lemma existsSyncAs_existsSync (fs : FS) (p : path) (slash : bool) :
  Fs.existsSyncAs fs p slash = true → Fs.existsSync fs p = true.
Proof. unfold Fs.existsSyncAs, Fs.existsSync. by destruct (fs !! p) as [[]|]. Qed.

Lemma readAsset_lookup (proc : Helper.Process) (filename : string) (w : world) :
  Helper.readAsset proc filename w
  = match Helper.lookup proc filename (files w) with
    | inr content => Returns content w
    | inl e =>
        Throws e {| files := files w;
                    trace := trace w ++
                      [ErrorLog [VStr ("Error reading asset file " +:+ filename +:+ ":");
                                 VError e]] |}
    end.
Proof.
  unfold Helper.readAsset, tryCatch, onFiles, fsTry, bind, console_error, emit, throw.
  destruct (Helper.lookup proc filename (files w)); simpl; [done | by destruct w].
Qed.

(** X15: when the first location that exists among those the helper
    tries is a directory, the helper logs and throws EISDIR for it; it
    does not go on to the later locations. *)
Theorem helper_directory_masks (proc : Helper.Process) (filename : string) (w : world)
    (p : path) :
  List.find (Fs.existsSync (files w)) (HelperSpec.tried proc filename) = Some p →
  files w !! p = Some Dir →
  Helper.readAsset proc filename w
  = Throws (SystemError "EISDIR" p)
      {| files := files w;
         trace := trace w ++
           [ErrorLog [VStr ("Error reading asset file " +:+ filename +:+ ":");
                      VError (SystemError "EISDIR" p)]] |}.
Proof.
  intros Hfind Hdir. rewrite readAsset_lookup, lookup_tried.
  unfold HelperSpec.firstAs.
  rewrite (find_first _ (HelperSpec.present (files w) filename) _ p Hfind).
  - unfold Fs.readFileSyncAs. by rewrite Hdir.
  - intros x. apply existsSyncAs_existsSync.
  - unfold HelperSpec.present, Fs.existsSyncAs. by rewrite Hdir.
Qed.

(** ** The argument loop as a fold over tokens *)

Lemma isFlag_not_dashed (s long short : string) :
  startsWithDash s = false → startsWithDash long = true → startsWithDash short = true →
  isFlag s long short = false.
Proof.
  intros Hs Hl Hsh. unfold isFlag.
  rewrite !bool_decide_eq_false_2; [done | |]; intros ->; congruence.
Qed.

Lemma parseArgs_option (o : optionKind) (short : bool) (v : string)
    (rest : list string) (acc : Parsed) :
  parseArgs (flagOf o short :: v :: rest) acc = parseArgs rest (setOption o (Some v) acc).
Proof. by destruct o, short. Qed.

Lemma parseArgs_dangling (o : optionKind) (short : bool) (acc : Parsed) :
  parseArgs [flagOf o short] acc = setOption o None acc.
Proof. by destruct o, short. Qed.

Lemma parseArgs_entry (s : string) (rest : list string) (acc : Parsed) :
  startsWithDash s = false →
  parseArgs (s :: rest) acc = parseArgs rest (applyToken acc (TEntry s)).
Proof.
  intros H. simpl. rewrite !isFlag_not_dashed by done. by rewrite H.
Qed.

Lemma parseArgs_skipped (s : string) (rest : list string) (acc : Parsed) :
  startsWithDash s = true → isOptionFlag s = false →
  parseArgs (s :: rest) acc = parseArgs rest acc.
Proof.
  intros Hd Hf. unfold isOptionFlag in Hf.
  apply orb_false_elim in Hf as [Hf H4]. apply orb_false_elim in Hf as [Hf H3].
  apply orb_false_elim in Hf as [H1 H2].
  simpl. by rewrite H1, H2, H3, H4, Hd.
Qed.

Lemma parseArgs_tokens_app (ts : list token) : ∀ (rest : list string) (acc : Parsed),
  Forall tokenOk ts →
  parseArgs (concat (tokenArgs <$> ts) ++ rest) acc = parseArgs rest (foldl applyToken acc ts).
Proof.
  induction ts as [|t ts IH]; intros rest acc Hok; [done |].
  apply Forall_cons in Hok as [Ht Hok]. rewrite fmap_cons. simpl concat.
  rewrite <- app_assoc. destruct t as [o short v|s|s]; simpl tokenArgs; simpl app.
  - rewrite parseArgs_option. by apply IH.
  - rewrite parseArgs_entry by done. by apply IH.
  - destruct Ht as [Hd Hf]. rewrite parseArgs_skipped by done. by apply IH.
Qed.

Lemma assets_foldl (ts : list token) : ∀ acc,
  p_assets (foldl applyToken acc ts) = p_assets acc ++ assetValues ts.
Proof.
  induction ts as [|t ts IH]; intros acc; simpl; [by rewrite app_nil_r |].
  rewrite IH. destruct t as [[] short v|s|s]; simpl; try done.
  by rewrite <- app_assoc.
Qed.

Lemma entry_foldl (ts : list token) : ∀ acc,
  Forall (λ t, ∀ s, t ≠ TEntry s) ts →
  p_entryPoint (foldl applyToken acc ts) = p_entryPoint acc.
Proof.
  induction ts as [|t ts IH]; intros acc Hno; [done |].
  apply Forall_cons in Hno as [Ht Hno]. simpl. rewrite IH by done.
  destruct t as [[] short v|s|s]; try done. by destruct (Ht s).
Qed.

(** X16: on a command line made of options with their values, entry
    points and skipped dash arguments, the argument loop is a left fold:
    each option sets its field to the value that follows it, whatever
    that value looks like; the values of [--assets]/[-a] accumulate in
    order; the last entry point wins; and an option flag in last
    position sets its field to [undefined]. *)
Theorem parseArgs_tokens (ts : list token) (acc : Parsed) :
  Forall tokenOk ts →
  let args := concat (tokenArgs <$> ts) in
  parseArgs args acc = foldl applyToken acc ts
  ∧ (∀ o short, parseArgs (args ++ [flagOf o short]) acc
                = setOption o None (foldl applyToken acc ts))
  ∧ p_assets (parseArgs args acc) = p_assets acc ++ assetValues ts
  ∧ (∀ ts1 s ts2, ts = ts1 ++ TEntry s :: ts2 →
                   Forall (λ t, ∀ s', t ≠ TEntry s') ts2 →
                   p_entryPoint (parseArgs args acc) = s).
Proof.
  intros Hok args.
  assert (parseArgs args acc = foldl applyToken acc ts) as Heq.
  { rewrite <- (app_nil_r args). unfold args. by rewrite parseArgs_tokens_app. }
  split; [done |]. split; [|split].
  - intros o short. unfold args. rewrite parseArgs_tokens_app by done.
    apply parseArgs_dangling.
  - rewrite Heq. apply assets_foldl.
  - intros ts1 s ts2 -> Hno. rewrite Heq, foldl_app. simpl. by rewrite entry_foldl.
Qed.

(** ** Where the process may exit *)

Section ExitsWith.
Context {S : Type} (P : nat → Prop).

Lemma exitsWith_ret {A : Type} (a : A) : exitsWith P (@ret S A a).
Proof. intros s c s' [=]. Qed.

Lemma exitsWith_throw {A : Type} (e : error) : exitsWith P (@throw S A e).
Proof. intros s c s' [=]. Qed.

Lemma exitsWith_diverge {A : Type} : exitsWith P (@diverge S A).
Proof. intros s c s' [=]. Qed.

Lemma exitsWith_exit {A : Type} (c : nat) : P c → exitsWith P (@process_exit S A c).
Proof. intros H s c' s' [= <- _]. done. Qed.

Lemma exitsWith_bind {A B : Type} (m : M S A) (k : A → M S B) :
  exitsWith P m → (∀ a, exitsWith P (k a)) → exitsWith P (bind m k).
Proof.
  intros Hm Hk s c s' H. unfold bind in H.
  destruct (m s) as [a s1|e s1|c1 s1|] eqn:E; try done.
  - by eapply Hk.
  - injection H as <- <-. by eapply Hm.
Qed.

Lemma exitsWith_when (c : bool) (m : M S unit) : exitsWith P m → exitsWith P (when c m).
Proof. destruct c; [done | intros _; apply exitsWith_ret]. Qed.

Lemma exitsWith_forEach {A : Type} (l : list A) (body : A → M S unit) :
  (∀ x, exitsWith P (body x)) → exitsWith P (forEach l body).
Proof.
  intros H. induction l as [|x l IH]; simpl; [apply exitsWith_ret |].
  apply exitsWith_bind; [apply H | intros _; apply IH].
Qed.

Lemma exitsWith_tryCatch {A : Type} (body : M S A) (handler : error → M S A) :
  exitsWith P body → (∀ e, exitsWith P (handler e)) → exitsWith P (tryCatch body handler).
Proof.
  intros Hb Hh s c s' H. unfold tryCatch in H.
  destruct (body s) as [a s1|e s1|c1 s1|] eqn:E; try done.
  - by eapply Hh.
  - injection H as <- <-. by eapply Hb.
Qed.

Lemma exitsWith_tryFinally {A : Type} (body : M S A) (cleanup : M S unit) :
  exitsWith P body → exitsWith P cleanup → exitsWith P (tryFinally body cleanup).
Proof.
  intros Hb Hc s c s' H. unfold tryFinally in H.
  destruct (body s) as [a s1|e s1|c1 s1|] eqn:E; try done.
  - eapply (exitsWith_bind cleanup (λ _, ret a)); [done | intros; apply exitsWith_ret | done].
  - eapply (exitsWith_bind cleanup (λ _, throw e)); [done | intros; apply exitsWith_throw | done].
  - injection H as <- <-. by eapply Hb.
Qed.
End ExitsWith.

Lemma exitsWith_onFiles {A : Type} (P : nat → Prop) (m : M FS A) :
  exitsWith P m → exitsWith P (onFiles m).
Proof.
  intros Hm w c w' H. unfold onFiles in H.
  destruct (m (files w)) as [a fs|e fs|c1 fs|] eqn:E; try done.
  injection H as <- _. by eapply Hm.
Qed.

Lemma exitsWith_fsRead {A : Type} (P : nat → Prop) (f : FS → A) : exitsWith P (fsRead f).
Proof. intros s c s' [=]. Qed.

Lemma exitsWith_fsTry {A : Type} (P : nat → Prop) (f : FS → error + A) :
  exitsWith P (fsTry f).
Proof. intros s c s' H. unfold fsTry in H. by destruct (f s). Qed.

Lemma exitsWith_fsUpdate (P : nat → Prop) (f : FS → error + FS) : exitsWith P (fsUpdate f).
Proof. intros s c s' H. unfold fsUpdate in H. by destruct (f s). Qed.

Lemma exitsWith_emit (P : nat → Prop) (ev : event) : exitsWith P (emit ev).
Proof. intros s c s' [=]. Qed.

Lemma exitsWith_call (P : nat → Prop) (ev : FS → event) (f : FS → FS * option error) :
  exitsWith P (call ev f).
Proof. intros s c s' H. unfold call in H. by destruct (f (files s)).2. Qed.

Lemma exitsWith_path_resolve {S : Type} (P : nat → Prop) (cwd : path) (x : option string) :
  exitsWith P (@path_resolve S cwd x).
Proof. destruct x as [v|]; intros w c w' [=]. Qed.

Lemma exitsWith_path_dirname {S : Type} (P : nat → Prop) (x : option string) :
  exitsWith P (@path_dirname S x).
Proof. destruct x as [v|]; intros w c w' [=]. Qed.

Ltac exits_base :=
  first
    [ apply exitsWith_bind; [|intros ?]
    | apply exitsWith_when
    | apply exitsWith_ret
    | apply exitsWith_throw
    | apply exitsWith_diverge
    | apply exitsWith_emit
    | apply exitsWith_call
    | apply exitsWith_path_resolve
    | apply exitsWith_path_dirname
    | apply exitsWith_fsRead
    | apply exitsWith_fsTry
    | apply exitsWith_fsUpdate
    | apply exitsWith_onFiles
    | apply exitsWith_tryCatch; [|intros ?]
    | apply exitsWith_tryFinally
    | match goal with |- exitsWith _ (if ?b then _ else _) => destruct b end ].

Ltac exits_unfold :=
  unfold console_log, console_warn, console_error, esbuild_build, execAsync.

Lemma exitsWith_copyBody (P : nat → Prop) (recurse : path → path → M FS unit) :
  (∀ s t, exitsWith P (recurse s t)) →
  ∀ source target, exitsWith P (copyBody recurse source target).
Proof.
  intros Hrec source target. unfold copyBody. repeat exits_base.
  apply exitsWith_forEach. intros d. unfold copyEntry.
  destruct (Fs.isDir d); [apply Hrec | apply exitsWith_fsUpdate].
Qed.

Lemma exitsWith_copyDirectoryRecursive (P : nat → Prop) (fuel : nat) :
  ∀ source target, exitsWith P (copyDirectoryRecursive fuel source target).
Proof.
  induction fuel as [|fuel IH]; intros source target; simpl.
  - apply exitsWith_diverge.
  - by apply exitsWith_copyBody.
Qed.

Lemma exitsWith_copyDirectoryContents (P : nat → Prop) (fuel : nat) (source target : path) :
  exitsWith P (copyDirectoryContents fuel source target).
Proof. apply exitsWith_copyBody, exitsWith_copyDirectoryRecursive. Qed.

Ltac exits_step :=
  first [ apply exitsWith_copyDirectoryContents | exits_base ].

Ltac exits_solve := exits_unfold; repeat exits_step.

Lemma exitsWith_stageLoop (P : nat → Prop) (env : Env) (fuel : nat) (tempAssetsDir : path) :
  ∀ assetsArray hasAssets,
    exitsWith P (stageLoop env fuel tempAssetsDir assetsArray hasAssets).
Proof.
  induction assetsArray as [|asset rest IH]; intros hasAssets; simpl.
  - apply exitsWith_ret.
  - exits_solve; apply IH.
Qed.

Lemma exitsWith_compile (P : nat → Prop) (env : Env) (fuel : nat) (options : CompileOptions) :
  exitsWith P (compile env fuel options).
Proof.
  unfold compile, checkEntry, bundleStep, stageAssets, packageStep, assetsOption,
    package, copyBeside, injectHelper.
  exits_unfold. repeat first [apply exitsWith_stageLoop | exits_step].
  by intros fs c fs'.
Qed.

Lemma neverThrows_bind {S A B : Type} (m : M S A) (k : A → M S B) :
  neverThrows m → (∀ a, neverThrows (k a)) → neverThrows (bind m k).
Proof.
  intros Hm Hk s e s' H. unfold bind in H.
  destruct (m s) as [a s1|e1 s1|c1 s1|] eqn:E; try done.
  - by eapply Hk.
  - by eapply Hm.
Qed.

Lemma neverThrows_emit (ev : event) : neverThrows (emit ev).
Proof. intros s e s' [=]. Qed.

Lemma neverThrows_exit {S A : Type} (c : nat) : neverThrows (@process_exit S A c).
Proof. intros s e s' [=]. Qed.

Lemma neverThrows_caught {S A : Type} (body : M S A) (handler : error → M S A) :
  (∀ e, neverThrows (handler e)) → neverThrows (tryCatch body handler).
Proof.
  intros Hh s e s' H. unfold tryCatch in H.
  destruct (body s) as [a s1|e1 s1|c1 s1|] eqn:E; try done. by eapply Hh.
Qed.

Lemma neverThrows_main (env : Env) (fuel : nat) (argv : list string) :
  neverThrows (main env fuel argv).
Proof.
  unfold main, console_log, console_error.
  repeat (apply neverThrows_bind; [apply neverThrows_emit | intros _]).
  destruct (wantsHelp _); [apply neverThrows_emit |].
  repeat (apply neverThrows_bind; [apply neverThrows_emit | intros _]).
  apply neverThrows_bind; [|intros _].
  { destruct (bool_decide _); simpl; [|by intros s e s' [=]].
    apply neverThrows_bind; [apply neverThrows_emit | intros _; apply neverThrows_exit]. }
  apply neverThrows_bind; [apply neverThrows_emit | intros _].
  apply neverThrows_caught. intros e.
  apply neverThrows_bind; [apply neverThrows_emit | intros _; apply neverThrows_exit].
Qed.

Lemma exitsWith_main (env : Env) (fuel : nat) (argv : list string) :
  exitsWith (λ c, c = 1) (main env fuel argv).
Proof.
  unfold main. exits_unfold.
  repeat first [apply exitsWith_compile | by apply exitsWith_exit | exits_step].
Qed.

(** X17: [compile] never ends the process; [main] never throws and ends
    the process with code 1 only; so the command-line script ends with
    exit code 0 or 1. *)
Theorem exit_discipline (env : Env) (fuel : nat) :
  (∀ options w c w', compile env fuel options w ≠ Exits c w')
  ∧ (∀ argv w,
       match main env fuel argv w with
       | Throws _ _ => False
       | Exits c _ => c = 1
       | _ => True
       end)
  ∧ (∀ argv fs,
       match run (cli env fuel argv) fs with
       | Throws _ _ => False
       | Exits c _ => c = 1
       | _ => True
       end)
  ∧ (∀ argv fs c, exitCode (run (cli env fuel argv) fs) = Some c → c = 0 ∨ c = 1).
Proof.
  assert (∀ argv w,
            match main env fuel argv w with
            | Throws _ _ => False
            | Exits c _ => c = 1
            | _ => True
            end) as Hmain.
  { intros argv w.
    pose proof (neverThrows_main env fuel argv w) as Hn.
    pose proof (exitsWith_main env fuel argv w) as He.
    destruct (main env fuel argv w) as [a w'|e w'|c w'|]; try done.
    - by destruct (Hn e w').
    - by apply (He c w'). }
  assert (∀ argv fs,
            match run (cli env fuel argv) fs with
            | Throws _ _ => False
            | Exits c _ => c = 1
            | _ => True
            end) as Hcli.
  { intros argv fs. unfold run, cli, bind, console_log, emit, tryCatch. simpl.
    match goal with |- context [main env fuel argv ?w0] =>
      specialize (Hmain argv w0); destruct (main env fuel argv w0) end; done. }
  split; [|split; [done | split; [done |]]].
  - intros options w c w' H. by apply (exitsWith_compile (λ _, False) env fuel options w c w').
  - intros argv fs c H. specialize (Hcli argv fs).
    destruct (run (cli env fuel argv) fs); simpl in H; try done.
    + injection H as <-. by left.
    + injection H as <-. by right.
Qed.

(** ** The calls of the bundler *)

Lemma still_refl (w : world) : still w w.
Proof. done. Qed.

Lemma still_trans (w1 w2 w3 : world) : still w1 w2 → still w2 w3 → still w1 w3.
Proof. unfold still. congruence. Qed.

Lemma builds_snoc (t : list event) (ev : event) :
  builds (t ++ [ev]) = builds t ++ (if isBuild ev then [ev] else []).
Proof. unfold builds. by rewrite List.filter_app. Qed.

Lemma builds_app (t t' : list event) : builds (t ++ t') = builds t ++ builds t'.
Proof. unfold builds. by rewrite List.filter_app. Qed.

Lemma still_emit (ev : event) : isBuild ev = false → always still (emit ev).
Proof.
  intros H w w' [= <-]. unfold still. simpl. by rewrite builds_snoc, H, app_nil_r.
Qed.

Lemma still_onFiles {A : Type} (m : M FS A) : always still (onFiles m).
Proof.
  intros w w' H. unfold onFiles in H.
  destruct (m (files w)); simpl in H; try done; by injection H as <-.
Qed.

Lemma still_path_resolve (cwd : path) (x : option string) :
  always still (path_resolve cwd x).
Proof. destruct x as [v|]; intros w w' [= <-]; done. Qed.

Lemma still_path_dirname (x : option string) : always still (path_dirname x).
Proof. destruct x as [v|]; intros w w' [= <-]; done. Qed.

Lemma still_execAsync (env : Env) (command : string) : always still (execAsync env command).
Proof.
  intros w w' H. unfold execAsync, call in H. unfold still.
  destruct (shell env _ (files w)).2; injection H as <-; simpl;
    by rewrite builds_snoc, app_nil_r.
Qed.

Ltac still_step :=
  first
    [ apply (always_bind still still_trans); [|intros ?]
    | apply (always_when still still_refl)
    | apply (always_ret still still_refl)
    | apply (always_throw still still_refl)
    | apply still_onFiles
    | apply still_path_resolve
    | apply still_path_dirname
    | apply still_execAsync
    | apply still_emit; reflexivity
    | apply (always_tryCatch still still_trans); [|intros ?]
    | apply (always_tryFinally still still_refl still_trans)
    | match goal with |- always still (if ?b then _ else _) => destruct b end ].

Ltac still_solve := unfold console_log, console_warn, console_error; repeat still_step.

Lemma still_stageLoop (env : Env) (fuel : nat) (tempAssetsDir : path) :
  ∀ assetsArray hasAssets, always still (stageLoop env fuel tempAssetsDir assetsArray hasAssets).
Proof.
  induction assetsArray as [|asset rest IH]; intros hasAssets; simpl.
  - still_solve.
  - still_solve; apply IH.
Qed.

Lemma still_earlier_stageLoop (env : Env) (fuel : nat) (tempAssetsDir : path) :
  ∀ assetsArray, always still (Earlier.stageLoop env fuel tempAssetsDir assetsArray).
Proof.
  induction assetsArray as [|asset rest IH]; simpl.
  - still_solve.
  - still_solve; apply IH.
Qed.

Lemma still_afterBundling (env : Env) (fuel : nat) (options : CompileOptions) :
  always still (afterBundling env fuel options).
Proof.
  unfold afterBundling, stageAssets, packageStep, assetsOption, package, copyBeside,
    injectHelper.
  unfold console_log, console_warn, console_error.
  repeat first [apply still_stageLoop | still_step].
Qed.

Lemma still_earlierAfterBundling (env : Env) (fuel : nat) (options : CompileOptions) :
  always still (earlierAfterBundling env fuel options).
Proof.
  unfold earlierAfterBundling, Earlier.stageAssets, Earlier.packageStep.
  unfold console_log, console_warn, console_error.
  repeat first [apply still_earlier_stageLoop | still_step].
Qed.

Lemma checkEntry_missing (env : Env) (entryPoint : string) (w : world) :
  Fs.existsSync (files w) (resolve (process_cwd env) entryPoint) = false →
  ∃ t, checkEntry env entryPoint w
       = Throws (Error ("File not found: " +:+ render (resolve (process_cwd env) entryPoint)))
           {| files := files w; trace := trace w ++ t |}
     ∧ builds t = [].
Proof.
  intros H. unfold checkEntry, bind, console_log, console_error, emit, onFiles, fsRead,
    when, throw. simpl. rewrite H. simpl.
  eexists [_; _; _; _; _]. rewrite <- !app_assoc. simpl. done.
Qed.

Lemma bundleStep_builds (env : Env) (nodeVersion : string) (entryPointPath : path)
    (w w' : world) :
  final (bundleStep env nodeVersion entryPointPath w) = Some w' →
  builds (trace w')
  = builds (trace w) ++
    match withTempDir env (files w) with
    | inr fs1 => [Build (buildOptionsOf env nodeVersion entryPointPath) fs1]
    | inl _ => []
    end.
Proof.
  unfold withTempDir, bundleStep, bind, console_log, console_error, emit, onFiles, fsRead,
    when, tryCatch, esbuild_build, call, throw. simpl.
  fold (buildOptionsOf env nodeVersion entryPointPath).
  destruct (Fs.existsSync (files w) (tempDirOf env)); simpl.
  - destruct (esbuild env _ (files w)).2; simpl; intros [= <-]; simpl;
      rewrite <- ?app_assoc; by rewrite builds_app.
  - unfold fsUpdate. destruct (Fs.mkdirSync (tempDirOf env) (files w)) as [e|fs1]; simpl.
    + intros [= <-]. simpl. rewrite <- ?app_assoc. rewrite builds_app. simpl.
      by rewrite app_nil_r.
    + destruct (esbuild env _ fs1).2; simpl; intros [= <-]; simpl;
        rewrite <- ?app_assoc; by rewrite builds_app.
Qed.

Lemma compile_after (env : Env) (fuel : nat) (options : CompileOptions) (w : world) :
  compile env fuel options w
  = (let! entryPointPath := checkEntry env (entryPoint options) in
     bundleStep env (default "16" (nodeVersion options)) entryPointPath >>
     afterBundling env fuel options) w
  ∧ Earlier.compile env fuel options w
    = (let! entryPointPath := checkEntry env (entryPoint options) in
       bundleStep env (default "16" (nodeVersion options)) entryPointPath >>
       earlierAfterBundling env fuel options) w.
Proof. split; reflexivity. Qed.

(** X7: a run of [compile] calls the bundler once if the entry point
    exists and the temp directory is there or could be made, and not at
    all otherwise; the call has the resolved entry point as its one entry
    point, [bundle] and [minify] set, no source map, platform "node",
    target "node<version>" and the bundle file of the temp directory as
    output.  The same holds of the earlier revision. *)
Theorem bundler_called_once (env : Env) (fuel : nat) (options : CompileOptions)
    (fs : FS) (w : world) :
  let entryPointPath := resolve (process_cwd env) (entryPoint options) in
  let buildOptions :=
    buildOptionsOf env (default "16" (nodeVersion options)) entryPointPath in
  ∀ revision, revision = compile ∨ revision = Earlier.compile →
  final (run (revision env fuel options) fs) = Some w →
  builds (trace w)
  = if Fs.existsSync fs entryPointPath
    then match withTempDir env fs with
         | inr fs1 => [Build buildOptions fs1]
         | inl _ => []
         end
    else [].
Proof.
  intros entryPointPath buildOptions revision Hrev Hfin.
  assert (∃ rest : M world unit,
            always still rest
            ∧ run (revision env fuel options) fs
              = (let! entryPointPath := checkEntry env (entryPoint options) in
                 bundleStep env (default "16" (nodeVersion options)) entryPointPath >>
                 rest) {| files := fs; trace := [] |}) as (rest & Hstill & Hrun).
  { destruct Hrev as [->| ->].
    - exists (afterBundling env fuel options). split; [apply still_afterBundling |].
      apply compile_after.
    - exists (earlierAfterBundling env fuel options).
      split; [apply still_earlierAfterBundling |]. apply compile_after. }
  rewrite Hrun in Hfin. clear Hrun. unfold bind in Hfin.
  destruct (Fs.existsSync fs entryPointPath) eqn:Hex.
  - rewrite checkEntry_found in Hfin by done.
    match type of Hfin with context [bundleStep env ?v ?p ?w1] =>
      pose proof (bundleStep_builds env v p w1) as Hb;
      destruct (bundleStep env v p w1) as [[] w2|e w2|c w2|]; simpl in Hfin, Hb
    end.
    + rewrite (Hstill _ _ Hfin). by rewrite (Hb _ eq_refl).
    + injection Hfin as <-. by rewrite (Hb _ eq_refl).
    + injection Hfin as <-. by rewrite (Hb _ eq_refl).
    + done.
  - destruct (checkEntry_missing env (entryPoint options) {| files := fs; trace := [] |})
      as (t & Hc & Ht); [done |].
    rewrite Hc in Hfin. injection Hfin as <-. done.
Qed.

(** ** The earlier revision *)

Lemma earlier_pkgAssetsOption_cases (env : Env) (assetsArray : list (option string)) :
  Earlier.pkgAssetsOption env assetsArray
  = match assetsArray with
    | [] => ""
    | _ => "--assets " +:+ quote +:+ render (tempDirOf env) +:+ "/assets/**/*" +:+ quote
    end.
Proof. by destruct assetsArray. Qed.

(** X19: in the earlier revision the command of the packager carries the
    [--assets] option whenever the list of assets is not empty, whether
    or not any listed path exists. *)
Theorem earlier_assets_option_by_length (env : Env) (fuel : nat) (options : CompileOptions)
    (fs : FS) (w : world) (cmd : string) (fs1 : FS) :
  final (run (Earlier.compile env fuel options) fs) = Some w →
  In (Exec cmd fs1) (trace w) →
  cmd = pkgCommand (bundleFileOf env)
          (String.concat ","
             (pkgTargets (default "16" (nodeVersion options))
                (default (defaultPlatform env) (platform options))))
          (match assetsArrayOf (default (AssetList []) (assets options)) with
           | [] => ""
           | _ => "--assets " +:+ quote +:+ render (tempDirOf env) +:+ "/assets/**/*"
                  +:+ quote
           end)
          (outFile options).
Proof.
  intros Hfin Hin.
  pose proof (earlier_compile_runsOnly env fuel options _ _ Hfin) as Hruns.
  apply In_execs in Hin; [|done].
  destruct (Hruns _ Hin) as [[]|[fs' [= -> _]]].
  by rewrite earlier_pkgAssetsOption_cases.
Qed.

Lemma quiet_earlierBeforePackaging (env : Env) (fuel : nat) (options : CompileOptions) :
  always quiet (earlierBeforePackaging env fuel options).
Proof.
  unfold earlierBeforePackaging.
  apply (always_bind quiet quiet_trans); [apply quiet_checkEntry | intros p].
  apply (always_bind quiet quiet_trans); [apply quiet_bundleStep | intros _].
  unfold Earlier.stageAssets. quiet_solve. apply earlier_quiet_stageLoop.
Qed.

Lemma earlier_compile_phases (env : Env) (fuel : nat) (options : CompileOptions) (w : world) :
  Earlier.compile env fuel options w
  = (earlierBeforePackaging env fuel options >>
     Earlier.packageStep env (default "16" (nodeVersion options))
       (default (defaultPlatform env) (platform options)) (outFile options)
       (assetsArrayOf (default (AssetList []) (assets options)))) w.
Proof.
  unfold Earlier.compile, earlierBeforePackaging, bind.
  destruct (checkEntry env (entryPoint options) w); try done.
  destruct (bundleStep _ _ _ _); done.
Qed.

Lemma earlier_packageStep_outcome (env : Env) (nodeVersion platform : string)
    (outFile : option string) (assetsArray : list (option string)) (w : world) :
  let cmd := pkgCommand (bundleFileOf env)
               (String.concat "," (pkgTargets nodeVersion platform))
               (Earlier.pkgAssetsOption env assetsArray) outFile in
  ∃ w', files w' = Fs.rmSync (tempDirOf env) (shell env cmd (files w)).1
    ∧ execs (trace w') = execs (trace w) ++ [Exec cmd (files w)]
    ∧ match (shell env cmd (files w)).2 with
      | None => Earlier.packageStep env nodeVersion platform outFile assetsArray w
                = Returns tt w'
      | Some e =>
          Earlier.packageStep env nodeVersion platform outFile assetsArray w = Throws e w'
          ∧ In (ErrorLog [VStr "❌ Error creating executable:"; VError e]) (trace w')
      end.
Proof.
  intros cmd.
  unfold Earlier.packageStep, tryFinally, tryCatch, bind, console_log, console_error, emit,
    execAsync, call, throw, onFiles. simpl. fold cmd.
  destruct (shell env cmd (files w)) as [fs2 [e|]]; simpl.
  - eexists. split; [|split; [|split; [reflexivity |]]]; simpl.
    + reflexivity.
    + rewrite !execs_snoc. simpl. by rewrite !app_nil_r.
    + apply in_or_app. right. by left.
  - eexists. split; [|split; [|reflexivity]]; simpl.
    + reflexivity.
    + rewrite !execs_snoc. simpl. by rewrite !app_nil_r.
Qed.

(** X20: in the earlier revision too, once the packager has been called
    the temp directory is gone when [compile] settles; the packager is
    called once, and [compile] returns when it succeeds and logs and
    throws its error when it fails. *)
Theorem earlier_staging_removed (env : Env) (fuel : nat) (options : CompileOptions)
    (fs : FS) (w : world) :
  final (run (Earlier.compile env fuel options) fs) = Some w →
  execs (trace w) ≠ [] →
  Fs.existsSync (files w) (tempDirOf env) = false
  ∧ (∀ k, under (tempDirOf env) k = true → files w !! k = None)
  ∧ ∃ cmd fs1,
      execs (trace w) = [Exec cmd fs1]
      ∧ match (shell env cmd fs1).2 with
        | None => run (Earlier.compile env fuel options) fs = Returns tt w
        | Some e =>
            run (Earlier.compile env fuel options) fs = Throws e w
            ∧ In (ErrorLog [VStr "❌ Error creating executable:"; VError e]) (trace w)
        end.
Proof.
  intros Hfin Hex. unfold run in *. rewrite earlier_compile_phases in *. unfold bind in *.
  pose proof (quiet_earlierBeforePackaging env fuel options {| files := fs; trace := [] |})
    as Hq.
  destruct (earlierBeforePackaging env fuel options _) as [[] w0|e w0|c w0|]; simpl in *;
    try (injection Hfin as <-; destruct Hex; by apply Hq); [|done].
  specialize (Hq _ eq_refl). unfold quiet in Hq. simpl in Hq.
  destruct (earlier_packageStep_outcome env (default "16" (nodeVersion options))
              (default (defaultPlatform env) (platform options)) (outFile options)
              (assetsArrayOf (default (AssetList []) (assets options))) w0)
    as (w' & Hfiles & Hexecs & Hout).
  rewrite Hq in Hexecs. simpl in Hexecs.
  set (cmd := pkgCommand _ _ _ _) in *.
  assert (w = w') as ->.
  { destruct (shell env cmd (files w0)).2.
    - destruct Hout as [Hout _]. rewrite Hout in Hfin. by injection Hfin.
    - rewrite Hout in Hfin. by injection Hfin. }
  assert (∀ k, under (tempDirOf env) k = true → files w' !! k = None) as Hgone.
  { intros k Hk. rewrite Hfiles. by apply rmSync_under. }
  split; [|split; [done |]].
  - unfold Fs.existsSync. by rewrite Hgone by apply under_refl.
  - exists cmd, (files w0). split; [done |]. exact Hout.
Qed.

Lemma earlier_stageLoop_dir (env : Env) (fuel : nat) (tempAssetsDir : path) (s : string)
    (rest : list (option string)) (w : world) (fs' : FS) :
  let p := resolve (process_cwd env) s in
  files w !! p = Some Dir →
  copyDirectoryRecursive fuel p (tempAssetsDir ++ [basename p]) (files w) = Returns tt fs' →
  Earlier.stageLoop env fuel tempAssetsDir (Some s :: rest) w
  = Earlier.stageLoop env fuel tempAssetsDir rest
      {| files := fs';
         trace := trace w ++
           [ Log [VStr ("Copying asset: " +:+ render p)];
             Log [VStr ("✅ Directory copied: " +:+ render p +:+ " -> "
                        +:+ render (tempAssetsDir ++ [basename p]))] ] |}.
Proof.
  intros p Hp Hc. subst p. simpl.
  unfold bind, ret, console_log, emit, onFiles, fsRead, fsTry, fsUpdate,
    Fs.existsSync, Fs.isDirectory.
  simpl in *. rewrite Hp. simpl. rewrite Hp. simpl. rewrite Hc. simpl.
  by rewrite <- app_assoc.
Qed.

(** X18: in the earlier revision a listed directory is staged as a
    sub-directory of the assets directory named after it: every entry
    below the directory is at the same relative path below
    [assets/<name>], and nothing outside the assets directory changes. *)
Theorem earlier_directory_nested (env : Env) (fuel : nat) (d : string) (w : world) :
  let fs := files w in
  let A := tempAssetsDirOf env in
  let pd := resolve (process_cwd env) d in
  let target := A ++ [basename pd] in
  wf fs →
  fs !! tempDirOf env = Some Dir →
  fs !! A = None →
  fs !! pd = Some Dir →
  unrelated pd target →
  (∀ r, is_Some (fs !! (pd ++ r)) → length r < fuel) →
  ∃ w', Earlier.stageAssets env fuel [Some d] w = Returns tt w'
    ∧ files w' !! A = Some Dir
    ∧ (∀ r e, fs !! (pd ++ r) = Some e → files w' !! (target ++ r) = Some e)
    ∧ (∀ r, fs !! (pd ++ r) = None → files w' !! (target ++ r) = None)
    ∧ (∀ k, under A k = false → files w' !! k = fs !! k).
Proof.
  intros fs A pd target Hwf Htemp HA Hpd Hun Hdepth.
  assert (A = tempDirOf env ++ ["assets"]) as HAeq by apply tempAssetsDirOf_eq.
  assert (A ≠ []) as HAne by (rewrite HAeq; by destruct (tempDirOf env)).
  assert (parent A = tempDirOf env) as HparA by (rewrite HAeq; apply parent_snoc).
  set (fs1 := <[A := Dir]> fs).
  assert (Fs.mkdirSync A fs = inr fs1) as Hmk
    by (apply mkdirSync_ok; [done | done | by rewrite HparA | done]).
  assert (wf fs1) as Hwf1 by (apply wf_insert; [done | by rewrite HparA | by left]).
  assert (∀ r, pd ++ r ≠ A) as HpdA.
  { intros r Heq. destruct Hun as [Hu _]. unfold target in Hu.
    rewrite <- Heq, <- app_assoc in Hu. by rewrite under_app in Hu. }
  assert (∀ r, fs1 !! (pd ++ r) = fs !! (pd ++ r)) as Hsrc
    by (intros r; by apply lookup_insert_ne).
  assert (∀ r, fs !! (target ++ r) = None) as Hfresh.
  { intros r. unfold target. rewrite <- app_assoc. apply wf_below; [done | | done].
    by rewrite HA. }
  assert (∀ r, fs1 !! (target ++ r) = None) as Hfresh1.
  { intros r. unfold fs1. rewrite lookup_insert_ne; [apply Hfresh |].
    unfold target. rewrite <- app_assoc. intros Heq.
    apply (f_equal length) in Heq. rewrite length_app in Heq. simpl in Heq. lia. }
  destruct (copyDirectoryRecursive_ok fuel pd target fs1) as (fs2 & Hrun & Hwf2 & Hfs2);
    try done.
  - specialize (Hsrc []). rewrite app_nil_r in Hsrc. by rewrite Hsrc.
  - unfold target. by destruct A.
  - unfold target. rewrite parent_snoc. apply lookup_insert_eq.
  - intros r e e' He He'. by rewrite Hfresh1 in He'.
  - intros r Hr. rewrite Hsrc in Hr. auto.
  - exists {| files := fs2;
              trace := trace w ++
                [ Log [VStr "📂 Copying assets..."];
                  Log [VStr ("Copying asset: " +:+ render pd)];
                  Log [VStr ("✅ Directory copied: " +:+ render pd +:+ " -> "
                             +:+ render target)];
                  Log [VStr "✅ Assets copying complete"] ] |}.
    split; [|split; [|split; [|split]]]; simpl.
    + unfold Earlier.stageAssets. simpl bool_decide. unfold when.
      fold (tempAssetsDirOf env). fold A.
      unfold bind at 1, console_log at 1, emit at 1. unfold bind at 1, onFiles at 1, fsRead.
      simpl files. simpl trace. fold fs.
      unfold Fs.existsSync at 1. rewrite HA. simpl negb.
      unfold bind at 1, onFiles at 1, fsUpdate. simpl files. fold fs. rewrite Hmk.
      simpl trace.
      unfold bind at 1.
      rewrite (earlier_stageLoop_dir env fuel A d [] _ fs2); simpl files; fold pd fs1.
      * simpl. unfold bind, ret, console_log, emit. simpl. by rewrite <- !app_assoc.
      * specialize (Hsrc []). rewrite app_nil_r in Hsrc. by rewrite Hsrc.
      * exact Hrun.
    + rewrite Hfs2. unfold grafted.
      destruct (strip target A) as [r|] eqn:Es.
      * apply strip_Some in Es. unfold target in Es. rewrite <- app_assoc in Es.
        apply (f_equal length) in Es. rewrite length_app in Es. simpl in Es. lia.
      * apply lookup_insert_eq.
    + intros r e He. by rewrite Hfs2, grafted_target, Hsrc, He.
    + intros r He. by rewrite Hfs2, grafted_target, Hsrc, He, Hfresh1.
    + intros k Hk. rewrite Hfs2. unfold grafted.
      destruct (strip target k) as [r|] eqn:Es.
      * apply strip_Some in Es. subst k. unfold target in Hk.
        by rewrite <- app_assoc, under_app in Hk.
      * apply lookup_insert_ne. intros <-. by rewrite under_refl in Hk.
Qed.

(** ** Copies one after the other *)

Lemma grafted_outside (fs : FS) (src dst k : path) :
  under dst k = false → grafted fs src dst k = fs !! k.
Proof. intros H. unfold grafted, under in *. by destruct (strip dst k). Qed.

Lemma grafted_cases (fs : FS) (src dst k : path) :
  (∃ r, k = dst ++ r) ∨ under dst k = false.
Proof.
  destruct (under dst k) eqn:E; [left; by apply under_true | by right].
Qed.

Lemma not_under_source (src dst r : path) : unrelated src dst → under dst (src ++ r) = false.
Proof. intros H. unfold under. by rewrite unrelated_source. Qed.

(** X4: copying a directory a second time changes nothing: the second
    copy returns the file system that the first one left. *)
Theorem directory_copy_idempotent (fuel : nat) (src dst : path) (fs : FS) :
  wf fs →
  unrelated src dst →
  fs !! src = Some Dir →
  dst ≠ [] → fs !! parent dst = Some Dir →
  compatible fs src dst →
  (∀ r, is_Some (fs !! (src ++ r)) → length r < fuel) →
  ∃ fs', copyDirectoryRecursive fuel src dst fs = Returns tt fs'
    ∧ copyDirectoryRecursive fuel src dst fs' = Returns tt fs'.
Proof.
  intros Hwf Hun Hsrc Hdst Hpar Hcompat Hdepth.
  destruct (copyDirectoryRecursive_ok fuel src dst fs) as (fs1 & Hrun & Hwf1 & Hfs1);
    try done.
  exists fs1. split; [done |].
  assert (∀ r, fs1 !! (src ++ r) = fs !! (src ++ r)) as Hs
    by (intros r; by rewrite Hfs1, grafted_source).
  destruct (copyDirectoryRecursive_ok fuel src dst fs1) as (fs2 & Hrun2 & Hwf2 & Hfs2);
    try done.
  - specialize (Hs []). rewrite app_nil_r in Hs. by rewrite Hs.
  - rewrite Hfs1, grafted_outside; [done |].
    destruct (under dst (parent dst)) eqn:Eu; [|done].
    apply under_true in Eu as [r Hr]. apply (f_equal length) in Hr.
    rewrite (snoc_parent dst Hdst) in Hr at 2. rewrite !length_app in Hr. simpl in Hr. lia.
  - intros r e e' He He'. rewrite Hs in He. rewrite Hfs1, grafted_target, He in He'.
    by injection He' as <-.
  - intros r Hr. rewrite Hs in Hr. auto.
  - rewrite Hrun2. f_equal. apply map_eq. intros k. rewrite Hfs2.
    destruct (grafted_cases fs1 src dst k) as [[r ->]|Hk].
    + rewrite grafted_target, Hs. rewrite Hfs1, grafted_target.
      by destruct (fs !! (src ++ r)).
    + by apply grafted_outside.
Qed.

(** X5: two directories copied one after the other into the same target:
    both copies return, and at each relative path the target holds the
    entry of the second directory if it has one there, else the entry of
    the first, else what the target held before. *)
Theorem directory_copies_last_wins (fuel : nat) (src1 src2 dst : path) (fs : FS) :
  wf fs →
  unrelated src1 dst → unrelated src2 dst →
  fs !! src1 = Some Dir → fs !! src2 = Some Dir →
  dst ≠ [] → fs !! parent dst = Some Dir →
  compatible fs src1 dst → compatible fs src2 dst →
  compatible fs src1 src2 →
  (∀ r, is_Some (fs !! (src1 ++ r)) → length r < S fuel) →
  (∀ r, is_Some (fs !! (src2 ++ r)) → length r < S fuel) →
  ∃ fs1 fs2,
    copyDirectoryContents fuel src1 dst fs = Returns tt fs1
    ∧ copyDirectoryContents fuel src2 dst fs1 = Returns tt fs2
    ∧ (∀ r, fs2 !! (dst ++ r)
            = match fs !! (src2 ++ r) with
              | Some e => Some e
              | None => match fs !! (src1 ++ r) with
                        | Some e => Some e
                        | None => fs !! (dst ++ r)
                        end
              end)
    ∧ (∀ k, under dst k = false → fs2 !! k = fs !! k).
Proof.
  intros Hwf Hun1 Hun2 Hsrc1 Hsrc2 Hdst Hpar Hc1 Hc2 Hkinds Hdepth1 Hdepth2.
  destruct (copyDirectoryContents_ok fuel src1 dst fs) as (fs1 & Hrun1 & Hwf1 & Hfs1);
    try done.
  assert (∀ r, fs1 !! (src2 ++ r) = fs !! (src2 ++ r)) as Hs2
    by (intros r; rewrite Hfs1; by apply grafted_outside, not_under_source).
  assert (under dst (parent dst) = false) as Hup.
  { destruct (under dst (parent dst)) eqn:Eu; [|done].
    apply under_true in Eu as [r Hr]. apply (f_equal length) in Hr.
    rewrite (snoc_parent dst Hdst) in Hr at 2. rewrite !length_app in Hr. simpl in Hr. lia. }
  destruct (copyDirectoryContents_ok fuel src2 dst fs1) as (fs2 & Hrun2 & Hwf2 & Hfs2);
    try done.
  - specialize (Hs2 []). rewrite app_nil_r in Hs2. by rewrite Hs2.
  - by rewrite Hfs1, grafted_outside.
  - intros r e e' He He'. rewrite Hs2 in He. rewrite Hfs1, grafted_target in He'.
    destruct (fs !! (src1 ++ r)) as [e1|] eqn:E1.
    + injection He' as <-. symmetry. by eapply Hkinds.
    + by eapply Hc2.
  - intros r Hr. rewrite Hs2 in Hr. by apply Hdepth2.
  - exists fs1, fs2. split; [done |]. split; [done |]. split.
    + intros r. by rewrite Hfs2, grafted_target, Hs2, Hfs1, grafted_target.
    + intros k Hk. by rewrite Hfs2, grafted_outside, Hfs1, grafted_outside.
Qed.

(** ** Two files with the same base name *)

(** X12: two listed files are staged under their base names: when the
    names differ both are in the assets directory, when they are the
    same the second file is there alone; nothing else is staged and
    nothing outside the temp directory changes. *)
Theorem files_staged_by_basename (env : Env) (fuel : nat) (f1 f2 : string) (w : world)
    (b c1 c2 : string) :
  let fs := files w in
  let A := tempAssetsDirOf env in
  let p1 := resolve (process_cwd env) f1 in
  let p2 := resolve (process_cwd env) f2 in
  wf fs →
  fs !! tempDirOf env = Some Dir →
  fs !! bundleFileOf env = Some (File b) →
  fs !! A = None →
  fs !! p1 = Some (File c1) →
  fs !! p2 = Some (File c2) →
  ∃ w', stageAssets env fuel [Some f1; Some f2] w = Returns true w'
    ∧ files w' !! (A ++ [basename p2]) = Some (File c2)
    ∧ (basename p1 ≠ basename p2 → files w' !! (A ++ [basename p1]) = Some (File c1))
    ∧ (∀ n, n ≠ basename p1 → n ≠ basename p2 → files w' !! (A ++ [n]) = None)
    ∧ (∀ k, under (tempDirOf env) k = false → files w' !! k = fs !! k).
Proof.
  intros fs A p1 p2 Hwf Htemp Hbundle HA Hp1 Hp2.
  assert (A = tempDirOf env ++ ["assets"]) as HAeq by apply tempAssetsDirOf_eq.
  assert (A ≠ []) as HAne by (rewrite HAeq; by destruct (tempDirOf env)).
  assert (parent A = tempDirOf env) as HparA by (rewrite HAeq; apply parent_snoc).
  assert (∀ r, fs !! (A ++ r) = None) as Hfresh.
  { intros [|n r]; [by rewrite app_nil_r |]. apply wf_below; [done | by rewrite HA | done]. }
  assert (∀ p c, fs !! p = Some (File c) → under A p = false) as Hout.
  { intros p c Hp. destruct (under A p) eqn:Eu; [|done].
    apply under_true in Eu as [r ->]. by rewrite Hfresh in Hp. }
  assert (∀ n, A ++ [n] ≠ A) as Hsn.
  { intros n Heq. apply (f_equal length) in Heq. rewrite length_app in Heq. simpl in Heq. lia. }
  set (fs1 := <[A := Dir]> fs).
  set (fs2 := <[A ++ [basename p1] := File c1]> fs1).
  set (fs3 := <[A ++ [basename p2] := File c2]> fs2).
  assert (Fs.mkdirSync A fs = inr fs1) as Hmk
    by (apply mkdirSync_ok; [done | done | by rewrite HparA | done]).
  assert (∀ p c, fs !! p = Some (File c) → p ≠ A ∧ ∀ n, p ≠ A ++ [n]) as Hne.
  { intros p c Hp. split; [intros ->; congruence |]. intros n ->. by rewrite Hfresh in Hp. }
  assert (fs1 !! p1 = Some (File c1)) as Hf1.
  { destruct (Hne p1 c1 Hp1) as [H1 H2]. unfold fs1. by rewrite lookup_insert_ne. }
  assert (fs2 !! p2 = Some (File c2)) as Hf2.
  { destruct (Hne p2 c2 Hp2) as [H1 H2]. unfold fs2, fs1. by rewrite !lookup_insert_ne. }
  assert (Fs.copyFileSync p1 (A ++ [basename p1]) fs1 = inr fs2) as Hcp1.
  { destruct (Hne p1 c1 Hp1) as [H1 H2].
    apply copyFileSync_ok.
    - done.
    - unfold fs1. rewrite lookup_insert_ne by done. by rewrite Hfresh.
    - rewrite parent_snoc. apply lookup_insert_eq.
    - by destruct A. }
  assert (fs2 !! A = Some Dir) as HA2.
  { unfold fs2. rewrite lookup_insert_ne by done. apply lookup_insert_eq. }
  assert (Fs.copyFileSync p2 (A ++ [basename p2]) fs2 = inr fs3) as Hcp2.
  { destruct (Hne p2 c2 Hp2) as [H1 H2].
    apply copyFileSync_ok.
    - done.
    - unfold fs2. destruct (decide (basename p1 = basename p2)) as [->|Hb].
      + by rewrite lookup_insert_eq.
      + rewrite lookup_insert_ne by (intros Heq; by apply app_inj_tail in Heq as [_ ?]).
        unfold fs1. rewrite lookup_insert_ne by done. by rewrite Hfresh.
    - by rewrite parent_snoc.
    - by destruct A. }
  assert (∀ k, under A k = false → fs3 !! k = fs !! k) as Hframe.
  { intros k Hk. unfold fs3, fs2, fs1.
    rewrite !lookup_insert_ne; [done | | |]; intros <-;
      by rewrite ?under_refl, ?under_app in Hk. }
  eexists. split; [|split; [|split; [|split]]].
  - unfold stageAssets. rewrite bool_decide_eq_true_2 by (simpl; lia).
    fold (tempAssetsDirOf env). fold A.
    unfold bind at 1, console_log at 1, emit at 1. unfold bind at 1, onFiles at 1, fsRead.
    simpl files. simpl trace. fold fs.
    unfold Fs.existsSync at 1. rewrite HA. simpl negb. unfold when at 1.
    unfold bind at 1, onFiles at 1, fsUpdate. simpl files. fold fs. rewrite Hmk.
    simpl trace. unfold bind at 1.
    rewrite (stageLoop_file env fuel f1 [Some f2] false _ c1 fs2); simpl files; fold p1 A;
      [| exact Hf1 | exact Hcp1].
    rewrite (stageLoop_file env fuel f2 [] true _ c2 fs3); simpl files; fold p2 A;
      [| exact Hf2 | exact Hcp2].
    simpl stageLoop. unfold ret at 1.
    apply (stageAssets_finish env w b Htemp Hbundle fs3). exact Hframe.
  - simpl. rewrite lookup_insert_ne.
    + unfold fs3. apply lookup_insert_eq.
    + rewrite bundleFileOf_eq, HAeq. intros Heq. apply (f_equal length) in Heq.
      rewrite !length_app in Heq. simpl in Heq. lia.
  - intros Hb. simpl. rewrite lookup_insert_ne.
    + unfold fs3. rewrite lookup_insert_ne
        by (intros Heq; apply app_inj_tail in Heq as [_ ?]; congruence).
      unfold fs2. apply lookup_insert_eq.
    + rewrite bundleFileOf_eq, HAeq. intros Heq. apply (f_equal length) in Heq.
      rewrite !length_app in Heq. simpl in Heq. lia.
  - intros n Hn1 Hn2. simpl. rewrite lookup_insert_ne.
    + unfold fs3, fs2, fs1.
      rewrite !lookup_insert_ne; [apply Hfresh | | |];
        first [ apply not_eq_sym, Hsn
              | intros Heq; apply app_inj_tail in Heq as [_ ?]; congruence ].
    + rewrite bundleFileOf_eq, HAeq. intros Heq. apply (f_equal length) in Heq.
      rewrite !length_app in Heq. simpl in Heq. lia.
  - intros k Hk. simpl. rewrite lookup_insert_ne.
    + apply Hframe. destruct (under A k) eqn:Eu; [|done].
      rewrite HAeq in Eu. by rewrite (under_parent _ _ _ Eu) in Hk.
    + intros <-. by rewrite bundleFileOf_eq, under_app in Hk.
Qed.

(** ** A build without assets *)

Lemma bundleStep_succeeds (env : Env) (nodeVersion : string) (entryPointPath : path)
    (w : world) (fs1 : FS) :
  withTempDir env (files w) = inr fs1 →
  (esbuild env (buildOptionsOf env nodeVersion entryPointPath) fs1).2 = None →
  bundleStep env nodeVersion entryPointPath w
  = Returns tt
      {| files := (esbuild env (buildOptionsOf env nodeVersion entryPointPath) fs1).1;
         trace := trace w ++
           [ Log [VStr "Temp directory:"; VPath (tempDirOf env)];
             Log [VStr "Bundle file:"; VPath (bundleFileOf env)];
             Build (buildOptionsOf env nodeVersion entryPointPath) fs1;
             Log [VStr "✅ TypeScript bundling complete"] ] |}.
Proof.
  intros Htemp Hok. unfold withTempDir in Htemp.
  unfold bundleStep, bind, console_log, console_error, emit, onFiles, fsRead, when,
    tryCatch, esbuild_build, call, throw. simpl.
  fold (buildOptionsOf env nodeVersion entryPointPath).
  destruct (Fs.existsSync (files w) (tempDirOf env)); simpl.
  - injection Htemp as <-. rewrite Hok. simpl. by rewrite <- !app_assoc.
  - unfold fsUpdate. rewrite Htemp. simpl. rewrite Hok. simpl. by rewrite <- !app_assoc.
Qed.

(** X8: a build without assets whose bundler succeeds: the bundler is
    called once, then the packager once, on the files that the bundler
    left and with an empty assets option; [compile] returns when the
    packager succeeds and throws its error otherwise, and in both cases
    the files are those the packager left, without the temp directory.
    The same holds of the earlier revision. *)
Theorem build_without_assets (env : Env) (fuel : nat) (options : CompileOptions)
    (fs fs1 : FS) :
  let entryPointPath := resolve (process_cwd env) (entryPoint options) in
  let nodeVersion := default "16" (nodeVersion options) in
  let buildOptions := buildOptionsOf env nodeVersion entryPointPath in
  let command :=
    pkgCommand (bundleFileOf env)
      (String.concat "," (pkgTargets nodeVersion
                            (default (defaultPlatform env) (platform options))))
      "" (outFile options) in
  let fs2 := (esbuild env buildOptions fs1).1 in
  let fs3 := (shell env command fs2).1 in
  assetsArrayOf (default (AssetList []) (assets options)) = [] →
  Fs.existsSync fs entryPointPath = true →
  withTempDir env fs = inr fs1 →
  (esbuild env buildOptions fs1).2 = None →
  ∀ revision, revision = compile ∨ revision = Earlier.compile →
  ∃ w,
    final (run (revision env fuel options) fs) = Some w
    ∧ files w = Fs.rmSync (tempDirOf env) fs3
    ∧ builds (trace w) = [Build buildOptions fs1]
    ∧ execs (trace w) = [Exec command fs2]
    ∧ match (shell env command fs2).2 with
      | None => run (revision env fuel options) fs = Returns tt w
      | Some e => run (revision env fuel options) fs = Throws e w
      end.
Proof.
  intros entryPointPath nodeVersion buildOptions command fs2 fs3
    Hassets Hentry Htemp Hbuild revision Hrev.
  destruct Hrev as [->| ->].
  - remember (run (compile env fuel options) fs) as o eqn:Ho.
    unfold run, compile in Ho. unfold bind at 1 in Ho.
    rewrite checkEntry_found in Ho by done.
    unfold bind at 1 in Ho. fold nodeVersion entryPointPath in Ho.
    rewrite (bundleStep_succeeds env nodeVersion entryPointPath _ fs1) in Ho by done.
    fold buildOptions fs2 in Ho. rewrite Hassets in Ho.
    unfold stageAssets in Ho. simpl bool_decide in Ho. cbv iota in Ho.
    unfold bind at 1, ret at 1 in Ho.
    unfold packageStep, assetsOption, package, tryFinally, tryCatch, bind, ret, when,
      console_log, console_error, emit, execAsync, call, throw, onFiles in Ho.
    simpl in Ho. fold command in Ho. fold fs3 in Ho.
    destruct (shell env command fs2).2 as [e|]; simpl in Ho; subst o;
      (eexists; split; [reflexivity |]; simpl; split; [done |]; split; [done |];
       split; [done | reflexivity]).
  - remember (run (Earlier.compile env fuel options) fs) as o eqn:Ho.
    unfold run, Earlier.compile in Ho. unfold bind at 1 in Ho.
    rewrite checkEntry_found in Ho by done.
    unfold bind at 1 in Ho. fold nodeVersion entryPointPath in Ho.
    rewrite (bundleStep_succeeds env nodeVersion entryPointPath _ fs1) in Ho by done.
    fold buildOptions fs2 in Ho. rewrite Hassets in Ho.
    unfold Earlier.stageAssets in Ho. simpl bool_decide in Ho. unfold when at 1 in Ho.
    unfold bind at 1, ret at 1 in Ho.
    unfold Earlier.packageStep, Earlier.pkgAssetsOption, tryFinally, tryCatch, bind, ret,
      console_log, console_error, emit, execAsync, call, throw, onFiles in Ho.
    simpl in Ho. fold command in Ho. fold fs3 in Ho.
    destruct (shell env command fs2).2 as [e|]; simpl in Ho; subst o;
      (eexists; split; [reflexivity |]; simpl; split; [done |]; split; [done |];
       split; [done | reflexivity]).
Qed.

(** ** More examples *)

Lemma settled_final {S A : Type} (d : S) (o : outcome S A) :
  settled o = true → final o = Some (stateOf d o).
Proof. by destruct o. Qed.

Lemma isRight_rightOf {E A : Type} (d : A) (x : E + A) :
  isRight x = true → x = inr (rightOf d x).
Proof. by destruct x. Qed.

Lemma directory_copy_result_witness :
  let src := ["w"; "images"] in
  let dst := ["w"; "out"] in
  ∃ fs', copyDirectoryRecursive 2 src dst exampleFs = Returns tt fs'
    ∧ wf fs'
    ∧ (∀ r e, exampleFs !! (src ++ r) = Some e → fs' !! (dst ++ r) = Some e)
    ∧ (∀ r, exampleFs !! (src ++ r) = None → fs' !! (dst ++ r) = exampleFs !! (dst ++ r))
    ∧ (∀ k, under dst k = false → fs' !! k = exampleFs !! k).
Proof.
  intros src dst.
  apply (directory_copy_result 2 src dst exampleFs).
  - apply wfCheck_wf. vm_compute. reflexivity.
  - split; vm_compute; reflexivity.
  - vm_compute. reflexivity.
  - discriminate.
  - vm_compute. reflexivity.
  - apply compatibleCheck_compatible. vm_compute. reflexivity.
  - apply depthCheck_depth. vm_compute. reflexivity.
  - left. reflexivity.
Defined.

Lemma directory_copy_frame_witness :
  let src := ["w"; "images"] in
  let dst := ["w"; "out"] in
  let fs' := stateOf ∅ (copyDirectoryContents 2 src dst exampleFs) in
  (∀ k, under dst k = false → is_Some (exampleFs !! k) → fs' !! k = exampleFs !! k)
  ∧ (∀ k e, exampleFs !! k = Some e →
            ∃ e', fs' !! k = Some e' ∧ isDirEntry e' = isDirEntry e)
  ∧ (wf exampleFs → wf fs').
Proof.
  intros src dst fs'.
  apply (directory_copy_frame 2 src dst exampleFs fs' (copyDirectoryContents 2)).
  - right. reflexivity.
  - apply (settled_final ∅ (copyDirectoryContents 2 src dst exampleFs)).
    vm_compute. reflexivity.
Defined.

Lemma directory_copy_missing_source_witness :
  let src := ["w"; "nope"] in
  let dst := ["w"; "out"] in
  (is_Some (exampleFs !! dst) →
   copyDirectoryContents 0 src dst exampleFs = Throws (SystemError "ENOENT" src) exampleFs)
  ∧ (wf exampleFs → exampleFs !! dst = None → dst ≠ [] →
     exampleFs !! parent dst = Some Dir →
     copyDirectoryContents 0 src dst exampleFs
     = Throws (SystemError "ENOENT" src) (<[dst := Dir]> exampleFs)).
Proof.
  intros src dst.
  apply (directory_copy_missing_source 0 src dst exampleFs).
  - vm_compute. reflexivity.
  - vm_compute. reflexivity.
  - right. reflexivity.
Defined.

Lemma directory_copy_idempotent_witness :
  let src := ["w"; "images"] in
  let dst := ["w"; "out"] in
  ∃ fs', copyDirectoryRecursive 2 src dst exampleFs = Returns tt fs'
    ∧ copyDirectoryRecursive 2 src dst fs' = Returns tt fs'.
Proof.
  intros src dst.
  apply (directory_copy_idempotent 2 src dst exampleFs).
  - apply wfCheck_wf. vm_compute. reflexivity.
  - split; vm_compute; reflexivity.
  - vm_compute. reflexivity.
  - discriminate.
  - vm_compute. reflexivity.
  - apply compatibleCheck_compatible. vm_compute. reflexivity.
  - apply depthCheck_depth. vm_compute. reflexivity.
Defined.

Lemma directory_copies_last_wins_witness :
  let src1 := ["w"; "images"] in
  let src2 := ["w"; "icons"] in
  let dst := ["w"; "out"] in
  ∃ fs1 fs2,
    copyDirectoryContents 1 src1 dst iconsFs = Returns tt fs1
    ∧ copyDirectoryContents 1 src2 dst fs1 = Returns tt fs2
    ∧ (∀ r, fs2 !! (dst ++ r)
            = match iconsFs !! (src2 ++ r) with
              | Some e => Some e
              | None => match iconsFs !! (src1 ++ r) with
                        | Some e => Some e
                        | None => iconsFs !! (dst ++ r)
                        end
              end)
    ∧ (∀ k, under dst k = false → fs2 !! k = iconsFs !! k).
Proof.
  intros src1 src2 dst.
  apply (directory_copies_last_wins 1 src1 src2 dst iconsFs).
  - apply wfCheck_wf. vm_compute. reflexivity.
  - split; vm_compute; reflexivity.
  - split; vm_compute; reflexivity.
  - vm_compute. reflexivity.
  - vm_compute. reflexivity.
  - discriminate.
  - vm_compute. reflexivity.
  - apply compatibleCheck_compatible. vm_compute. reflexivity.
  - apply compatibleCheck_compatible. vm_compute. reflexivity.
  - apply compatibleCheck_compatible. vm_compute. reflexivity.
  - apply depthCheck_depth. vm_compute. reflexivity.
  - apply depthCheck_depth. vm_compute. reflexivity.
Defined.

Lemma bundler_failure_leaves_temp_witness :
  let entryPointPath := resolve (process_cwd brokenEnv) (entryPoint plainOptions) in
  let buildOptions :=
    buildOptionsOf brokenEnv (default "16" (nodeVersion plainOptions)) entryPointPath in
  let fs1 := rightOf ∅ (withTempDir brokenEnv exampleFs) in
  ∃ w, run (compile brokenEnv 0 plainOptions) exampleFs = Throws (Error "build failed") w
    ∧ files w = (esbuild brokenEnv buildOptions fs1).1
    ∧ In (ErrorLog [VStr "❌ Error bundling with esbuild:"; VError (Error "build failed")])
         (trace w)
    ∧ execs (trace w) = []
    ∧ (Fs.existsSync (esbuild brokenEnv buildOptions fs1).1 (tempDirOf brokenEnv) = true →
       Fs.existsSync (files w) (tempDirOf brokenEnv) = true).
Proof.
  intros entryPointPath buildOptions fs1.
  apply (bundler_failure_leaves_temp brokenEnv 0 plainOptions exampleFs fs1
           (Error "build failed")).
  - vm_compute. reflexivity.
  - apply (isRight_rightOf ∅ (withTempDir brokenEnv exampleFs)). vm_compute. reflexivity.
  - reflexivity.
  - left. reflexivity.
Defined.

Lemma bundler_called_once_witness :
  let w := worldOf (run (compile exampleEnv 0 plainOptions) exampleFs) in
  let entryPointPath := resolve (process_cwd exampleEnv) (entryPoint plainOptions) in
  let buildOptions :=
    buildOptionsOf exampleEnv (default "16" (nodeVersion plainOptions)) entryPointPath in
  builds (trace w)
  = if Fs.existsSync exampleFs entryPointPath
    then match withTempDir exampleEnv exampleFs with
         | inr fs1 => [Build buildOptions fs1]
         | inl _ => []
         end
    else [].
Proof.
  intros w.
  apply (bundler_called_once exampleEnv 0 plainOptions exampleFs w compile).
  - left. reflexivity.
  - apply (ended_worldOf (run (compile exampleEnv 0 plainOptions) exampleFs)).
    vm_compute. reflexivity.
Defined.


Lemma readme_failure_skips_cleanup_witness :
  let options := withAssets plainOptions (AssetList [Some "docs"]) in
  let w0 := worldOf (run (beforePackaging exampleEnv 5 options) readmeDirFs) in
  ∃ w, run (compile exampleEnv 5 options) readmeDirFs
       = Throws (SystemError "EISDIR" (readmePathOf exampleEnv)) w
    ∧ files w = files w0
    ∧ execs (trace w) = [].
Proof.
  intros options w0.
  apply (readme_failure_skips_cleanup exampleEnv 5 options readmeDirFs w0).
  - apply (returned_worldOf (run (beforePackaging exampleEnv 5 options) readmeDirFs)).
    vm_compute. reflexivity.
  - vm_compute. reflexivity.
Defined.

Lemma staging_keeps_user_files_witness :
  let assetsArray := [Some "config.json"; Some "images"] in
  let w' := worldOf (stageAssets exampleEnv 1 assetsArray bundledWorld) in
  (∀ k, under (tempDirOf exampleEnv) k = false → is_Some (files bundledWorld !! k) →
        files w' !! k = files bundledWorld !! k)
  ∧ (∀ k e, files bundledWorld !! k = Some e →
            ∃ e', files w' !! k = Some e' ∧ isDirEntry e' = isDirEntry e).
Proof.
  intros assetsArray w'.
  apply (staging_keeps_user_files exampleEnv 1 assetsArray bundledWorld w').
  apply (ended_worldOf (stageAssets exampleEnv 1 assetsArray bundledWorld)).
  vm_compute. reflexivity.
Defined.

Lemma earlier_directory_nested_witness :
  let fs := files bundledWorld in
  let A := tempAssetsDirOf exampleEnv in
  let pd := resolve (process_cwd exampleEnv) "images" in
  let target := A ++ [basename pd] in
  ∃ w', Earlier.stageAssets exampleEnv 2 [Some "images"] bundledWorld = Returns tt w'
    ∧ files w' !! A = Some Dir
    ∧ (∀ r e, fs !! (pd ++ r) = Some e → files w' !! (target ++ r) = Some e)
    ∧ (∀ r, fs !! (pd ++ r) = None → files w' !! (target ++ r) = None)
    ∧ (∀ k, under A k = false → files w' !! k = fs !! k).
Proof.
  apply (earlier_directory_nested exampleEnv 2 "images" bundledWorld).
  - apply wfCheck_wf. vm_compute. reflexivity.
  - vm_compute. reflexivity.
  - vm_compute. reflexivity.
  - vm_compute. reflexivity.
  - split; vm_compute; reflexivity.
  - apply depthCheck_depth. vm_compute. reflexivity.
Defined.

Lemma earlier_assets_option_by_length_witness :
  let options := withAssets plainOptions (AssetList [Some "nope"]) in
  let w := worldOf (run (Earlier.compile exampleEnv 1 options) exampleFs) in
  (callOf (trace w)).1
  = pkgCommand (bundleFileOf exampleEnv)
      (String.concat ","
         (pkgTargets (default "16" (nodeVersion options))
            (default (defaultPlatform exampleEnv) (platform options))))
      (match assetsArrayOf (default (AssetList []) (assets options)) with
       | [] => ""
       | _ => "--assets " +:+ quote +:+ render (tempDirOf exampleEnv) +:+ "/assets/**/*"
              +:+ quote
       end)
      (outFile options).
Proof.
  intros options w.
  apply (earlier_assets_option_by_length exampleEnv 1 options exampleFs w
           (callOf (trace w)).1 (callOf (trace w)).2).
  - apply (ended_worldOf (run (Earlier.compile exampleEnv 1 options) exampleFs)).
    vm_compute. reflexivity.
  - apply (called_In (trace w)). vm_compute. reflexivity.
Defined.

Lemma earlier_staging_removed_witness :
  let w := worldOf (run (Earlier.compile failingEnv 2 exampleOptions) exampleFs) in
  Fs.existsSync (files w) (tempDirOf failingEnv) = false
  ∧ (∀ k, under (tempDirOf failingEnv) k = true → files w !! k = None)
  ∧ ∃ cmd fs1,
      execs (trace w) = [Exec cmd fs1]
      ∧ match (shell failingEnv cmd fs1).2 with
        | None => run (Earlier.compile failingEnv 2 exampleOptions) exampleFs = Returns tt w
        | Some e =>
            run (Earlier.compile failingEnv 2 exampleOptions) exampleFs = Throws e w
            ∧ In (ErrorLog [VStr "❌ Error creating executable:"; VError e]) (trace w)
        end.
Proof.
  intros w.
  apply (earlier_staging_removed failingEnv 2 exampleOptions exampleFs w).
  - apply (ended_worldOf (run (Earlier.compile failingEnv 2 exampleOptions) exampleFs)).
    vm_compute. reflexivity.
  - apply (called_execs (trace w)). vm_compute. reflexivity.
Defined.

Lemma parseArgs_tokens_witness :
  let acc := initialParsed exampleEnv in
  let args := concat (tokenArgs <$> exampleTokens) in
  parseArgs args acc = foldl applyToken acc exampleTokens
  ∧ (∀ o short, parseArgs (args ++ [flagOf o short]) acc
                = setOption o None (foldl applyToken acc exampleTokens))
  ∧ p_assets (parseArgs args acc) = p_assets acc ++ assetValues exampleTokens
  ∧ (∀ ts1 s ts2, exampleTokens = ts1 ++ TEntry s :: ts2 →
                   Forall (λ t, ∀ s', t ≠ TEntry s') ts2 →
                   p_entryPoint (parseArgs args acc) = s).
Proof.
  intros acc.
  apply (parseArgs_tokens exampleTokens acc).
  repeat constructor.
Defined.

Lemma helper_directory_masks_witness :
  let w := {| files := maskedFs; trace := [] |} in
  let p := ["usr"; "bin"; "assets"; "a.txt"] in
  Helper.readAsset devProcess "a.txt" w
  = Throws (SystemError "EISDIR" p)
      {| files := files w;
         trace := trace w ++
           [ErrorLog [VStr ("Error reading asset file " +:+ "a.txt" +:+ ":");
                      VError (SystemError "EISDIR" p)]] |}.
Proof.
  intros w p.
  apply (helper_directory_masks devProcess "a.txt" w p).
  - vm_compute. reflexivity.
  - vm_compute. reflexivity.
Defined.

Lemma files_staged_by_basename_witness :
  let w := {| files := bundled exampleEnv configsFs "B"; trace := [] |} in
  let A := tempAssetsDirOf exampleEnv in
  let p1 := resolve (process_cwd exampleEnv) "a/config.json" in
  let p2 := resolve (process_cwd exampleEnv) "b/config.json" in
  ∃ w', stageAssets exampleEnv 0 [Some "a/config.json"; Some "b/config.json"] w
        = Returns true w'
    ∧ files w' !! (A ++ [basename p2]) = Some (File "second")
    ∧ (basename p1 ≠ basename p2 → files w' !! (A ++ [basename p1]) = Some (File "first"))
    ∧ (∀ n, n ≠ basename p1 → n ≠ basename p2 → files w' !! (A ++ [n]) = None)
    ∧ (∀ k, under (tempDirOf exampleEnv) k = false → files w' !! k = files w !! k).
Proof.
  intros w.
  apply (files_staged_by_basename exampleEnv 0 "a/config.json" "b/config.json" w
           "B" "first" "second").
  - apply wfCheck_wf. vm_compute. reflexivity.
  - vm_compute. reflexivity.
  - vm_compute. reflexivity.
  - vm_compute. reflexivity.
  - vm_compute. reflexivity.
  - vm_compute. reflexivity.
Defined.

Lemma build_without_assets_witness :
  let fs1 := rightOf ∅ (withTempDir exampleEnv exampleFs) in
  let entryPointPath := resolve (process_cwd exampleEnv) (entryPoint plainOptions) in
  let nodeVersion := default "16" (nodeVersion plainOptions) in
  let buildOptions := buildOptionsOf exampleEnv nodeVersion entryPointPath in
  let command :=
    pkgCommand (bundleFileOf exampleEnv)
      (String.concat "," (pkgTargets nodeVersion
                            (default (defaultPlatform exampleEnv) (platform plainOptions))))
      "" (outFile plainOptions) in
  let fs2 := (esbuild exampleEnv buildOptions fs1).1 in
  let fs3 := (shell exampleEnv command fs2).1 in
  ∃ w,
    final (run (compile exampleEnv 0 plainOptions) exampleFs) = Some w
    ∧ files w = Fs.rmSync (tempDirOf exampleEnv) fs3
    ∧ builds (trace w) = [Build buildOptions fs1]
    ∧ execs (trace w) = [Exec command fs2]
    ∧ match (shell exampleEnv command fs2).2 with
      | None => run (compile exampleEnv 0 plainOptions) exampleFs = Returns tt w
      | Some e => run (compile exampleEnv 0 plainOptions) exampleFs = Throws e w
      end.
Proof.
  intros fs1.
  apply (build_without_assets exampleEnv 0 plainOptions exampleFs fs1).
  - reflexivity.
  - vm_compute. reflexivity.
  - apply (isRight_rightOf ∅ (withTempDir exampleEnv exampleFs)). vm_compute. reflexivity.
  - reflexivity.
  - left. reflexivity.
Defined.

(** * The statements on staging, the helper, the command line and the README *)

(** ** When the helper is injected *)

Section StagingFlag.
Context (env : Env) (fuel : nat).

(** The flag after the loop is set exactly when it was set before or
    the loop came to a listed path that existed then. *)
Lemma stageLoop_flag_iff : ∀ (l : list (option string)) (h : bool) (w w' : world) (h' : bool),
  stageLoop env fuel (tempAssetsDirOf env) l h w = Returns h' w' →
  h' = true
  ↔ h = true
    ∨ ∃ before s after h1 w1,
        l = before ++ Some s :: after
        ∧ stageLoop env fuel (tempAssetsDirOf env) before h w = Returns h1 w1
        ∧ Fs.existsSync (files w1) (resolve (process_cwd env) s) = true.
Proof.
  induction l as [|asset rest IH]; intros h w w' h' Hrun.
  - injection Hrun as <- <-. split; [by left |].
    intros [?|(before & s & after & h1 & w1 & Heq & _)]; [done |].
    by destruct before.
  - destruct asset as [s|]; [|done].
    destruct (Fs.existsSync (files w) (resolve (process_cwd env) s)) eqn:Hp.
    + (* present: the flag is set *)
      assert (h' = true) as ->.
      { destruct (stageLoop_flag env fuel (Some s :: rest) h w w' h' Hrun) as [_ Hset].
        apply Hset. right. exists s. split; [by left | done]. }
      split; [|done]. intros _. right.
      exists [], s, rest, h, w. split; [done |]. split; [done | done].
    + (* missing: skipped *)
      rewrite stageLoop_missing in Hrun by done.
      rewrite (IH _ _ _ _ Hrun). split.
      * intros [?|(before & s' & after & h1 & w1 & -> & Hb & He)]; [by left |].
        right. exists (Some s :: before), s', after, h1, w1.
        split; [done |]. split; [|done]. by rewrite stageLoop_missing.
      * intros [?|(before & s' & after & h1 & w1 & Heq & Hb & He)]; [by left |].
        destruct before as [|a before].
        -- injection Heq as -> ->. injection Hb as <- <-. by rewrite He in Hp.
        -- injection Heq as <- ->. rewrite stageLoop_missing in Hb by done.
           right. exists before, s', after, h1, w1. done.
Qed.

(** A run of step 2 that returns has run the loop from [loopStart]. *)
Lemma stageAssets_loop (assetsArray : list (option string)) (w w' : world) (hasAssets : bool) :
  stageAssets env fuel assetsArray w = Returns hasAssets w' →
  assetsArray ≠ [] →
  ∃ w2,
    stageLoop env fuel (tempAssetsDirOf env) assetsArray false (loopStart env w)
    = Returns hasAssets w2.
Proof.
  intros Hrun Hne. unfold stageAssets in Hrun.
  rewrite bool_decide_eq_true_2 in Hrun by (destruct assetsArray; [done | simpl; lia]).
  fold (tempAssetsDirOf env) in Hrun. unfold loopStart.
  set (A := tempAssetsDirOf env) in *.
  unfold bind, console_log, emit in Hrun. simpl in Hrun.
  destruct (Fs.existsSync (files w) A) eqn:HexA; simpl in Hrun.
  - destruct (stageLoop env fuel A assetsArray false _) as [h w2|e w2|c w2|] eqn:Hloop;
      try done.
    exists w2. f_equal.
    destruct (when h (injectHelper (bundleFileOf env)) w2) as [[] w3|e w3|c w3|];
      simpl in Hrun; try done. by injection Hrun as <- _.
  - unfold onFiles, fsUpdate in Hrun. simpl in Hrun.
    destruct (Fs.mkdirSync A (files w)) as [e|fs1] eqn:Hm; simpl in Hrun;
      [discriminate Hrun |].
    destruct (stageLoop env fuel A assetsArray false _) as [h w2|e w2|c w2|] eqn:Hloop;
      try done.
    exists w2. f_equal.
    destruct (when h (injectHelper (bundleFileOf env)) w2) as [[] w3|e w3|c w3|];
      simpl in Hrun; try done. by injection Hrun as <- _.
Qed.
End StagingFlag.

Section StagingSteps.
Context (env : Env) (fuel : nat).

(** The loop over a list in two parts. *)
Lemma stageLoop_app : ∀ (l1 l2 : list (option string)) (h : bool) (w : world),
  stageLoop env fuel (tempAssetsDirOf env) (l1 ++ l2) h w
  = bind (stageLoop env fuel (tempAssetsDirOf env) l1 h)
      (λ h1, stageLoop env fuel (tempAssetsDirOf env) l2 h1) w.
Proof.
  induction l1 as [|a l1 IH]; intros l2 h w; [done |].
  destruct a as [s|]; [|done].
  simpl. unfold bind, ret, console_log, console_warn, emit, onFiles, fsRead, fsTry, fsUpdate.
  simpl.
  destruct (Fs.existsSync (files w) (resolve (process_cwd env) s)); simpl.
  - destruct (Fs.isDirectory (files w) (resolve (process_cwd env) s)) as [e|[|]]; simpl;
      [done | |].
    + destruct (copyDirectoryContents fuel _ _ (files w)) as [[] fs1|e fs1|c fs1|];
        simpl; done.
    + destruct (Fs.copyFileSync _ _ (files w)) as [e|fs1]; simpl; done.
  - apply IH.
Qed.

(** A listed regular file that the loop comes to, in a run of the loop
    that returns, is copied under its base name at that step. *)
Lemma stageLoop_copies (l : list (option string)) (w0 w' : world) (h' : bool)
    (s : string) (w1 : world) (c : string) :
  let p := resolve (process_cwd env) s in
  stageLoop env fuel (tempAssetsDirOf env) l false w0 = Returns h' w' →
  examines env fuel l w0 s w1 →
  files w1 !! p = Some (File c) →
  ∃ w2, stageLoop env fuel (tempAssetsDirOf env) [Some s] false w1 = Returns true w2
        ∧ files w2 = <[tempAssetsDirOf env ++ [basename p] := File c]> (files w1).
Proof.
  intros p Hrun (before & after & h & -> & Hbefore) Hp.
  rewrite stageLoop_app in Hrun. unfold bind at 1 in Hrun. rewrite Hbefore in Hrun.
  destruct (Fs.copyFileSync p (tempAssetsDirOf env ++ [basename p]) (files w1))
    as [e|fs'] eqn:Hc.
  - exfalso. revert Hrun. simpl.
    unfold bind, ret, console_log, emit, onFiles, fsRead, fsTry, fsUpdate,
      Fs.existsSync, Fs.isDirectory.
    simpl. fold p. rewrite Hp. simpl. rewrite Hp. simpl. by rewrite Hc.
  - rewrite (stageLoop_file env fuel s [] false w1 c fs' Hp Hc). simpl.
    eexists. split; [reflexivity |]. simpl.
    unfold Fs.copyFileSync in Hc. rewrite Hp in Hc.
    by apply writeFileSync_inr in Hc as (-> & _).
Qed.
End StagingSteps.

(** C5, amended: after [stageAssets] the bundle is the helper text
    followed by the bundle as it was when the flag [hasAssets] is set,
    and the bundle as it was otherwise.  The flag is set exactly when the
    loop, started once the assets directory is there, comes to a listed
    path that exists at that moment, whether or not anything is copied
    from it; a listed regular file is copied under its base name at that
    step.  A list whose paths are all missing when the loop starts leaves
    the bundle as it was. *)
Theorem helper_injected_iff (env : Env) (fuel : nat) (assetsArray : list (option string))
    (w w' : world) (b : string) (hasAssets : bool) :
  let present (fs : FS) (s : string) := Fs.existsSync fs (resolve (process_cwd env) s) in
  files w !! bundleFileOf env = Some (File b) →
  stageAssets env fuel assetsArray w = Returns hasAssets w' →
  (* the bundle afterwards *)
  files w' !! bundleFileOf env
    = Some (File (if hasAssets then assetHelperCode +:+ b else b))
  (* injected: exactly when the loop came to a listed path that existed *)
  ∧ (hasAssets = true
     ↔ ∃ s w1, examines env fuel assetsArray (loopStart env w) s w1
               ∧ present (files w1) s = true)
  (* a regular file that the loop comes to is copied under its base name *)
  ∧ (∀ s w1 c,
       examines env fuel assetsArray (loopStart env w) s w1 →
       files w1 !! resolve (process_cwd env) s = Some (File c) →
       ∃ w2, stageLoop env fuel (tempAssetsDirOf env) [Some s] false w1 = Returns true w2
             ∧ files w2
               = <[tempAssetsDirOf env ++ [basename (resolve (process_cwd env) s)] := File c]>
                   (files w1))
  (* every listed path missing when the loop starts: not injected *)
  ∧ ((∀ a, In a assetsArray → missingAsset env (files (loopStart env w)) a) →
     hasAssets = false).
Proof.
  intros present Hb Hrun.
  destruct (decide (assetsArray = [])) as [->|Hne].
  { injection Hrun as <- <-. split; [done |]. split; [|split; [|done]].
    - split; [done |].
      intros (s & w1 & (before & after & h & Heq & _) & _). by destruct before.
    - intros s w1 c (before & after & h & Heq & _). by destruct before. }
  destruct (stageAssets_inv env fuel assetsArray w w' hasAssets Hrun Hne)
    as (w1 & w2 & Hmk & Hloop & Hinj).
  destruct (stageAssets_loop env fuel assetsArray w w' hasAssets Hrun Hne) as (w2' & Hloop').
  set (A := tempAssetsDirOf env) in *.
  assert (preserves A (files w) (files w1)) as (Ht1 & Hk1 & _).
  { destruct Hmk as [[_ ->]|[_ Hmk]]; [apply preserves_refl | by apply mkdirSync_preserves]. }
  pose proof (stageLoop_preserves env fuel assetsArray false w1 w2) as Hpres.
  fold A in Hpres. rewrite Hloop in Hpres. destruct (Hpres eq_refl) as (Ht2 & Hk2 & _).
  assert (files w2 !! bundleFileOf env = Some (File b)) as Hb2.
  { rewrite Ht2, Ht1; [done | apply bundle_outside_assets | left; by rewrite Hb
                       | apply bundle_outside_assets |].
    left. rewrite Ht1; [by rewrite Hb | apply bundle_outside_assets | left; by rewrite Hb]. }
  split; [|split; [|split]].
  - destruct hasAssets.
    + destruct Hinj as (b' & Hb' & ->). rewrite lookup_insert_eq. congruence.
    + by rewrite Hinj.
  - rewrite (stageLoop_flag_iff env fuel _ _ _ _ _ Hloop'). split.
    + intros [?|(before & s & after & h1 & w3 & Heq & Hb3 & He)]; [done |].
      exists s, w3. split; [|done]. by exists before, after, h1.
    + intros (s & w3 & (before & after & h1 & Heq & Hb3) & He).
      right. by exists before, s, after, h1, w3.
  - intros s w3 c Hex Hfile.
    by apply (stageLoop_copies env fuel assetsArray (loopStart env w) w2' hasAssets).
  - intros Hall.
    destruct (stageLoop_all_missing env fuel assetsArray false (loopStart env w) Hall)
      as (t & Hret & _).
    fold A in Hret. rewrite Hret in Hloop'. by injection Hloop' as <- _.
Qed.

(** ** The order of the lookup *)

(** C6, amended: the helper tries the assets directory beside the
    executable, the one under the working directory, the snapshot path
    when [process.pkg] is set and only then, and the one beside the
    bundle source, in this order, and stops at the first candidate that
    exists.  A regular file there gives its content; a directory makes
    the read throw EISDIR, which is logged and rethrown, and no later
    candidate is tried.  When no candidate exists the error names the
    requested file.  For a name that ends in a slash a candidate exists
    only as a directory. *)
Theorem readAsset_order (proc : Helper.Process) (filename : string) (w : world) :
  let fs := files w in
  let candidates :=
    [ HelperSpec.beside (parent (Helper.execPath proc)) filename;
      HelperSpec.beside (Helper.cwd proc) filename ]
    ++ (if Helper.pkg proc then [HelperSpec.snapshotPath filename] else [])
    ++ [ HelperSpec.beside (Helper.dirname proc) filename ] in
  let failure (e : error) : outcome world string :=
    Throws e {| files := fs;
                trace := trace w ++
                  [ErrorLog [VStr ("Error reading asset file " +:+ filename +:+ ":");
                             VError e]] |} in
  match List.find (HelperSpec.present fs filename) candidates with
  | Some p =>
      match fs !! p with
      | Some (File content) => Helper.readAsset proc filename w = Returns content w
      | Some Dir => Helper.readAsset proc filename w = failure (SystemError "EISDIR" p)
      | None => False
      end
  | None =>
      Helper.readAsset proc filename w
      = failure (Error ("Asset file not found: " +:+ filename))
  end.
Proof.
  intros fs candidates failure.
  rewrite readAsset_lookup, lookup_tried. unfold HelperSpec.firstAs.
  change (HelperSpec.tried proc filename) with candidates. fold fs.
  destruct (List.find (HelperSpec.present fs filename) candidates) as [p|] eqn:Hfind;
    [|done].
  apply find_some in Hfind as [_ Hp].
  unfold HelperSpec.present, Fs.existsSyncAs in Hp. unfold Fs.readFileSyncAs.
  destruct (fs !! p) as [[content|]|]; [|done | done].
  destruct (endsWithSlash filename); [done |]. by destruct w.
Qed.

(** C6 as stated fails in two ways.  Outside pkg, [a.txt] is at the
    snapshot path only, the third of the four listed locations and the
    first that exists, and the helper does not find it.  And where the
    first listed location that exists is a directory, the helper throws
    instead of returning content, though a later location holds the
    file. *)
Lemma readAsset_snapshot_guarded :
  (HelperSpec.firstOf (HelperSpec.listed devProcess "a.txt") "a.txt" snapshotOnly = inr "data"
   ∧ Helper.lookup devProcess "a.txt" snapshotOnly
     = inl (Error "Asset file not found: a.txt"))
  ∧ (List.find (Fs.existsSync maskedFs) (HelperSpec.listed devProcess "a.txt")
     = Some ["usr"; "bin"; "assets"; "a.txt"]
     ∧ maskedFs !! ["w"; "assets"; "a.txt"] = Some (File "data")
     ∧ Helper.lookup devProcess "a.txt" maskedFs
       = inl (SystemError "EISDIR" ["usr"; "bin"; "assets"; "a.txt"])).
Proof. repeat split; vm_compute; reflexivity. Qed.

(** A name that ends in a slash finds a directory only. *)
Example readAsset_trailing_slash :
  let fs : FS := list_to_map
    [ ([], Dir); (["w"], Dir); (["w"; "assets"], Dir);
      (["w"; "assets"; "a.txt"], File "data"); (["w"; "assets"; "sub"], Dir) ] in
  Helper.lookup devProcess "a.txt" fs = inr "data"
  ∧ Helper.lookup devProcess "a.txt/" fs = inl (Error "Asset file not found: a.txt/")
  ∧ Helper.lookup devProcess "sub/" fs = inl (SystemError "EISDIR" ["w"; "assets"; "sub"]).
Proof. repeat split; vm_compute; reflexivity. Qed.

(** ** Exit codes *)

Lemma entry_foldl_tokens (ts : list token) : ∀ acc,
  p_entryPoint (foldl applyToken acc ts)
  = foldl (λ e t, if t is TEntry s then s else e) (p_entryPoint acc) ts.
Proof.
  induction ts as [|t ts IH]; intros acc; [done |]. simpl. rewrite IH.
  by destruct t as [[] short v|s|s].
Qed.

Lemma entry_setOption (o : optionKind) (v : option string) (acc : Parsed) :
  p_entryPoint (setOption o v acc) = p_entryPoint acc.
Proof. by destruct o. Qed.

(** With an entry point and no request for help, [main] calls [compile]
    and handles what it throws. *)
Lemma main_build (env : Env) (fuel : nat) (argv : list string) (w : world) :
  wantsHelp (drop 2 argv) = false →
  p_entryPoint (parseArgs (drop 2 argv) (initialParsed env)) ≠ "" →
  main env fuel argv w
  = tryCatch (compile env fuel (mainOptions env (drop 2 argv)))
      (λ error,
         console_error [VStr "❌ Compilation failed:"; VError error] >>
         process_exit 1)
      (mainStart env argv w).
Proof.
  intros Hhelp Hentry.
  unfold main, mainStart, bind, console_log, emit, when. simpl.
  rewrite Hhelp. simpl. rewrite bool_decide_eq_false_2 by done. simpl.
  fold (mainOptions env (drop 2 argv)). by rewrite <- !app_assoc.
Qed.

Lemma isOptionFlag_flagOf (s : string) :
  isOptionFlag s = true → ∃ o short, s = flagOf o short.
Proof.
  unfold isOptionFlag, isFlag. rewrite !orb_true_iff, !bool_decide_eq_true.
  intros [[[[->| ->]|[->| ->]]|[->| ->]]|[->| ->]].
  - by exists OptOut, false.
  - by exists OptOut, true.
  - by exists OptTarget, false.
  - by exists OptTarget, true.
  - by exists OptPlatform, false.
  - by exists OptPlatform, true.
  - by exists OptAssets, false.
  - by exists OptAssets, true.
Qed.

(** Every command line is a list of tokens, followed or not by an
    option flag that has no value. *)
Lemma tokens_exist (n : nat) : ∀ args : list string,
  (length args ≤ n)%nat →
  ∃ ts, Forall tokenOk ts
        ∧ (args = concat (tokenArgs <$> ts)
           ∨ ∃ o short, args = concat (tokenArgs <$> ts) ++ [flagOf o short]).
Proof.
  induction n as [|n IH]; intros args Hlen.
  - destruct args; [|simpl in Hlen; lia]. exists []. split; [constructor | by left].
  - destruct args as [|a rest]; [exists []; split; [constructor | by left] |].
    simpl in Hlen.
    destruct (isOptionFlag a) eqn:Hflag.
    + destruct (isOptionFlag_flagOf a Hflag) as (o & short & ->).
      destruct rest as [|v rest].
      * exists []. split; [constructor |]. right. by exists o, short.
      * destruct (IH rest) as (ts & Hok & Hts); [simpl in Hlen; lia |].
        exists (TOption o short v :: ts). split; [by constructor |].
        destruct Hts as [->|(o' & short' & ->)]; [by left |].
        right. by exists o', short'.
    + destruct (IH rest) as (ts & Hok & Hts); [lia |].
      destruct (startsWithDash a) eqn:Hdash.
      * exists (TSkipped a :: ts). split; [by constructor |].
        destruct Hts as [->|(o' & short' & ->)]; [by left |].
        right. by exists o', short'.
      * exists (TEntry a :: ts). split; [by constructor |].
        destruct Hts as [->|(o' & short' & ->)]; [by left |].
        right. by exists o', short'.
Qed.

(** C8: with no argument after the script name, or with [--help] or
    [-h] among them, [main] prints the usage text and returns (exit code
    0) with no file touched and no collaborator called.  Otherwise, when
    no entry point comes out of the arguments, it reports "Entry point is
    required" and exits with code 1, again before any build.  The entry
    point is the last argument that starts without a dash and is not the
    value of an option, and the empty string when there is none, as when
    every argument starts with a dash.  With an entry point [main] runs
    [compile] on the parsed options: a run that returns gives exit code
    0, a run that throws is reported and gives exit code 1, and [compile]
    itself never exits.  The script of [bin/cli.ts] has the exit code of
    [main]. *)
Theorem cli_exit_codes (env : Env) (fuel : nat) (argv : list string) (w : world) :
  let args := drop 2 argv in
  let entryPoint := p_entryPoint (parseArgs args (initialParsed env)) in
  (* help *)
  (args = [] ∨ In "--help" args ∨ In "-h" args →
   ∃ w', main env fuel argv w = Returns tt w'
         ∧ In (Log [VStr usage]) (trace w')
         ∧ files w' = files w ∧ invocations (trace w') = invocations (trace w)
         ∧ exitCode (main env fuel argv w) = Some 0)
  (* no entry point *)
  ∧ (¬ (args = [] ∨ In "--help" args ∨ In "-h" args) →
     entryPoint = "" →
     ∃ w', main env fuel argv w = Exits 1 w'
           ∧ In (ErrorLog [VStr "❌ Error: Entry point is required"]) (trace w')
           ∧ files w' = files w ∧ invocations (trace w') = invocations (trace w)
           ∧ exitCode (main env fuel argv w) = Some 1)
  (* which arguments give an entry point *)
  ∧ ((∀ a, In a args → startsWithDash a = true) → entryPoint = "")
  ∧ ((∃ ts, Forall tokenOk ts
            ∧ (args = concat (tokenArgs <$> ts)
               ∨ ∃ o short, args = concat (tokenArgs <$> ts) ++ [flagOf o short]))
     ∧ (∀ ts, Forall tokenOk ts →
              args = concat (tokenArgs <$> ts)
              ∨ (∃ o short, args = concat (tokenArgs <$> ts) ++ [flagOf o short]) →
              entryPoint = entryOf ts))
  (* a build: exit code 0 when [compile] returns, 1 when it throws *)
  ∧ (¬ (args = [] ∨ In "--help" args ∨ In "-h" args) →
     entryPoint ≠ "" →
     let built := compile env fuel (mainOptions env args) (mainStart env argv w) in
     (∀ w', built = Returns tt w' →
            main env fuel argv w = Returns tt w'
            ∧ exitCode (main env fuel argv w) = Some 0)
     ∧ (∀ e w', built = Throws e w' →
                main env fuel argv w
                = Exits 1 {| files := files w';
                             trace := trace w' ++
                               [ErrorLog [VStr "❌ Compilation failed:"; VError e]] |}
                ∧ exitCode (main env fuel argv w) = Some 1)
     ∧ (∀ c w', built ≠ Exits c w')
     ∧ (built = Diverges → main env fuel argv w = Diverges))
  (* the script *)
  ∧ (∀ fs, exitCode (run (cli env fuel argv) fs)
           = exitCode (main env fuel argv
               {| files := fs;
                  trace := [Log [VStr "CLI script starting..."];
                            Log [VStr "Starting ts-compiler-bin CLI..."]] |})).
Proof.
  intros args entryPoint.
  assert (¬ (args = [] ∨ In "--help" args ∨ In "-h" args) → wantsHelp args = false) as Hno.
  { intros Hhelp. destruct (wantsHelp args) eqn:E; [|done]. by apply wantsHelp_true in E. }
  split; [|split; [|split; [|split; [|split]]]].
  - intros Hhelp. apply wantsHelp_true in Hhelp.
    unfold main, bind, console_log, emit. simpl. fold args.
    rewrite Hhelp. simpl. eexists. split; [reflexivity |]. simpl.
    split; [apply in_or_app; right; by left |]. split; [done |]. split; [|done].
    rewrite <- !app_assoc, invocations_app. simpl. unfold invocations. simpl. lia.
  - intros Hhelp Hentry. unfold entryPoint in Hentry.
    unfold main, bind, console_log, console_error, emit, when, process_exit.
    simpl. fold args. rewrite (Hno Hhelp). simpl. rewrite Hentry. simpl.
    eexists. split; [reflexivity |]. simpl.
    split; [apply in_or_app; right; by left |]. split; [done |]. split; [|done].
    rewrite <- !app_assoc, invocations_app. simpl. unfold invocations. simpl. lia.
  - intros Hall. unfold entryPoint. by rewrite (parseArgs_dashed (length args)).
  - split; [by apply (tokens_exist (length args)) |].
    intros ts Hok Hargs. unfold entryPoint, entryOf.
    destruct Hargs as [->|(o & short & ->)].
    + rewrite <- (app_nil_r (concat _)), parseArgs_tokens_app by done. simpl.
      by rewrite entry_foldl_tokens.
    + rewrite parseArgs_tokens_app, parseArgs_dangling by done.
      by rewrite entry_setOption, entry_foldl_tokens.
  - intros Hhelp Hentry built. unfold entryPoint in Hentry.
    rewrite (main_build env fuel argv w (Hno Hhelp) Hentry). fold args.
    unfold tryCatch, bind, console_error, emit, process_exit. subst built.
    split; [|split; [|split]].
    + intros w' Hb. by rewrite Hb.
    + intros e w' Hb. by rewrite Hb.
    + intros c w' Hexit.
      by apply (exitsWith_compile (λ _, False) env fuel (mainOptions env args)
                  (mainStart env argv w) c w').
    + intros Hb. by rewrite Hb.
  - intros fs. unfold run, cli, bind, tryCatch, console_log, console_error, emit,
      process_exit. simpl.
    by destruct (main env fuel argv _).
Qed.

(** ** The README among the assets *)

(** C9, amended: in a run where staging found an asset, the packager,
    when it is called, is called on the staged files with [README.md]
    written into the assets directory over whatever file was staged
    under that name; when a directory was staged under that name the
    write throws EISDIR and the packager is not called; and when the run
    returns, so that the packager and the copy beside the output have
    both succeeded, the packager has kept that file, and the [assets/]
    directory beside the output neither lies inside the temp directory
    nor contains the staged assets, [README.md] is in that directory. *)
Theorem readme_staged (env : Env) (fuel : nat) (options : CompileOptions) (fs : FS)
    (w0 : world) :
  run (beforePackaging env fuel options) fs = Returns true w0 →
  (* what the packager is run on *)
  (∀ w cmd fs1,
     final (run (compile env fuel options) fs) = Some w →
     In (Exec cmd fs1) (trace w) →
     fs1 = <[readmePathOf env := File readmeText]> (files w0)
     ∧ fs1 !! (tempAssetsDirOf env ++ ["README.md"]) = Some (File readmeText))
  (* a directory staged under the name: the write throws *)
  ∧ (files w0 !! readmePathOf env = Some Dir →
     ∃ w, run (compile env fuel options) fs
          = Throws (SystemError "EISDIR" (readmePathOf env)) w
       ∧ execs (trace w) = [])
  (* what is left beside the executable when the run returns *)
  ∧ (∀ w out,
       run (compile env fuel options) fs = Returns tt w →
       outFile options = Some out →
       let exeAssetsDir := exeAssetsDirOf env (dirname out) in
       under (tempDirOf env) exeAssetsDir = false →
       under exeAssetsDir (tempAssetsDirOf env) = false →
       (∀ cmd fs1, (shell env cmd fs1).1 !! readmePathOf env = fs1 !! readmePathOf env) →
       files w !! (exeAssetsDir ++ ["README.md"]) = Some (File readmeText)).
Proof.
  intros Hbefore.
  assert (run (compile env fuel options) fs
          = packageStep env fuel (default "16" (nodeVersion options))
              (default (defaultPlatform env) (platform options)) (outFile options)
              true w0) as Hrun.
  { unfold run in *. rewrite compile_phases. unfold bind. by rewrite Hbefore. }
  assert (execs (trace w0) = []) as Hq.
  { pose proof (quiet_beforePackaging env fuel options {| files := fs; trace := [] |} w0) as H.
    unfold run in Hbefore. rewrite Hbefore in H. by apply H. }
  assert (files w0 !! readmePathOf env = Some Dir →
          ∃ w, run (compile env fuel options) fs
               = Throws (SystemError "EISDIR" (readmePathOf env)) w
            ∧ execs (trace w) = []) as Hdir.
  { intros Hd. rewrite Hrun. unfold packageStep, bind, console_log, emit.
    rewrite assetsOption_dir by done.
    eexists. split; [reflexivity |]. simpl. by rewrite execs_snoc, app_nil_r. }
  destruct (packageStep_outcome env fuel (default "16" (nodeVersion options))
              (default (defaultPlatform env) (platform options)) (outFile options)
              true w0 Hq) as [(e & w' & Hthrow & Hq' & _)|(opt & fs0 & [-> ->] & Hpk)];
    rewrite <- Hrun in *.
  - split; [|split; [done |]].
    + intros w cmd fs1 Hfin Hin. rewrite Hthrow in Hfin. injection Hfin as <-.
      apply In_execs in Hin; [|done]. by rewrite Hq' in Hin.
    + intros w out Hret. by rewrite Hthrow in Hret.
  - split; [|split; [done |]].
    + intros w cmd fs1 Hfin Hin. apply In_execs in Hin; [|done].
      assert (execs (trace w) = [Exec (pkgCommand (bundleFileOf env)
                (String.concat "," (pkgTargets (default "16" (nodeVersion options))
                   (default (defaultPlatform env) (platform options))))
                (assetsFlag env) (outFile options))
                (<[readmePathOf env := File readmeText]> (files w0))]) as Hex.
      { destruct (run (compile env fuel options) fs) as [[] w'|e w'|c w'|];
          simpl in Hfin; try done; injection Hfin as ->; by destruct Hpk. }
      rewrite Hex in Hin. destruct Hin as [[= <- <-]|[]].
      split; [done |]. by rewrite <- readmePathOf_eq, lookup_insert_eq.
    + intros w out Hret Hout E HuT HuE Hkeep. rewrite Hret in Hpk.
      destruct Hpk as (_ & _ & _ & w3 & w4 & Hw3 & Hcopy & ->).
      rewrite Hout in Hcopy.
      assert (unrelated (tempAssetsDirOf env) E) as Hun.
      { split; [|done]. destruct (under (tempAssetsDirOf env) E) eqn:Eu; [|done].
        rewrite tempAssetsDirOf_eq in Eu. by rewrite (under_parent _ _ _ Eu) in HuT. }
      rewrite rmSync_lookup.
      assert (under (tempDirOf env) (E ++ ["README.md"]) = false) as ->.
      { destruct (under (tempDirOf env) (E ++ ["README.md"])) eqn:Eu; [|done].
        apply under_snoc_inv in Eu as [Eu|Eu]; [by rewrite Eu in HuT |].
        rewrite tempDirOf_eq in Eu. by apply app_inj_tail in Eu as [_ ?]. }
      eapply copyBeside_file; [exact Hcopy | exact Hun |].
      by rewrite Hw3, <- readmePathOf_eq, Hkeep, lookup_insert_eq.
Qed.

(** ** The copy beside the executable, and the way back *)

Lemma segments_cons (s : string) : ∃ seg segs, segments s = seg :: segs.
Proof.
  destruct s as [|c s]; [by exists "", [] |]. simpl.
  destruct (Ascii.eqb c "/"); [by eexists _, _ |].
  destruct (segments s); by eexists _, _.
Qed.

Lemma segments_append (a b : string) :
  segments (a +:+ "/" +:+ b) = segments a ++ segments b.
Proof.
  induction a as [|c a IH]; [done |].
  simpl. change (String.append a (String "/" b)) with (a +:+ "/" +:+ b). rewrite IH.
  destruct (Ascii.eqb c "/"); [done |].
  destruct (segments_cons a) as (seg & segs & ->). done.
Qed.

Lemma segments_noSlash (s : string) : Forall (λ seg, noSlash seg = true) (segments s).
Proof.
  induction s as [|c s IH]; [by repeat constructor |]. simpl.
  destruct (Ascii.eqb c "/") eqn:E; [by constructor |].
  destruct (segments s) as [|seg segs]; [repeat constructor; simpl; by rewrite E |].
  apply Forall_cons in IH as [H1 H2]. constructor; [|done]. simpl. by rewrite E.
Qed.

Lemma segments_plain (s : string) : noSlash s = true → segments s = [s].
Proof.
  induction s as [|c s IH]; [done |]. simpl. intros [Hc Hs]%andb_true_iff.
  apply negb_true_iff in Hc. rewrite Hc, (IH Hs). done.
Qed.

Lemma segments_concat (l : list string) :
  l ≠ [] → Forall (λ seg, noSlash seg = true) l → segments (String.concat "/" l) = l.
Proof.
  induction l as [|x l IH]; [done |]. intros _ [Hx Hl]%Forall_cons.
  destruct l as [|y l]; [by apply segments_plain |].
  change (String.concat "/" (x :: y :: l)) with (x +:+ "/" +:+ String.concat "/" (y :: l)).
  rewrite segments_append, (segments_plain x Hx), IH; done.
Qed.

Lemma normalizeStep_normalised (allow : bool) (res : list string) (seg : string) :
  Forall (normalised allow) res → noSlash seg = true →
  Forall (normalised allow) (normalizeStep allow res seg).
Proof.
  intros Hres Hseg. unfold normalizeStep.
  destruct (decide (seg = "" ∨ seg = ".")) as [|Hn]; [done |].
  destruct (decide (seg = "..")) as [->|Hdd].
  - assert (allow = true → Forall (normalised allow) (res ++ [".."])) as Hpush.
    { intros ->. apply Forall_app. split; [done |]. by repeat constructor. }
    destruct (last res) as [l|] eqn:El.
    + destruct (decide (l = "..")); [destruct allow; auto |].
      apply last_Some in El as [res' ->]. rewrite removelast_last.
      by apply Forall_app in Hres as [? _].
    + destruct allow; auto.
  - apply Forall_app. split; [done |]. repeat constructor; try done.
    + intros ->. apply Hn. by left.
    + intros ->. apply Hn. by right.
Qed.

Lemma normalizeString_snoc (allow : bool) (segs : list string) (seg : string) :
  normalizeString allow (segs ++ [seg]) = normalizeStep allow (normalizeString allow segs) seg.
Proof. unfold normalizeString. by rewrite foldl_app. Qed.

Lemma normalizeString_normalised (allow : bool) (segs : list string) :
  Forall (λ seg, noSlash seg = true) segs →
  Forall (normalised allow) (normalizeString allow segs).
Proof.
  induction segs as [|seg segs IH] using rev_ind; [by constructor |].
  intros [Hsegs Hseg]%Forall_app. apply Forall_cons in Hseg as [Hseg _].
  rewrite normalizeString_snoc. apply normalizeStep_normalised; auto.
Qed.

Lemma walk_snoc (base : path) (segs : list string) (seg : string) :
  walk base (segs ++ [seg]) = step (walk base segs) seg.
Proof. unfold walk. by rewrite foldl_app. Qed.

Lemma step_plain (base : path) (seg : string) :
  seg ≠ "" → seg ≠ "." → seg ≠ ".." → step base seg = base ++ [seg].
Proof.
  intros H1 H2 H3. unfold step. rewrite decide_False by (intros [?|?]; done).
  by rewrite decide_False.
Qed.

(** Resolving the normalised segments is resolving the segments: below
    any directory for a relative path, below the root for an absolute
    one. *)
Lemma walk_normalizeString (allow : bool) (base : path) (segs : list string) :
  allow = true ∨ base = [] →
  Forall (λ seg, noSlash seg = true) segs →
  walk base (normalizeString allow segs) = walk base segs.
Proof.
  intros Hbase. induction segs as [|seg segs IH] using rev_ind; [done |].
  intros [Hsegs Hseg]%Forall_app. apply Forall_cons in Hseg as [Hseg _].
  rewrite normalizeString_snoc, walk_snoc, <- (IH Hsegs).
  pose proof (normalizeString_normalised allow segs Hsegs) as Hres.
  set (res := normalizeString allow segs) in *. clearbody res.
  unfold normalizeStep.
  destruct (decide (seg = "" ∨ seg = ".")) as [Ht|Hn].
  { unfold step. by rewrite decide_True. }
  destruct (decide (seg = "..")) as [->|Hdd]; [|by rewrite walk_snoc].
  destruct (last res) as [l|] eqn:El.
  - destruct (decide (l = "..")) as [->|Hl].
    + destruct allow; [by rewrite walk_snoc |].
      apply last_Some in El as [res' El]. rewrite El in Hres.
      apply Forall_app in Hres as [_ Hl]. apply Forall_cons in Hl as [(_ & _ & _ & Hl) _].
      by destruct Hl.
    + apply last_Some in El as [res' El]. rewrite El in *.
      apply Forall_app in Hres as [_ Hl']. apply Forall_cons in Hl' as [(H1 & H2 & _) _].
      rewrite removelast_last, walk_snoc, (step_plain _ l) by done.
      unfold step. rewrite decide_False by (intros [?|?]; done).
      rewrite decide_True by done. by rewrite removelast_last.
  - apply last_None in El. rewrite El. destruct allow; [by rewrite walk_snoc |].
    destruct Hbase as [? | ->]; done.
Qed.

Lemma isAbsolute_append (a b : string) : a ≠ "" → isAbsolute (a +:+ b) = isAbsolute a.
Proof. by destruct a. Qed.

Lemma endsWithSlash_cons (c : Ascii.ascii) (s : string) :
  s ≠ "" → endsWithSlash (String c s) = endsWithSlash s.
Proof. by destruct s. Qed.

Lemma endsWithSlash_append (a : string) (c : Ascii.ascii) (b : string) :
  endsWithSlash (a +:+ String c b) = endsWithSlash (String c b).
Proof.
  induction a as [|c' a IH]; [done |].
  change (String c' a +:+ String c b) with (String c' (a +:+ String c b)).
  rewrite endsWithSlash_cons by (by destruct a). exact IH.
Qed.

Lemma append_empty (s : string) : s +:+ "" = s.
Proof.
  induction s as [|c s IH]; [done |].
  change (String c (s +:+ "") = String c s). by rewrite IH.
Qed.

Lemma concat_not_absolute (x : string) (l : list string) :
  x ≠ "" → noSlash x = true → isAbsolute (String.concat "/" (x :: l)) = false.
Proof.
  intros Hx Hs. destruct x as [|c x]; [done |].
  simpl in Hs. apply andb_true_iff in Hs as [Hc _]. apply negb_true_iff in Hc.
  destruct l; simpl; done.
Qed.

Lemma concat_not_empty (x : string) (l : list string) :
  x ≠ "" → String.concat "/" (x :: l) ≠ "".
Proof. intros Hx. destruct x; [done |]. by destruct l. Qed.

(** The assets directory beside the output: resolving the string that
    [path.join] returns gives the directory [assets] in the resolved
    directory of the output. *)
Lemma resolve_joinStrings (cwd : path) (dir : string) :
  dir ≠ "" →
  resolve cwd (joinStrings dir "assets") = join (resolve cwd dir) "assets".
Proof.
  intros Hdir. unfold joinStrings.
  rewrite (decide_False (P := dir = "")) by done.
  rewrite (decide_False (P := "assets" = "")) by done.
  assert (dir +:+ "/" +:+ "assets" ≠ "") as Hne by (by destruct dir).
  rewrite (decide_False (P := dir +:+ "/" +:+ "assets" = "")) by done.
  unfold normalize. rewrite (decide_False (P := dir +:+ "/" +:+ "assets" = "")) by done.
  rewrite isAbsolute_append by done.
  change (endsWithSlash (dir +:+ "/" +:+ "assets"))
    with (endsWithSlash (dir +:+ String "/" "assets")).
  rewrite (endsWithSlash_append dir "/" "assets"). simpl endsWithSlash.
  rewrite segments_append. change (segments "assets") with ["assets"].
  pose proof (segments_noSlash dir) as Hsl.
  set (allow := negb (isAbsolute dir)).
  pose proof (normalizeString_normalised allow (segments dir) Hsl) as Hres.
  rewrite normalizeString_snoc.
  assert (normalizeStep allow (normalizeString allow (segments dir)) "assets"
          = normalizeString allow (segments dir) ++ ["assets"]) as ->.
  { unfold normalizeStep. rewrite decide_False by (intros [?|?]; done).
    by rewrite decide_False. }
  set (res := normalizeString allow (segments dir)) in *.
  assert (Forall (λ seg, noSlash seg = true) (res ++ ["assets"])) as Hall.
  { apply Forall_app. split; [|by repeat constructor].
    eapply Forall_impl; [exact Hres |]. by intros x (_ & _ & ? & _). }
  assert (∃ x l, res ++ ["assets"] = x :: l ∧ x ≠ "" ∧ noSlash x = true) as (x & l & Hxl & Hx & Hxs).
  { destruct res as [|x l]; [by exists "assets", [] |].
    exists x, (l ++ ["assets"]). split; [done |].
    apply Forall_cons in Hres as [(? & _ & ? & _) _]. done. }
  rewrite (decide_False (P := String.concat "/" (res ++ ["assets"]) = ""))
    by (rewrite Hxl; by apply concat_not_empty).
  unfold resolve, join. fold allow.
  assert (walk (if isAbsolute dir then [] else cwd) (res ++ ["assets"])
          = walk (walk (if isAbsolute dir then [] else cwd) (segments dir)) ["assets"]) as Hwalk.
  { rewrite walk_snoc. unfold res. rewrite walk_normalizeString; [done | | done].
    unfold allow. destruct (isAbsolute dir); [by right | by left]. }
  destruct (isAbsolute dir) eqn:Habs.
  - change ("/" +:+ String.concat "/" (res ++ ["assets"]) +:+ "")
      with (String "/" (String.concat "/" (res ++ ["assets"]) +:+ "")).
    pose proof append_empty as Hnil.
    rewrite Hnil. simpl isAbsolute. simpl segments.
    rewrite segments_concat by (done || by rewrite Hxl).
    change (walk [] ("" :: res ++ ["assets"])) with (walk [] (res ++ ["assets"])).
    exact Hwalk.
  - pose proof append_empty as Hnil.
    change ("" +:+ String.concat "/" (res ++ ["assets"]) +:+ "")
      with (String.concat "/" (res ++ ["assets"]) +:+ "").
    rewrite Hnil. rewrite Hxl at 1. rewrite concat_not_absolute by done.
    rewrite segments_concat by (done || by rewrite Hxl).
    exact Hwalk.
Qed.

Lemma dirname_not_empty (s : string) : dirname s ≠ "".
Proof.
  unfold dirname. destruct (list_ascii_of_string s) as [|c0 rest]; [done |].
  destruct (skipSegment (skipSlashes (rev rest))) as [|c before].
  - by destruct (Ascii.eqb c0 "/").
  - by destruct (Ascii.eqb c0 "/" && bool_decide (before = [])).
Qed.

(** The directory that the copy beside the executable writes to is the
    one that the printed string resolves to. *)
Lemma exeAssetsDirOf_resolve (env : Env) (out : string) :
  resolve (process_cwd env) (joinStrings (dirname out) "assets")
  = exeAssetsDirOf env (dirname out).
Proof. apply resolve_joinStrings, dirname_not_empty. Qed.

Lemma segments_nonempty (s : string) : segments s ≠ [].
Proof. destruct s as [|c s]; [done |]. simpl. destruct (Ascii.eqb c "/"); [done |]. by destruct (segments s). Qed.

Lemma segments_slash (s : string) : endsWithSlash s = true → ∃ seg segs, segments s = seg :: segs ∧ segs ≠ [].
Proof.
  induction s as [|c s IH]; [done |]. simpl.
  destruct s as [|c' s'].
  - intros ->. simpl. by exists "", [""].
  - intros H. destruct (IH H) as (seg & segs & Hs & Hne). rewrite Hs.
    destruct (Ascii.eqb c "/"); [exists "", (seg :: segs) | exists (String c seg), segs]; done.
Qed.

Lemma plainName_no_slash (n : string) : plainName n → endsWithSlash n = false.
Proof.
  intros (Hseg & _). destruct (endsWithSlash n) eqn:E; [|done].
  destruct (segments_slash n E) as (seg & segs & Hs & Hne). rewrite Hs in Hseg.
  injection Hseg as _ ->. done.
Qed.

(** X13: when the directory of the output exists, the copy beside the
    executable returns; afterwards every staged entry is at the same
    relative path below [assets/] in the directory of the output, and
    nothing outside that directory has changed; the one message printed
    names that directory as [path.join] gives it, relative when the
    output is, a string that resolves to that directory. *)
Theorem assets_copied_beside_output (env : Env) (fuel : nat) (out : string) (w : world) :
  let A := tempAssetsDirOf env in
  let E := exeAssetsDirOf env (dirname out) in
  wf (files w) →
  files w !! A = Some Dir →
  files w !! resolve (process_cwd env) (dirname out) = Some Dir →
  unrelated A E →
  compatible (files w) A E →
  (∀ r, is_Some (files w !! (A ++ r)) → length r < S fuel) →
  ∃ w', copyBeside env fuel (Some out) w = Returns tt w'
    ∧ (∀ r e, files w !! (A ++ r) = Some e → files w' !! (E ++ r) = Some e)
    ∧ (∀ k, under E k = false → files w' !! k = files w !! k)
    ∧ trace w' = trace w ++
                 [Log [VStr ("✅ Assets copied to executable directory: "
                             +:+ joinStrings (dirname out) "assets")]]
    ∧ resolve (process_cwd env) (joinStrings (dirname out) "assets") = E.
Proof.
  intros A E Hwf HA Hout Hun Hcompat Hdepth.
  destruct (copyBeside_ok env fuel out w) as (fs' & Hrun & _ & Hin & Hout'); try done.
  eexists. split; [exact Hrun |]. split; [done |]. split; [done |]. split; [done |].
  apply exeAssetsDirOf_resolve.
Qed.

(** X14: a file staged under a plain name [n] by a run of [compile] that
    returns is, after the run, in [assets/] beside the output, and the
    lookup helper of a program whose executable lies in that directory
    returns it for [n]: with the content staged, except under the name
    [README.md], where the text that the tool writes has replaced it. *)
Theorem staged_asset_read_back (env : Env) (fuel : nat) (options : CompileOptions)
    (fs : FS) (w0 w : world) (out n c : string) (proc : Helper.Process) :
  let A := tempAssetsDirOf env in
  let E := exeAssetsDirOf env (dirname out) in
  let content := if decide (n = "README.md") then readmeText else c in
  run (beforePackaging env fuel options) fs = Returns true w0 →
  files w0 !! (A ++ [n]) = Some (File c) →
  plainName n →
  outFile options = Some out →
  unrelated (tempDirOf env) E →
  (∀ cmd fs1, (shell env cmd fs1).1 !! (A ++ [n]) = fs1 !! (A ++ [n])) →
  run (compile env fuel options) fs = Returns tt w →
  parent (Helper.execPath proc) = resolve (process_cwd env) (dirname out) →
  files w !! (E ++ [n]) = Some (File content)
  ∧ Helper.readAsset proc n w = Returns content w.
Proof.
  intros A E content Hbefore Hstaged Hplain Hout [HuT HuE] Hkeep Hret Hexe.
  assert (files w !! (E ++ [n]) = Some (File content)) as Hthere.
  { assert (run (compile env fuel options) fs
            = packageStep env fuel (default "16" (nodeVersion options))
                (default (defaultPlatform env) (platform options)) (outFile options)
                true w0) as Hrun.
    { unfold run in *. rewrite compile_phases. unfold bind. by rewrite Hbefore. }
    assert (execs (trace w0) = []) as Hq.
    { pose proof (quiet_beforePackaging env fuel options {| files := fs; trace := [] |} w0)
        as H.
      unfold run in Hbefore. rewrite Hbefore in H. by apply H. }
    destruct (packageStep_outcome env fuel (default "16" (nodeVersion options))
                (default (defaultPlatform env) (platform options)) (outFile options)
                true w0 Hq) as [(e & w' & Hthrow & _)|(opt & fs0 & [-> ->] & Hpk)];
      rewrite <- Hrun in *.
    - by rewrite Hthrow in Hret.
    - rewrite Hret in Hpk. destruct Hpk as (_ & _ & _ & w3 & w4 & Hw3 & Hcopy & ->).
      rewrite Hout in Hcopy.
      assert (unrelated A E) as Hun.
      { split.
        - destruct (under A E) eqn:Eu; [|done]. unfold A in Eu.
          rewrite tempAssetsDirOf_eq in Eu. by rewrite (under_parent _ _ _ Eu) in HuT.
        - destruct (under E A) eqn:Eu; [|done]. unfold A in Eu.
          rewrite tempAssetsDirOf_eq in Eu.
          apply under_snoc_inv in Eu as [Eu| ->]; [by rewrite Eu in HuE |].
          by rewrite under_app in HuT. }
      rewrite rmSync_lookup.
      assert (under (tempDirOf env) (E ++ [n]) = false) as ->.
      { destruct (under (tempDirOf env) (E ++ [n])) eqn:Eu; [|done].
        apply under_snoc_inv in Eu as [Eu|Eu]; [by rewrite Eu in HuT |].
        by rewrite Eu, under_app in HuE. }
      eapply copyBeside_file; [exact Hcopy | exact Hun |].
      rewrite Hw3, Hkeep. unfold content. destruct (decide (n = "README.md")) as [->|Hn].
      + unfold A. by rewrite <- readmePathOf_eq, lookup_insert_eq.
      + rewrite lookup_insert_ne; [done |].
        rewrite readmePathOf_eq. intros Heq. by apply app_inj_tail in Heq as [_ ?]. }
  split; [done |].
  rewrite readAsset_lookup. unfold Helper.lookup.
  rewrite (plainName_no_slash n Hplain).
  rewrite Hexe, (join_plain _ n) by done.
  change (join (resolve (process_cwd env) (dirname out)) "assets") with E.
  unfold Fs.existsSyncAs, Fs.readFileSyncAs. rewrite Hthere. by destruct w.
Qed.

(** ** These statements on examples *)

(** One listed path out of two is there, and none is. *)
Lemma helper_injected_iff_witness :
  let present (fs : FS) (s : string) :=
    Fs.existsSync fs (resolve (process_cwd exampleEnv) s) in
  (* one listed path is there *)
  (let assetsArray := [Some "nope"; Some "config.json"] in
   let w' := worldOf (stageAssets exampleEnv 0 assetsArray bundledWorld) in
   files w' !! bundleFileOf exampleEnv
     = Some (File (if true then assetHelperCode +:+ "B" else "B"))
   ∧ (true = true
      ↔ ∃ s w1, examines exampleEnv 0 assetsArray (loopStart exampleEnv bundledWorld) s w1
                ∧ present (files w1) s = true)
   ∧ (∀ s w1 c,
        examines exampleEnv 0 assetsArray (loopStart exampleEnv bundledWorld) s w1 →
        files w1 !! resolve (process_cwd exampleEnv) s = Some (File c) →
        ∃ w2, stageLoop exampleEnv 0 (tempAssetsDirOf exampleEnv) [Some s] false w1
              = Returns true w2
              ∧ files w2
                = <[tempAssetsDirOf exampleEnv
                    ++ [basename (resolve (process_cwd exampleEnv) s)] := File c]> (files w1))
   ∧ ((∀ a, In a assetsArray →
            missingAsset exampleEnv (files (loopStart exampleEnv bundledWorld)) a) →
      true = false))
  (* none is *)
  ∧ (let assetsArray := [Some "nope"; Some "absent"] in
     let w' := worldOf (stageAssets exampleEnv 0 assetsArray bundledWorld) in
     files w' !! bundleFileOf exampleEnv
       = Some (File (if false then assetHelperCode +:+ "B" else "B"))
     ∧ (false = true
        ↔ ∃ s w1, examines exampleEnv 0 assetsArray (loopStart exampleEnv bundledWorld) s w1
                  ∧ present (files w1) s = true)
     ∧ (∀ s w1 c,
          examines exampleEnv 0 assetsArray (loopStart exampleEnv bundledWorld) s w1 →
          files w1 !! resolve (process_cwd exampleEnv) s = Some (File c) →
          ∃ w2, stageLoop exampleEnv 0 (tempAssetsDirOf exampleEnv) [Some s] false w1
                = Returns true w2
                ∧ files w2
                  = <[tempAssetsDirOf exampleEnv
                      ++ [basename (resolve (process_cwd exampleEnv) s)] := File c]> (files w1))
     ∧ ((∀ a, In a assetsArray →
              missingAsset exampleEnv (files (loopStart exampleEnv bundledWorld)) a) →
        false = false)).
Proof.
  intros present. split.
  - intros assetsArray w'.
    apply (helper_injected_iff exampleEnv 0 assetsArray bundledWorld w' "B" true).
    + vm_compute. reflexivity.
    + apply (returned_worldOf (stageAssets exampleEnv 0 assetsArray bundledWorld)).
      vm_compute. reflexivity.
  - intros assetsArray w'.
    apply (helper_injected_iff exampleEnv 0 assetsArray bundledWorld w' "B" false).
    + vm_compute. reflexivity.
    + apply (returned_worldOf (stageAssets exampleEnv 0 assetsArray bundledWorld)).
      vm_compute. reflexivity.
Defined.

(** The usage text, a missing entry point, and builds that succeed and fail. *)
Lemma cli_exit_codes_witness :
  let w := {| files := exampleFs; trace := [] |} in
  let built (env : Env) (argv : list string) :=
    compile env 1 (mainOptions env (drop 2 argv)) (mainStart env argv w) in
  (* no argument: the usage text *)
  (∃ w', main exampleEnv 1 ["node"; "cli"] w = Returns tt w'
         ∧ In (Log [VStr usage]) (trace w')
         ∧ files w' = files w ∧ invocations (trace w') = invocations (trace w)
         ∧ exitCode (main exampleEnv 1 ["node"; "cli"] w) = Some 0)
  (* an option with its value and nothing else: no entry point *)
  ∧ (∃ w', main exampleEnv 1 ["node"; "cli"; "-o"; "app"] w = Exits 1 w'
           ∧ In (ErrorLog [VStr "❌ Error: Entry point is required"]) (trace w')
           ∧ files w' = files w ∧ invocations (trace w') = invocations (trace w)
           ∧ exitCode (main exampleEnv 1 ["node"; "cli"; "-o"; "app"] w) = Some 1)
  (* a bare token among options is the entry point *)
  ∧ p_entryPoint
      (parseArgs (drop 2 ["node"; "cli"; "-a"; "config.json"; "main.ts"; "-o"; "app"])
         (initialParsed exampleEnv))
    = "main.ts"
  (* a build that succeeds: both collaborators are called, exit code 0 *)
  ∧ (main exampleEnv 1 ["node"; "cli"; "main.ts"] w
     = Returns tt (worldOf (built exampleEnv ["node"; "cli"; "main.ts"]))
     ∧ exitCode (main exampleEnv 1 ["node"; "cli"; "main.ts"] w) = Some 0)
  ∧ invocations (trace (worldOf (built exampleEnv ["node"; "cli"; "main.ts"]))) = 2
  (* an entry file that is missing, a bundler and a packager that fail:
     exit code 1 *)
  ∧ (main exampleEnv 1 ["node"; "cli"; "absent.ts"] w
     = Exits 1 {| files := files (worldOf (built exampleEnv ["node"; "cli"; "absent.ts"]));
                  trace := trace (worldOf (built exampleEnv ["node"; "cli"; "absent.ts"])) ++
                    [ErrorLog [VStr "❌ Compilation failed:";
                               VError (Error "File not found: /w/absent.ts")]] |}
     ∧ exitCode (main exampleEnv 1 ["node"; "cli"; "absent.ts"] w) = Some 1)
  ∧ (main brokenEnv 1 ["node"; "cli"; "main.ts"] w
     = Exits 1 {| files := files (worldOf (built brokenEnv ["node"; "cli"; "main.ts"]));
                  trace := trace (worldOf (built brokenEnv ["node"; "cli"; "main.ts"])) ++
                    [ErrorLog [VStr "❌ Compilation failed:"; VError (Error "build failed")]] |}
     ∧ exitCode (main brokenEnv 1 ["node"; "cli"; "main.ts"] w) = Some 1)
  ∧ (main failingEnv 1 ["node"; "cli"; "main.ts"] w
     = Exits 1 {| files := files (worldOf (built failingEnv ["node"; "cli"; "main.ts"]));
                  trace := trace (worldOf (built failingEnv ["node"; "cli"; "main.ts"])) ++
                    [ErrorLog [VStr "❌ Compilation failed:"; VError (Error "pkg failed")]] |}
     ∧ exitCode (main failingEnv 1 ["node"; "cli"; "main.ts"] w) = Some 1).
Proof.
  intros w built.
  assert (∀ a : string, a ≠ "--help" → a ≠ "-h" →
            ¬ (drop 2 ["node"; "cli"; a] = [] ∨ In "--help" (drop 2 ["node"; "cli"; a])
               ∨ In "-h" (drop 2 ["node"; "cli"; a]))) as Hone.
  { intros a H1 H2 [H|[[H|[]]|[H|[]]]]; [discriminate H | by subst | by subst]. }
  split; [|split; [|split; [|split; [|split; [|split; [|split]]]]]].
  - apply (proj1 (cli_exit_codes exampleEnv 1 ["node"; "cli"] w)).
    left. reflexivity.
  - apply (proj1 (proj2 (cli_exit_codes exampleEnv 1 ["node"; "cli"; "-o"; "app"] w))).
    + simpl. intros [H|[[H|[H|[]]]|[H|[H|[]]]]]; discriminate H.
    + reflexivity.
  - apply (proj2 (proj1 (proj2 (proj2 (proj2
             (cli_exit_codes exampleEnv 1
                ["node"; "cli"; "-a"; "config.json"; "main.ts"; "-o"; "app"] w)))))
             [TOption OptAssets true "config.json"; TEntry "main.ts"; TOption OptOut true "app"]).
    + repeat constructor.
    + left. reflexivity.
  - apply (proj1 (proj1 (proj2 (proj2 (proj2 (proj2
             (cli_exit_codes exampleEnv 1 ["node"; "cli"; "main.ts"] w)))))
             (Hone "main.ts" ltac:(discriminate) ltac:(discriminate))
             ltac:(vm_compute; discriminate))
             (worldOf (built exampleEnv ["node"; "cli"; "main.ts"]))).
    apply (returned_worldOf (built exampleEnv ["node"; "cli"; "main.ts"]) tt).
    vm_compute. reflexivity.
  - vm_compute. reflexivity.
  - apply (proj1 (proj2 (proj1 (proj2 (proj2 (proj2 (proj2
             (cli_exit_codes exampleEnv 1 ["node"; "cli"; "absent.ts"] w)))))
             (Hone "absent.ts" ltac:(discriminate) ltac:(discriminate))
             ltac:(vm_compute; discriminate)))
             (Error "File not found: /w/absent.ts")
             (worldOf (built exampleEnv ["node"; "cli"; "absent.ts"]))).
    apply (thrown_worldOf (built exampleEnv ["node"; "cli"; "absent.ts"])
             (Error "File not found: /w/absent.ts")).
    vm_compute. reflexivity.
  - apply (proj1 (proj2 (proj1 (proj2 (proj2 (proj2 (proj2
             (cli_exit_codes brokenEnv 1 ["node"; "cli"; "main.ts"] w)))))
             (Hone "main.ts" ltac:(discriminate) ltac:(discriminate))
             ltac:(vm_compute; discriminate)))
             (Error "build failed")
             (worldOf (built brokenEnv ["node"; "cli"; "main.ts"]))).
    apply (thrown_worldOf (built brokenEnv ["node"; "cli"; "main.ts"]) (Error "build failed")).
    vm_compute. reflexivity.
  - apply (proj1 (proj2 (proj1 (proj2 (proj2 (proj2 (proj2
             (cli_exit_codes failingEnv 1 ["node"; "cli"; "main.ts"] w)))))
             (Hone "main.ts" ltac:(discriminate) ltac:(discriminate))
             ltac:(vm_compute; discriminate)))
             (Error "pkg failed")
             (worldOf (built failingEnv ["node"; "cli"; "main.ts"]))).
    apply (thrown_worldOf (built failingEnv ["node"; "cli"; "main.ts"]) (Error "pkg failed")).
    vm_compute. reflexivity.
Defined.

(** The example build: the README reaches the packager and the output. *)
Lemma readme_staged_witness :
  let w0 := worldOf (run (beforePackaging exampleEnv 1 exampleOptions) exampleFs) in
  let w := worldOf (run (compile exampleEnv 1 exampleOptions) exampleFs) in
  (* the packager is called on the staged files with the README *)
  (callOf (trace w)).2 = <[readmePathOf exampleEnv := File readmeText]> (files w0)
  ∧ (callOf (trace w)).2 !! (tempAssetsDirOf exampleEnv ++ ["README.md"])
    = Some (File readmeText)
  (* a staged directory of that name *)
  ∧ (files w0 !! readmePathOf exampleEnv = Some Dir →
     ∃ w, run (compile exampleEnv 1 exampleOptions) exampleFs
          = Throws (SystemError "EISDIR" (readmePathOf exampleEnv)) w
       ∧ execs (trace w) = [])
  (* the README beside the output *)
  ∧ files w !! (exeAssetsDirOf exampleEnv (dirname "out") ++ ["README.md"])
    = Some (File readmeText).
Proof.
  intros w0 w.
  pose proof (readme_staged exampleEnv 1 exampleOptions exampleFs w0
                (returned_worldOf (run (beforePackaging exampleEnv 1 exampleOptions) exampleFs)
                   true ltac:(vm_compute; reflexivity))) as (Hpk & Hdir & Hout).
  split; [|split; [|split]].
  - apply (Hpk w (callOf (trace w)).1 (callOf (trace w)).2).
    + apply (ended_worldOf (run (compile exampleEnv 1 exampleOptions) exampleFs)).
      vm_compute. reflexivity.
    + apply (called_In (trace w)). vm_compute. reflexivity.
  - apply (Hpk w (callOf (trace w)).1 (callOf (trace w)).2).
    + apply (ended_worldOf (run (compile exampleEnv 1 exampleOptions) exampleFs)).
      vm_compute. reflexivity.
    + apply (called_In (trace w)). vm_compute. reflexivity.
  - exact Hdir.
  - apply (Hout w "out").
    + apply (returned_worldOf (run (compile exampleEnv 1 exampleOptions) exampleFs)).
      vm_compute. reflexivity.
    + reflexivity.
    + vm_compute. reflexivity.
    + vm_compute. reflexivity.
    + intros cmd fs1. reflexivity.
Defined.

(** A staged tree of depth two, copied beside the output [out]. *)
Lemma assets_copied_beside_output_witness :
  let w := {| files := stagedFs; trace := [] |} in
  let A := tempAssetsDirOf exampleEnv in
  let E := exeAssetsDirOf exampleEnv (dirname "out") in
  ∃ w', copyBeside exampleEnv 2 (Some "out") w = Returns tt w'
    ∧ (∀ r e, files w !! (A ++ r) = Some e → files w' !! (E ++ r) = Some e)
    ∧ (∀ k, under E k = false → files w' !! k = files w !! k)
    ∧ trace w' = trace w ++
                 [Log [VStr "✅ Assets copied to executable directory: assets"]]
    ∧ resolve (process_cwd exampleEnv) "assets" = E.
Proof.
  intros w.
  apply (assets_copied_beside_output exampleEnv 2 "out" w).
  - apply wfCheck_wf. vm_compute. reflexivity.
  - vm_compute. reflexivity.
  - vm_compute. reflexivity.
  - split; vm_compute; reflexivity.
  - apply compatibleCheck_compatible. vm_compute. reflexivity.
  - apply depthCheck_depth. vm_compute. reflexivity.
Defined.

(** A staged [config.json], and a [README.md] of the project itself. *)
Lemma staged_asset_read_back_witness :
  let E := exeAssetsDirOf exampleEnv (dirname "out") in
  (let w := worldOf (run (compile exampleEnv 1 exampleOptions) exampleFs) in
   files w !! (E ++ ["config.json"]) = Some (File "{}")
   ∧ Helper.readAsset shippedProcess "config.json" w = Returns "{}" w)
  ∧ (let options := withAssets plainOptions (AssetList [Some "README.md"]) in
     let w := worldOf (run (compile exampleEnv 1 options) userReadmeFs) in
     files w !! (E ++ ["README.md"]) = Some (File readmeText)
     ∧ Helper.readAsset shippedProcess "README.md" w = Returns readmeText w).
Proof.
  intros E. split.
  - intros w.
    apply (staged_asset_read_back exampleEnv 1 exampleOptions exampleFs
             (worldOf (run (beforePackaging exampleEnv 1 exampleOptions) exampleFs))
             w "out" "config.json" "{}" shippedProcess).
    + apply (returned_worldOf (run (beforePackaging exampleEnv 1 exampleOptions) exampleFs)).
      vm_compute. reflexivity.
    + vm_compute. reflexivity.
    + split; [reflexivity |]. split; [discriminate |]. split; discriminate.
    + reflexivity.
    + split; vm_compute; reflexivity.
    + intros cmd fs1. reflexivity.
    + apply (returned_worldOf (run (compile exampleEnv 1 exampleOptions) exampleFs)).
      vm_compute. reflexivity.
    + reflexivity.
  - intros options w.
    apply (staged_asset_read_back exampleEnv 1 options userReadmeFs
             (worldOf (run (beforePackaging exampleEnv 1 options) userReadmeFs))
             w "out" "README.md" "mine" shippedProcess).
    + apply (returned_worldOf (run (beforePackaging exampleEnv 1 options) userReadmeFs)).
      vm_compute. reflexivity.
    + vm_compute. reflexivity.
    + split; [reflexivity |]. split; [discriminate |]. split; discriminate.
    + reflexivity.
    + split; vm_compute; reflexivity.
    + intros cmd fs1. reflexivity.
    + apply (returned_worldOf (run (compile exampleEnv 1 options) userReadmeFs)).
      vm_compute. reflexivity.
    + reflexivity.
Defined.

(** ** Where the statements of the specification stop *)

(** C3 as stated fails where a file meets a directory of its name.  For
    a file [sub] and a directory [images/] that holds a directory [sub/]
    with a file in it, the copy of [images/sub/b.png] finds a file where
    it needs a directory and throws: the contents of [images/] are not
    staged.  When [images/sub/] is empty, staging returns and the file
    staged first is still there, though the directory came last; in the
    other order the copy of the file throws on the directory.  The same
    happens where the assets directory, left by an earlier run, holds a
    directory under the name of the file. *)
Lemma file_meets_directory :
  let A := tempAssetsDirOf exampleEnv in
  (let w := {| files := bundled exampleEnv clashFs "B"; trace := [] |} in
   let o := stageAssets exampleEnv 5 [Some "sub"; Some "images"] w in
   thrown o = Some (SystemError "ENOTDIR" (A ++ ["sub"; "b.png"]))
   ∧ files (worldOf o) !! (A ++ ["sub"; "b.png"]) = None
   ∧ files (worldOf o) !! (A ++ ["sub"]) = Some (File "text"))
  ∧ (let w := {| files := bundled exampleEnv emptyClashFs "B"; trace := [] |} in
     let o := stageAssets exampleEnv 5 [Some "sub"; Some "images"] w in
     returned o = Some true
     ∧ files w !! (resolve (process_cwd exampleEnv) "images" ++ ["sub"]) = Some Dir
     ∧ files (worldOf o) !! (A ++ ["sub"]) = Some (File "text"))
  ∧ (let w := {| files := bundled exampleEnv emptyClashFs "B"; trace := [] |} in
     let o := stageAssets exampleEnv 5 [Some "images"; Some "sub"] w in
     thrown o = Some (SystemError "EISDIR" (A ++ ["sub"]))
     ∧ files (worldOf o) !! (A ++ ["sub"]) = Some Dir)
  ∧ (let w := {| files := staleFs; trace := [] |} in
     let o := stageAssets exampleEnv 5 [Some "config.json"; Some "images"] w in
     thrown o = Some (SystemError "EISDIR" (A ++ ["config.json"]))
     ∧ files (worldOf o) !! (A ++ ["a.png"]) = None).
Proof.
  repeat split; vm_compute; reflexivity.
Qed.

(** C5 as stated fails on two runs.  The assets directory itself, listed
    as the only asset, is missing before the run; the code creates it
    before the loop, finds it, and injects the helper.  And an empty
    directory sets the flag though nothing is copied from it: the helper
    is injected and the assets directory stays empty. *)
Lemma helper_injected_without_copy :
  let A := tempAssetsDirOf exampleEnv in
  (let assetsArray := [Some ".ts-compiler-bin-temp/assets"] in
   let o := stageAssets exampleEnv 0 assetsArray bundledWorld in
   Fs.existsSync (files bundledWorld)
     (resolve (process_cwd exampleEnv) ".ts-compiler-bin-temp/assets") = false
   ∧ returned o = Some true
   ∧ files (worldOf o) !! bundleFileOf exampleEnv = Some (File (assetHelperCode +:+ "B"))
   ∧ Fs.readdirSync (files (worldOf o)) A = inr [])
  ∧ (let assetsArray := [Some "empty"] in
     let o := stageAssets exampleEnv 0 assetsArray
                {| files := bundled exampleEnv emptyDirFs "B"; trace := [] |} in
     returned o = Some true
     ∧ files (worldOf o) !! bundleFileOf exampleEnv = Some (File (assetHelperCode +:+ "B"))
     ∧ Fs.readdirSync (files (worldOf o)) A = inr []).
Proof.
  repeat split; vm_compute; reflexivity.
Qed.

(** C9 as stated fails on three runs where staging found an asset.  With
    a staged directory named [README.md] the write throws, the packager
    is not run and no file [README.md] is staged.  With an output inside
    the temp directory the run returns and the copy beside the output has
    gone with the temp directory.  With a directory [README.md] already
    in [assets/] beside the output, the packager runs and the copy then
    throws on that directory. *)
Lemma readme_not_always_there :
  (let options := withAssets plainOptions (AssetList [Some "docs"]) in
   let o := run (compile exampleEnv 5 options) readmeDirFs in
   returned (run (beforePackaging exampleEnv 5 options) readmeDirFs) = Some true
   ∧ thrown o = Some (SystemError "EISDIR" (readmePathOf exampleEnv))
   ∧ called (trace (worldOf o)) = false
   ∧ files (worldOf o) !! readmePathOf exampleEnv = Some Dir)
  ∧ (let options := withOutFile exampleOptions ".ts-compiler-bin-temp/out" in
     let o := run (compile exampleEnv 5 options) exampleFs in
     let exeAssetsDir := exeAssetsDirOf exampleEnv (dirname ".ts-compiler-bin-temp/out") in
     returned (run (beforePackaging exampleEnv 5 options) exampleFs) = Some true
     ∧ returned o = Some tt
     ∧ files (worldOf o) !! (exeAssetsDir ++ ["README.md"]) = None)
  ∧ (let o := run (compile exampleEnv 5 exampleOptions) readmeBesideFs in
     let exeAssetsDir := exeAssetsDirOf exampleEnv (dirname "out") in
     returned (run (beforePackaging exampleEnv 5 exampleOptions) readmeBesideFs) = Some true
     ∧ called (trace (worldOf o)) = true
     ∧ thrown o = Some (SystemError "EISDIR" (exeAssetsDir ++ ["README.md"]))
     ∧ files (worldOf o) !! (exeAssetsDir ++ ["README.md"]) = Some Dir).
Proof.
  repeat split; vm_compute; reflexivity.
Qed.
